(** * CV-to-PDF converter: configuration, render pipeline and in-page
      transformation, embedded from the JavaScript sources.

    Source map
    - [src/constants.js]               : [DEFAULT_CONFIG], message tables
    - [src/errors/CustomErrors.js]     : [ErrorClass], [JsError]
    - [src/utils/Logger.js]            : [Logger], [logger_warn], ...
    - [src/utils/ConfigValidator.js]   : [validateConfig], [mergeWithDefaults]
    - [src/config/PDFConfig.js]        : [loadConfig], [getDefaultConfig]
    - [convertToPDF.js] (class based)  : [PDFGenerator], [convertToPDF],
                                         [applyOptimizations]                 *)

From stdpp Require Import gmap strings list fin_maps pretty.
From Stdlib Require Import QArith.

Set Warnings "-register-all".
Set Default Proof Using "Type".
Local Open Scope string_scope.

(* ================================================================== *)
(** * 1. JavaScript values                                              *)
(* ================================================================== *)

(** Numbers that [JSON.parse] can produce: finite values (kept as exact
    rationals) and the two infinities that overflowing literals such as
    [1e999] evaluate to. *)
Inductive JsNumber :=
| Fin (q : Q)
| PosInf
| NegInf.

(** JSON-representable values.  [undefined] is not a JSON value; a
    possibly-undefined expression has type [option JsValue]. *)
Inductive JsValue :=
| JNull
| JBool (b : bool)
| JNum (n : JsNumber)
| JStr (s : string)
| JArr (l : list JsValue)
| JObj (m : gmap string JsValue).

Definition num_leb (a b : JsNumber) : bool :=
  match a, b with
  | NegInf, _ => true
  | _, PosInf => true
  | Fin x, Fin y => Qle_bool x y
  | _, _ => false
  end.

Definition num_ltb (a b : JsNumber) : bool := negb (num_leb b a).

Definition num_of_nat (n : nat) : JsNumber := Fin (inject_Z (Z.of_nat n)).

(** ToBoolean. *)
Definition truthy (v : option JsValue) : bool :=
  match v with
  | None => false
  | Some JNull => false
  | Some (JBool b) => b
  | Some (JNum (Fin q)) => negb (Qeq_bool q 0)
  | Some (JNum _) => true
  | Some (JStr s) => negb (String.eqb s "")
  | Some (JArr _) => true
  | Some (JObj _) => true
  end.

(** The [typeof] operator. *)
Definition typeof (v : option JsValue) : string :=
  match v with
  | None => "undefined"
  | Some JNull => "object"
  | Some (JBool _) => "boolean"
  | Some (JNum _) => "number"
  | Some (JStr _) => "string"
  | Some (JArr _) => "object"
  | Some (JObj _) => "object"
  end.

(** Array index named by a property key, if any ("0", "1", ...). *)
Definition indexOfKey (len : nat) (k : string) : option nat :=
  fst <$> list_find (λ i, pretty i = k) (seq 0 len).

Definition chars (s : string) : list JsValue :=
  (λ c, JStr (String c EmptyString)) <$> String.list_ascii_of_string s.

(** Property read [v.k] / [v[k]] on a non-null value. *)
Definition getProp (v : JsValue) (k : string) : option JsValue :=
  match v with
  | JObj m => m !! k
  | JArr l =>
      if String.eqb k "length" then Some (JNum (num_of_nat (length l)))
      else i ← indexOfKey (length l) k; l !! i
  | JStr s =>
      if String.eqb k "length" then Some (JNum (num_of_nat (String.length s)))
      else i ← indexOfKey (String.length s) k; chars s !! i
  | _ => None
  end.

(** [o?.k] on a possibly-undefined receiver that is known not to throw. *)
Definition getOpt (v : option JsValue) (k : string) : option JsValue :=
  v ≫= (λ x, getProp x k).

Definition indexed (l : list JsValue) : gmap string JsValue :=
  list_to_map (imap (λ i x, (pretty i, x)) l).

(** Own enumerable properties copied by object spread [{...v}]. *)
Definition ownProps (v : option JsValue) : gmap string JsValue :=
  match v with
  | Some (JObj m) => m
  | Some (JArr l) => indexed l
  | Some (JStr s) => indexed (chars s)
  | _ => ∅
  end.

(** [{ ...a, ...b }]: properties of [b] win. *)
Definition spread (a b : option JsValue) : gmap string JsValue :=
  ownProps b ∪ ownProps a.

(** [JSON.parse(JSON.stringify(v))] on JSON data: a structural copy in
    which the numbers JSON has no text for, the two infinities, come
    back as [null], at any depth. *)
Fixpoint deepClone (v : JsValue) : JsValue :=
  match v with
  | JNum PosInf | JNum NegInf => JNull
  | JArr l => JArr (deepClone <$> l)
  | JObj m => JObj (deepClone <$> m)
  | _ => v
  end.

(* ================================================================== *)
(** * 2. Errors and results (src/errors/CustomErrors.js)                *)
(* ================================================================== *)

Inductive ErrorClass :=
| PlainError            (* Error *)
| SyntaxError
| TypeError
| SystemError           (* fs failures: ENOENT, EACCES, EISDIR ... *)
| ApplicationError
| ConfigurationError
| FileSystemError
| BrowserError
| PDFGenerationError
| ValidationError.

Global Instance ErrorClass_eq_dec : EqDecision ErrorClass.
Proof. solve_decision. Defined.

(** An error object: class, message, [field] (ValidationError) and
    [originalError] (Configuration/Browser/PDFGeneration errors). *)
Inductive JsError :=
| Err (cls : ErrorClass) (message : string)
      (field : option string) (originalError : option JsError).

Definition errClass (e : JsError) : ErrorClass := let 'Err c _ _ _ := e in c.
Definition errMessage (e : JsError) : string := let 'Err _ m _ _ := e in m.
Definition errOriginal (e : JsError) : option JsError := let 'Err _ _ _ o := e in o.

(** The [code] every ApplicationError subclass passes to its parent. *)
Definition errCode (e : JsError) : option string :=
  match errClass e with
  | ApplicationError => Some "APPLICATION_ERROR"
  | ConfigurationError => Some "CONFIGURATION_ERROR"
  | FileSystemError => Some "FILE_SYSTEM_ERROR"
  | BrowserError => Some "BROWSER_ERROR"
  | PDFGenerationError => Some "PDF_GENERATION_ERROR"
  | ValidationError => Some "VALIDATION_ERROR"
  | _ => None
  end.

(** [e instanceof C] for the two classes the loader tests. *)
Definition instanceof (e : JsError) (c : ErrorClass) : bool :=
  bool_decide (errClass e = c).

Definition newValidationError (message : string) (field : option string) : JsError :=
  Err ValidationError message field None.
Definition newConfigurationError (message : string) (original : option JsError) : JsError :=
  Err ConfigurationError message None original.

Inductive Result (A : Type) :=
| Ok (a : A)
| Throw (e : JsError).
Arguments Ok {A} a.
Arguments Throw {A} e.

Definition rbind {A B} (r : Result A) (f : A → Result B) : Result B :=
  match r with Ok a => f a | Throw e => Throw e end.

Definition isOk {A} (r : Result A) : bool :=
  match r with Ok _ => true | Throw _ => false end.

(* ================================================================== *)
(** * 3. Constants (src/constants.js)                                   *)
(* ================================================================== *)

Definition dec (num den : Z) : JsValue :=
  JNum (Fin (Qmake num (Z.to_pos den))).
Definition int (n : Z) : JsValue := JNum (Fin (inject_Z n)).
Definition obj (l : list (string * JsValue)) : gmap string JsValue := list_to_map l.

Definition DEFAULT_CONFIG : gmap string JsValue := obj [
  ("PDF", JObj (obj [
     ("FORMAT", JStr "A4");
     ("SCALE", dec 95 100);
     ("PRINT_BACKGROUND", JBool true);
     ("PREFER_CSS_PAGE_SIZE", JBool false);
     ("DISPLAY_HEADER_FOOTER", JBool false);
     ("OMIT_BACKGROUND", JBool false);
     ("MARGIN", JObj (obj [
        ("TOP", JStr "15mm");
        ("BOTTOM", JStr "15mm");
        ("LEFT", JStr "10mm");
        ("RIGHT", JStr "10mm") ])) ]));
  ("VIEWPORT", JObj (obj [
     ("WIDTH", int 1200);
     ("HEIGHT", int 1600);
     ("DEVICE_SCALE_FACTOR", int 2) ]));
  ("TIMEOUTS", JObj (obj [
     ("PAGE_LOAD", int 30000);
     ("IMAGE_RENDER", int 1000) ]));
  ("OUTPUT", JObj (obj [
     ("FILENAME", JStr "CV.pdf") ])) ].

Module PATHS.
Definition CONFIG_FILE := "pdf-config.json".
Definition HTML_FILE := "index.html".
Definition OUTPUT_FILE := "CV.pdf".
End PATHS.

Module LOG_MESSAGES.
Definition WARNING_CONFIG := "Warning: Could not load config from".
Definition WARNING_FALLBACK := "using defaults".
End LOG_MESSAGES.

Module ERROR_MESSAGES.
Definition BROWSER_INIT := "Failed to initialize browser".
Definition CONTENT_LOAD := "Failed to load content".
Definition HTML_NOT_FOUND := "HTML file not found".
Definition OPTIMIZATIONS := "Failed to apply optimizations".
Definition PDF_GENERATION := "Failed to generate PDF".
Definition CONFIG_LOAD := "Failed to load configuration".
Definition CONFIG_INVALID := "Invalid configuration format".
End ERROR_MESSAGES.

(* ================================================================== *)
(** * 4. Logger (src/utils/Logger.js)                                   *)
(* ================================================================== *)

Module LOG_LEVELS.
Definition DEBUG : Z := 0.
Definition INFO : Z := 1.
Definition WARN : Z := 2.
Definition ERROR : Z := 3.
End LOG_LEVELS.

(** [level] is [None] when [parseInt(process.env.LOG_LEVEL)] is NaN:
    every comparison with it is then false. *)
Record Logger := { level : option Z }.

Definition defaultLogger : Logger := {| level := Some LOG_LEVELS.INFO |}.

Inductive ConsoleMethod := console_debug | console_log | console_warn | console_error.

(** One call on the console: the method, the text and, when the logger
    was given a [data] argument, the payload it appends. *)
Record ConsoleCall := {
  c_method : ConsoleMethod;
  c_text : string;
  c_data : option JsValue
}.

Definition levelAtMost (lg : Logger) (l : Z) : bool :=
  match level lg with Some n => bool_decide (n ≤ l)%Z | None => false end.

Definition logger_debug (lg : Logger) (message : string) (data : option JsValue)
  : list ConsoleCall :=
  if levelAtMost lg LOG_LEVELS.DEBUG
  then [ {| c_method := console_debug; c_text := "[DEBUG] " +:+ message;
            c_data := if truthy data then data else None |} ]
  else [].

Definition logger_warn (lg : Logger) (message : string) (data : option JsValue)
  : list ConsoleCall :=
  if levelAtMost lg LOG_LEVELS.WARN
  then [ {| c_method := console_warn; c_text := "[WARN] " +:+ message;
            c_data := if truthy data then data else None |} ]
  else [].

(* ================================================================== *)
(** * 5. Configuration validator (src/utils/ConfigValidator.js)         *)
(* ================================================================== *)

Notation "x ←r e1 ; e2" := (rbind e1 (λ x, e2))
  (at level 100, e1 at next level, e2 at level 200, right associativity,
   format "x  ←r  e1 ;  '/' e2").

(** [if (bad) throw e]. *)
Definition throwIf (bad : bool) (e : JsError) : Result unit :=
  if bad then Throw e else Ok tt.

Definition notObject (v : option JsValue) : bool :=
  negb (truthy v) || negb (String.eqb (typeof v) "object").

(** [v !== undefined && (typeof v !== 'number' || outside v)]. *)
Definition definedAndNot (outside : JsNumber → bool) (v : option JsValue) : bool :=
  match v with
  | None => false
  | Some (JNum n) => outside n
  | Some _ => true
  end.

(** [v && typeof v !== 'string']. *)
Definition truthyNonString (v : option JsValue) : bool :=
  truthy v && negb (String.eqb (typeof v) "string").

Definition zero : JsNumber := Fin 0.
Definition one : JsNumber := Fin 1.
Definition three : JsNumber := Fin 3.

Definition marginKeys : list string := ["top"; "bottom"; "left"; "right"].

Definition validateMargin (margin : JsValue) : Result unit :=
  foldl (λ acc key,
           _ ←r acc;
           throwIf (truthyNonString (getProp margin key))
             (newValidationError
                ("Margin " +:+ key +:+ " must be a string (e.g., '15mm')")
                (Some ("pdf.margin." +:+ key))))
        (Ok tt) marginKeys.

Definition validatePDFConfig (config : option JsValue) : Result unit :=
  _ ←r throwIf (notObject config)
         (newValidationError "PDF configuration must be an object" (Some "pdf"));
  _ ←r throwIf (truthyNonString (getOpt config "format"))
         (newValidationError "PDF format must be a string" (Some "pdf.format"));
  _ ←r throwIf (definedAndNot (λ s, num_leb s zero || num_ltb one s)
                               (getOpt config "scale"))
         (newValidationError "PDF scale must be a number between 0 and 1"
                             (Some "pdf.scale"));
  match getOpt config "margin" with
  | Some margin => if truthy (Some margin) then validateMargin margin else Ok tt
  | None => Ok tt
  end.

Definition validateViewport (viewport : option JsValue) : Result unit :=
  _ ←r throwIf (notObject viewport)
         (newValidationError "Viewport configuration must be an object"
                             (Some "viewport"));
  _ ←r throwIf (definedAndNot (λ w, num_leb w zero) (getOpt viewport "width"))
         (newValidationError "Viewport width must be a positive number"
                             (Some "viewport.width"));
  _ ←r throwIf (definedAndNot (λ h, num_leb h zero) (getOpt viewport "height"))
         (newValidationError "Viewport height must be a positive number"
                             (Some "viewport.height"));
  throwIf (definedAndNot (λ f, num_ltb f one || num_ltb three f)
                         (getOpt viewport "deviceScaleFactor"))
    (newValidationError "Device scale factor must be a number between 1 and 3"
                        (Some "viewport.deviceScaleFactor")).

Definition validateTimeouts (timeouts : option JsValue) : Result unit :=
  _ ←r throwIf (notObject timeouts)
         (newValidationError "Timeouts configuration must be an object"
                             (Some "timeouts"));
  _ ←r throwIf (definedAndNot (λ t, num_leb t zero) (getOpt timeouts "pageLoad"))
         (newValidationError "Page load timeout must be a positive number"
                             (Some "timeouts.pageLoad"));
  throwIf (definedAndNot (λ t, num_ltb t zero) (getOpt timeouts "imageRender"))
    (newValidationError "Image render timeout must be a non-negative number"
                        (Some "timeouts.imageRender")).

Definition validateOutput (output : option JsValue) : Result unit :=
  _ ←r throwIf (notObject output)
         (newValidationError "Output configuration must be an object"
                             (Some "output"));
  throwIf (truthyNonString (getOpt output "filename"))
    (newValidationError "Output filename must be a string"
                        (Some "output.filename")).

(** [if (config.k) validator(config.k)]. *)
Definition whenPresent (config : option JsValue) (k : string)
           (validator : option JsValue → Result unit) : Result unit :=
  if truthy (getOpt config k) then validator (getOpt config k) else Ok tt.

Definition validateConfig (config : option JsValue) : Result unit :=
  _ ←r throwIf (notObject config)
         (newValidationError "Configuration must be an object" None);
  _ ←r whenPresent config "pdf" validatePDFConfig;
  _ ←r whenPresent config "viewport" validateViewport;
  _ ←r whenPresent config "timeouts" validateTimeouts;
  whenPresent config "output" validateOutput.

(** [merged.k = { ...merged.k, ...userConfig.k }] when [userConfig.k]
    is truthy. *)
Definition mergeSection (userConfig : JsValue) (k : string)
           (merged : gmap string JsValue) : gmap string JsValue :=
  if truthy (getProp userConfig k)
  then <[k := JObj (spread (merged !! k) (getProp userConfig k))]> merged
  else merged.

(** [mergeWithDefaults(userConfig, defaultConfig)].  [defaultConfig] is
    the object whose own properties are given; reading a property of a
    [null] user configuration is the TypeError JavaScript raises. *)
Definition mergeWithDefaults (userConfig : JsValue)
           (defaultConfig : gmap string JsValue) : Result JsValue :=
  match userConfig with
  | JNull => Throw (Err TypeError "Cannot read properties of null (reading 'pdf')"
                        None None)
  | _ =>
    let merged : gmap string JsValue := deepClone <$> defaultConfig in
    let merged :=
      if truthy (getProp userConfig "pdf") then
        let pdf := spread (merged !! "pdf") (getProp userConfig "pdf") in
        let pdf :=
          if truthy (getOpt (getProp userConfig "pdf") "margin") then
            <["margin" := JObj (spread (pdf !! "margin")
                                  (getOpt (getProp userConfig "pdf") "margin"))]> pdf
          else pdf in
        <["pdf" := JObj pdf]> merged
      else merged in
    let merged := mergeSection userConfig "viewport" merged in
    let merged := mergeSection userConfig "timeouts" merged in
    let merged := mergeSection userConfig "output" merged in
    Ok (JObj merged)
  end.

(* ================================================================== *)
(** * 6. Configuration manager (src/config/PDFConfig.js)                *)
(* ================================================================== *)

(** What the loader asks of Node: the file system and [JSON.parse],
    whose only failure is a SyntaxError (carried here by its message). *)
Record Host := {
  existsSync : string → bool;
  readFileSync : string → Result string;
  JSON_parse : string → string + JsValue
}.

Definition getDefaultConfig : JsValue := deepClone (JObj DEFAULT_CONFIG).

Definition fallbackWarning (configPath : string) : string :=
  LOG_MESSAGES.WARNING_CONFIG +:+ " " +:+ configPath +:+ ", "
    +:+ LOG_MESSAGES.WARNING_FALLBACK.

(** The [catch (error)] block of [loadConfig]. *)
Definition loadConfig_catch (lg : Logger) (configPath : string) (error : JsError)
  : Result JsValue * list ConsoleCall :=
  if instanceof error ConfigurationError then (Throw error, [])
  else if instanceof error SyntaxError then
    (Throw (newConfigurationError
              ("Invalid JSON in configuration file: " +:+ errMessage error)
              (Some error)), [])
  else (Ok getDefaultConfig, logger_warn lg (fallbackWarning configPath) None).

(** [PDFConfig.loadConfig()]: the value returned or the error thrown,
    with the console calls made on the way. *)
Definition loadConfig (h : Host) (lg : Logger) (configPath : string)
  : Result JsValue * list ConsoleCall :=
  if negb (existsSync h configPath) then
    (Ok getDefaultConfig, logger_warn lg (fallbackWarning configPath) None)
  else
    match readFileSync h configPath with
    | Throw e => loadConfig_catch lg configPath e
    | Ok configData =>
      match JSON_parse h configData with
      | inl msg => loadConfig_catch lg configPath (Err SyntaxError msg None None)
      | inr userConfig =>
        match validateConfig (Some userConfig) with
        | Throw validationError =>
            loadConfig_catch lg configPath
              (newConfigurationError
                 (ERROR_MESSAGES.CONFIG_INVALID +:+ ": " +:+ errMessage validationError)
                 (Some validationError))
        | Ok _ =>
          match mergeWithDefaults userConfig DEFAULT_CONFIG with
          | Throw e => loadConfig_catch lg configPath e
          | Ok mergedConfig =>
              (Ok mergedConfig,
               logger_debug lg "Configuration loaded successfully"
                 (Some (JObj {[ "path" := JStr configPath ]})))
          end
        end
      end
    end.

(** [getPDFOptions()]: [this.config.pdf]. *)
Definition getPDFOptions (config : JsValue) : option JsValue := getProp config "pdf".

(** The legacy loader embedded in the single-file converter: any failure
    to read or parse is answered with hard-coded lower-case defaults. *)
Module Legacy.
Definition getDefaultConfig : JsValue := JObj (obj [
    ("pdf", JObj (obj [
       ("format", JStr "A4");
       ("scale", dec 95 100);
       ("printBackground", JBool true);
       ("preferCSSPageSize", JBool false);
       ("displayHeaderFooter", JBool false);
       ("omitBackground", JBool false);
       ("margin", JObj (obj [
          ("top", JStr "15mm");
          ("bottom", JStr "15mm");
          ("left", JStr "10mm");
          ("right", JStr "10mm") ])) ]));
    ("viewport", JObj (obj [
       ("width", int 1200);
       ("height", int 1600);
       ("deviceScaleFactor", int 2) ]));
    ("timeouts", JObj (obj [
       ("pageLoad", int 30000);
       ("imageRender", int 1000) ]));
    ("output", JObj (obj [
       ("filename", JStr "CV.pdf") ])) ]).

Definition loadConfig (h : Host) (configPath : string) : JsValue * list string :=
    match readFileSync h configPath with
    | Ok configData =>
      match JSON_parse h configData with
      | inr parsed => (parsed, [])
      | inl _ =>
          (getDefaultConfig,
           ["Warning: Could not load config from " +:+ configPath +:+ ", using defaults"])
      end
    | Throw _ =>
        (getDefaultConfig,
         ["Warning: Could not load config from " +:+ configPath +:+ ", using defaults"])
    end.
End Legacy.

(* ================================================================== *)
(** * 7. Strings: [includes], [split]                                   *)
(* ================================================================== *)

(** [s.startsWith(p)]. *)
Fixpoint startsWith (p s : string) : bool :=
  match p, s with
  | EmptyString, _ => true
  | String a p', String b s' => Ascii.eqb a b && startsWith p' s'
  | String _ _, EmptyString => false
  end.

(** [s.includes(sub)]. *)
Fixpoint includes (sub s : string) : bool :=
  startsWith sub s ||
  match s with
  | EmptyString => false
  | String _ s' => includes sub s'
  end.

Fixpoint dropS (n : nat) (s : string) : string :=
  match n, s with
  | S n', String _ s' => dropS n' s'
  | _, _ => s
  end.

(** The text before and after the leftmost occurrence of [sep]. *)
Fixpoint cut (sep s : string) : option (string * string) :=
  if startsWith sep s then Some (EmptyString, dropS (String.length sep) s)
  else match s with
       | EmptyString => None
       | String c s' => (λ ab, (String c ab.1, ab.2)) <$> cut sep s'
       end.

Fixpoint splitN (fuel : nat) (sep s : string) : list string :=
  match fuel with
  | O => [s]
  | S fuel' =>
      match cut sep s with
      | None => [s]
      | Some (a, rest) => a :: splitN fuel' sep rest
      end
  end.

(** [s.split(sep)] for a non-empty separator: every cut consumes at
    least one character, so [length s] cuts are enough. *)
Definition split (sep s : string) : list string :=
  splitN (String.length s) sep s.

(** A template-literal hole: [undefined] prints as "undefined". *)
Definition interpolate (v : option string) : string :=
  default "undefined" v.

(** The CSS property name of a [style] member: [backgroundColor] is
    [background-color]. *)
Definition lowerOf (c : Ascii.ascii) : Ascii.ascii :=
  let n := Ascii.nat_of_ascii c in
  if (65 <=? n)%nat && (n <=? 90)%nat then Ascii.ascii_of_nat (n + 32) else c.

Definition isUpper (c : Ascii.ascii) : bool :=
  let n := Ascii.nat_of_ascii c in (65 <=? n)%nat && (n <=? 90)%nat.

Fixpoint cssName (member : string) : string :=
  match member with
  | EmptyString => EmptyString
  | String c s =>
      if isUpper c then String (Ascii.ascii_of_nat 45) (String (lowerOf c) (cssName s))
      else String c (cssName s)
  end.

(* ================================================================== *)
(** * 8. The page: a table of DOM nodes                                 *)
(* ================================================================== *)

(** What the browser holds as the text of a [style] attribute: the
    text the markup gave it, as long as no assignment to [el.style] has
    changed the declarations parsed from it, or, from the first
    assignment that changes them, the text the browser writes anew from
    the declarations. *)
Inductive StyleAttr :=
| AsLoaded (text : string)
| Serialised.

(** The part of the browser the scripts rely on and the sources do not
    define.
    - [cssTextHas st sub]: whether the text the browser serialises the
      declarations [st] to contains [sub];
    - [unchangedBy text member value]: whether [el.style.member = value]
      leaves the declarations parsed from [text] as they are, in which
      case the attribute is not written anew;
    - [resolveURL s]: the address [s] parsed against the document, as
      the [src] property of an image gives it (host in lower case, dot
      segments removed, path percent-encoded). *)
Record Browser := {
  cssTextHas : gmap string string → string → bool;
  unchangedBy : string → string → string → bool;
  resolveURL : string → string
}.

(** A node of the rendered page.  Nodes are listed in document order
    and refer to their parent by position.  [tag] is the lower-case
    element name, or "#text" for a text node whose data is [text].
    [style] holds the inline declarations under the names the
    [style] object gives them and [styleAttr] the text of the [style]
    attribute; [src] is the text of the [src] attribute, empty when
    the element has none; [agent] is the browser the element lives
    in, which no write changes. *)
Record Node := {
  tag : string;
  parent : option nat;
  text : string;
  classList : list string;
  style : gmap string string;
  styleAttr : StyleAttr;
  src : string;
  agent : Browser
}.

Definition Doc := list Node.

(** The attribute after [el.style.member = value]. *)
Definition afterAssignment (b : Browser) (member value : string) (a : StyleAttr)
  : StyleAttr :=
  match a with
  | AsLoaded s => if unchangedBy b s member value then AsLoaded s else Serialised
  | Serialised => Serialised
  end.

(** [el.style.member = value] on a node. *)
Definition assign (member value : string) (n : Node) : Node :=
  {| tag := tag n; parent := parent n; text := text n;
     classList := classList n; style := <[member := value]> (style n);
     styleAttr := afterAssignment (agent n) member value (styleAttr n);
     src := src n; agent := agent n |}.
Definition withClasses (cl : list string) (n : Node) : Node :=
  {| tag := tag n; parent := parent n; text := text n;
     classList := cl; style := style n; styleAttr := styleAttr n;
     src := src n; agent := agent n |}.
Definition withSrc (s : string) (n : Node) : Node :=
  {| tag := tag n; parent := parent n; text := text n;
     classList := classList n; style := style n; styleAttr := styleAttr n;
     src := s; agent := agent n |}.

(** ** Reading the page *)

Definition tagOf (d : Doc) (i : nat) : string := from_option tag "" (d !! i).
Definition parentOf (d : Doc) (i : nat) : option nat := d !! i ≫= parent.
Definition textOf (d : Doc) (i : nat) : string := from_option text "" (d !! i).
Definition classesOf (d : Doc) (i : nat) : list string :=
  from_option classList [] (d !! i).
Definition styleOf (d : Doc) (i : nat) : gmap string string :=
  from_option style ∅ (d !! i).
Definition srcOf (d : Doc) (i : nat) : string := from_option src "" (d !! i).

(** [img.src]: the address the browser has parsed from the attribute,
    the empty string when there is no attribute. *)
Definition resolvedSrc (d : Doc) (i : nat) : string :=
  match d !! i with
  | Some n => if String.eqb (src n) "" then "" else resolveURL (agent n) (src n)
  | None => ""
  end.

Definition isElementAt (d : Doc) (i : nat) : bool :=
  match d !! i with
  | Some n => negb (String.eqb (tag n) "#text")
  | None => false
  end.
Definition isTextAt (d : Doc) (i : nat) : bool :=
  match d !! i with
  | Some n => String.eqb (tag n) "#text"
  | None => false
  end.

(** [el.tagName === T] (the table keeps names in lower case). *)
Definition tagIs (d : Doc) (i : nat) (t : string) : bool :=
  isElementAt d i && String.eqb (tagOf d i) t.

(** [el.classList.contains(c)]. *)
Definition hasClass (d : Doc) (i : nat) (c : string) : bool :=
  bool_decide (c ∈ classesOf d i).

(** [el.style.member]. *)
Definition styleGet (d : Doc) (i : nat) (member : string) : option string :=
  styleOf d i !! member.

(** Whether the name or the value of a declaration contains [sub]. *)
Definition declHas (sub : string) (kv : string * string) : bool :=
  includes sub (cssName kv.1) || includes sub kv.2.
Definition styleHas (sub : string) (st : gmap string string) : bool :=
  existsb (declHas sub) (map_to_list st).

(** Whether the text of the [style] attribute contains [sub], as
    [[style*="sub"]] and [getAttribute('style').includes(sub)] ask: on
    the text as loaded, or on the text the browser has serialised. *)
Definition attrHas (sub : string) (n : Node) : bool :=
  match styleAttr n with
  | AsLoaded s => includes sub s
  | Serialised => cssTextHas (agent n) (style n) sub
  end.
Definition styleAttrHas (d : Doc) (i : nat) (sub : string) : bool :=
  from_option (attrHas sub) false (d !! i).

Fixpoint ancestorsN (fuel : nat) (d : Doc) (i : nat) : list nat :=
  match fuel with
  | O => []
  | S fuel' =>
      match parentOf d i with
      | None => []
      | Some p => p :: ancestorsN fuel' d p
      end
  end.

(** Proper ancestors of node [i], nearest first. *)
Definition ancestors (d : Doc) (i : nat) : list nat := ancestorsN (length d) d i.

Definition isDescendantOf (d : Doc) (root i : nat) : bool :=
  bool_decide (root ∈ ancestors d i).

(** [:first-child]: no element sibling comes earlier. *)
Definition isFirstChild (d : Doc) (i : nat) : bool :=
  negb (existsb (λ j, isElementAt d j && bool_decide (parentOf d j = parentOf d i))
                (seq 0 i)).

(** The selectors the script uses. *)
Inductive Selector :=
| SelTag (t : string)                       (* [t] *)
| SelClass (c : string)                     (* [.c] *)
| SelDesc (anc s : Selector)                (* [anc s] *)
| SelOr (s1 s2 : Selector)                  (* [s1, s2] *)
| SelStyleHas (s : Selector) (sub : string) (* [s[style*="sub"]] *)
| SelFirstChild (s : Selector).             (* [s:first-child] *)

Fixpoint matches (d : Doc) (sel : Selector) (i : nat) : bool :=
  isElementAt d i &&
  match sel with
  | SelTag t => String.eqb (tagOf d i) t
  | SelClass c => hasClass d i c
  | SelDesc anc s => matches d s i && existsb (matches d anc) (ancestors d i)
  | SelOr s1 s2 => matches d s1 i || matches d s2 i
  | SelStyleHas s sub => matches d s i && styleAttrHas d i sub
  | SelFirstChild s => matches d s i && isFirstChild d i
  end.

Definition positions (d : Doc) : list nat := seq 0 (length d).

(** [document.querySelectorAll(sel)], in document order. *)
Definition querySelectorAll (sel : Selector) (d : Doc) : list nat :=
  filter (λ i, matches d sel i = true) (positions d).

(** [document.querySelector(sel)]. *)
Definition querySelector (sel : Selector) (d : Doc) : option nat :=
  head (querySelectorAll sel d).

(** [root.querySelectorAll(sel)]: matches among the descendants. *)
Definition querySelectorAllIn (root : nat) (sel : Selector) (d : Doc) : list nat :=
  filter (λ i, isDescendantOf d root i && matches d sel i = true) (positions d).

(** [root.querySelector(sel)]. *)
Definition querySelectorIn (root : nat) (sel : Selector) (d : Doc) : option nat :=
  head (querySelectorAllIn root sel d).

(** [el.closest(t)] is not null. *)
Definition hasClosest (d : Doc) (i : nat) (t : string) : bool :=
  existsb (λ a, tagIs d a t) (i :: ancestors d i).

(** [el.parentElement]. *)
Definition parentElement (i : nat) (d : Doc) : option nat :=
  p ← parentOf d i; if isElementAt d p then Some p else None.

(** The chain [el.nextElementSibling], [.nextElementSibling], ... *)
Definition siblingsAfter (i : nat) (d : Doc) : list nat :=
  filter (λ j, (i <? j)%nat && isElementAt d j
                 && bool_decide (parentOf d j = parentOf d i) = true)
         (positions d).

(** [el.textContent]: the text of the descendant text nodes. *)
Definition textContent (d : Doc) (i : nat) : string :=
  foldr String.append ""
        (textOf d <$> filter (λ j, isTextAt d j && isDescendantOf d i j = true)
                              (positions d)).

(** [document.body]. *)
Definition documentBody (d : Doc) : option nat :=
  querySelector (SelTag "body") d.

(** ** Writing to the page *)

Inductive Write :=
| SetStyle (i : nat) (member value : string)   (* [el.style.member = value] *)
| AddClass (i : nat) (c : string)              (* [el.classList.add(c)] *)
| SetSrc (i : nat) (s : string).               (* [img.src = s] *)

Definition addToken (c : string) (cl : list string) : list string :=
  if bool_decide (c ∈ cl) then cl else cl ++ [c].

Definition applyWrite (d : Doc) (w : Write) : Doc :=
  match w with
  | SetStyle i k v => alter (assign k v) i d
  | AddClass i c => alter (λ n, withClasses (addToken c (classList n)) n) i d
  | SetSrc i s => alter (withSrc s) i d
  end.

Definition run (ws : list Write) (d : Doc) : Doc := foldl applyWrite d ws.

(* ================================================================== *)
(** * 9. In-page scripts                                                *)
(* ================================================================== *)

(** A script reads the current page and performs writes on it.  It is
    given the page as it stands and answers with its result (or the
    exception it throws) and the writes it has made, in order; the page
    after the script is the page before it with those writes applied. *)
Definition Script (A : Type) : Type := Doc → Result A * list Write.

Definition ret {A} (a : A) : Script A := λ _, (Ok a, []).

Definition bind {A B} (m : Script A) (k : A → Script B) : Script B :=
  λ d, match m d with
       | (Ok a, l1) => let '(r, l2) := k a (run l1 d) in (r, (l1 ++ l2)%list)
       | (Throw e, l1) => (Throw e, l1)
       end.

Definition query {A} (q : Doc → A) : Script A := λ d, (Ok (q d), []).
Definition write (w : Write) : Script unit := λ _, (Ok tt, [w]).
Definition throw {A} (e : JsError) : Script A := λ _, (Throw e, []).

Declare Scope script_scope.
Delimit Scope script_scope with script.
Bind Scope script_scope with Script.
Notation "x ← y ; z" := (bind y (λ x, z))
  (at level 20, y at level 100, z at level 200) : script_scope.
Notation "y ;; z" := (bind y (λ _, z))
  (at level 100, z at level 200, right associativity) : script_scope.

(** [list.forEach(body)]. *)
Fixpoint forEach {A} (l : list A) (body : A → Script unit) : Script unit :=
  match l with
  | [] => ret tt
  | x :: l' => (body x ;; forEach l' body)%script
  end.

Definition when (b : bool) (m : Script unit) : Script unit :=
  if b then m else ret tt.

(** [if (x) { body(x) }] for a possibly-null element. *)
Definition whenSome {A} (o : option A) (body : A → Script unit) : Script unit :=
  match o with Some x => body x | None => ret tt end.

Definition setStyle (i : nat) (member value : string) : Script unit :=
  write (SetStyle i member value).

Definition setStyles (i : nat) (decls : list (string * string)) : Script unit :=
  forEach decls (λ kv, setStyle i kv.1 kv.2).

(** [document.querySelectorAll(sel).forEach(el => { el.style... })]. *)
Definition styleAll (sel : Selector) (decls : list (string * string)) : Script unit :=
  (els ← query (querySelectorAll sel);
   forEach els (λ el, setStyles el decls))%script.

(** [page.evaluate(script)]: the outcome and the page it leaves. *)
Definition evaluate {A} (script : Script A) (d : Doc) : Result A * Doc :=
  let '(r, ws) := script d in (r, run ws d).

(** [document.body] used as a receiver: a page without body makes the
    member access throw. *)
Definition theBody : Script nat :=
  (b ← query documentBody;
   match b with
   | Some i => ret i
   | None => throw (Err TypeError "Cannot read properties of null (reading 'style')"
                        None None)
   end)%script.

(* ------------------------------------------------------------------ *)
(** ** The transformation script of [applyOptimizations]               *)
(* ------------------------------------------------------------------ *)

Definition HOSTED_ASSETS := "arnauudg.github.io/assets/".

(** The callback of the rewrite: an image whose [src] property, the
    parsed address, contains the hosted-assets prefix gets the path
    relative to the document. *)
Definition rewriteImage (img : nat) : Script unit :=
  (s ← query (λ d, resolvedSrc d img);
   when (negb (String.eqb s "") && includes HOSTED_ASSETS s)
     (let filename := split "/assets/" s !! 1%nat in
      write (SetSrc img ("assets/" +:+ interpolate filename))))%script.

(** Convert absolute GitHub Pages URLs to relative paths. *)
Definition rewriteImageSources : Script unit :=
  (allImages ← query (querySelectorAll (SelTag "img"));
   forEach allImages rewriteImage)%script.

(** Change background to white for PDF. *)
Definition whiteBackground : Script unit :=
  (body ← theBody;
   setStyle body "backgroundColor" "#ffffff";;
   container ← query (querySelector (SelClass "container"));
   whenSome container (λ c,
     setStyle c "backgroundColor" "#ffffff";;
     setStyle c "border" "none"))%script.

(** Style section titles - dark colors for readability. *)
Definition styleSectionTitles : Script unit :=
  styleAll (SelClass "section-title")
    [("color", "#000000"); ("borderBottom", "3px solid #0066cc");
     ("paddingBottom", "10px"); ("marginBottom", "20px")].

(** Style headers - black for readability. *)
Definition styleHeadings : Script unit :=
  (styleAll (SelOr (SelDesc (SelTag "header") (SelTag "h1")) (SelTag "h1"))
     [("color", "#000000")];;
   styleAll (SelTag "h4") [("color", "#000000")];;
   styleAll (SelTag "h5") [("color", "#333333")])%script.

(** Change body text to dark color. *)
Definition bodyTextColor : Script unit :=
  (body ← theBody; setStyle body "color" "#000000")%script.

(** Lead text, paragraphs outside the header, strong, em, small text
    and list items. *)
Definition textColors : Script unit :=
  (styleAll (SelClass "lead") [("color", "#333333")];;
   paragraphs ← query (querySelectorAll (SelTag "p"));
   forEach paragraphs (λ p,
     inHeader ← query (λ d, hasClosest d p "header");
     when (negb inHeader) (setStyle p "color" "#000000"));;
   styleAll (SelTag "strong") [("color", "#000000")];;
   styleAll (SelTag "em") [("color", "#333333")];;
   styleAll (SelTag "small") [("color", "#555555")];;
   styleAll (SelTag "li") [("color", "#000000")])%script.

(** [sectionTitle && sectionTitle.textContent.includes('Technical Skills')]
    for [sectionTitle = section.querySelector('.section-title')]. *)
Definition isSkillsSection (section : nat) (d : Doc) : bool :=
  match querySelectorIn section (SelClass "section-title") d with
  | Some title => includes "Technical Skills" (textContent d title)
  | None => false
  end.

(** Style all paragraphs in skills section for better PDF readability. *)
Definition skillsParagraphs : Script unit :=
  (skillsSections ← query (querySelectorAll (SelTag "section"));
   forEach skillsSections (λ section,
     isSkills ← query (isSkillsSection section);
     when isSkills
       (paragraphs ← query (querySelectorAllIn section (SelTag "p"));
        forEach paragraphs (λ p,
          setStyles p [("color", "#000000"); ("marginBottom", "4px");
                       ("lineHeight", "1.5")]);;
        strongTags ← query (querySelectorAllIn section (SelTag "strong"));
        forEach strongTags (λ strong, setStyle strong "color" "#000000"))))%script.

(** Change skill category text (old format). *)
Definition skillCategories : Script unit :=
  styleAll (SelClass "collapsible-skill-category") [("color", "#000000")].

Definition isSubCategoryLabel (t : string) : bool :=
  includes ":" t || includes "AWS" t || includes "Azure" t || includes "Collibra" t.

(** Style skills section paragraphs and divs (new format). *)
Definition skillsSection : Script unit :=
  (allSectionsForSkills ← query (querySelectorAll (SelTag "section"));
   forEach allSectionsForSkills (λ section,
     isSkills ← query (isSkillsSection section);
     when isSkills
       (paragraphs ← query (querySelectorAllIn section (SelTag "p"));
        forEach paragraphs (λ p,
          setStyles p [("color", "#000000"); ("lineHeight", "1.6")]);;
        skillDivs ← query (querySelectorAllIn section
                             (SelStyleHas (SelTag "div") "line-height"));
        forEach skillDivs (λ div,
          setStyle div "color" "#000000";;
          innerDivs ← query (querySelectorAllIn div (SelTag "div"));
          forEach innerDivs (λ innerDiv,
            setStyle innerDiv "color" "#000000";;
            spans ← query (querySelectorAllIn innerDiv (SelTag "span"));
            forEach spans (λ span, setStyle span "color" "#000000");;
            strongTags ← query (querySelectorAllIn innerDiv (SelTag "strong"));
            forEach strongTags (λ strong,
              isInlineBlock ← query (λ d, bool_decide
                                 (styleGet d strong "display" = Some "inline-block"));
              when isInlineBlock (setStyle strong "color" "#0066cc"))));;
        strongTags ← query (querySelectorAllIn section (SelTag "strong"));
        forEach strongTags (λ strong,
          label ← query (λ d, textContent d strong);
          when (isSubCategoryLabel label)
            (setStyle strong "color" "#0066cc")))))%script.

(** The callback on a coloured span: [style && style.includes('color')]
    is checked once more before the colour is set. *)
Definition blackenSpan (span : nat) : Script unit :=
  (hasColor ← query (λ d, styleAttrHas d span "color");
   when hasColor (setStyle span "color" "#000000"))%script.

Definition COLORED_SPAN : Selector := SelStyleHas (SelTag "span") "color".

(** Change inline spans with colors. *)
Definition coloredSpans : Script unit :=
  (spans ← query (querySelectorAll COLORED_SPAN);
   forEach spans blackenSpan)%script.

(** Style profile image. *)
Definition profileImage : Script unit :=
  (image ← query (querySelector (SelClass "profile-image"));
   whenSome image (λ img,
     setStyles img [("width", "15%"); ("height", "15%");
                    ("marginBottom", "20px"); ("borderRadius", "50%")]))%script.

(** Use CSS orphans and widows for better text flow. *)
Definition bodyOrphansWidows : Script unit :=
  (body ← theBody;
   setStyle body "orphans" "3";;
   body ← theBody;
   setStyle body "widows" "3")%script.

(** Prevent breaking section titles from their content. *)
Definition sectionTitleBreaks : Script unit :=
  styleAll (SelClass "section-title")
    [("pageBreakAfter", "avoid"); ("breakAfter", "avoid")].

Definition avoidBreakBefore (el : nat) : Script unit :=
  setStyles el [("pageBreakBefore", "avoid"); ("breakBefore", "avoid")].
Definition avoidBreakAfter (el : nat) : Script unit :=
  setStyles el [("pageBreakAfter", "avoid"); ("breakAfter", "avoid")].

(** Keep first project with company header, and the project header
    with its first content item. *)
Definition keepFirstProject (companyContent : nat) : Script unit :=
  (firstProject ← query (querySelectorIn companyContent (SelFirstChild (SelTag "li")));
   whenSome firstProject (λ fp,
     avoidBreakBefore fp;;
     projectHeader ← query (querySelectorIn fp (SelClass "collapsible-project"));
     whenSome projectHeader (λ ph,
       avoidBreakAfter ph;;
       projectContent ← query (querySelectorIn fp (SelClass "project-content"));
       whenSome projectContent (λ pc,
         firstContentItem ← query (querySelectorIn pc (SelFirstChild (SelTag "li")));
         whenSome firstContentItem avoidBreakBefore))))%script.

(** The [while (next)] walk over the siblings after a company header. *)
Fixpoint companySiblings (siblings : list nat) : Script unit :=
  match siblings with
  | [] => ret tt
  | next :: rest =>
      (isDate ← query (λ d, tagIs d next "p"
                             && bool_decide (is_Some (querySelectorIn next (SelTag "em") d)));
       when isDate
         (setStyles next [("pageBreakAfter", "avoid"); ("breakAfter", "avoid");
                          ("marginBottom", "5px")]);;
       isContent ← query (λ d, hasClass d next "company-content");
       if isContent then keepFirstProject next
       else companySiblings rest)%script
  end.

(** For company entries: keep header, date, and first project together. *)
Definition companyHeaders : Script unit :=
  (headers ← query (querySelectorAll (SelClass "collapsible-company"));
   forEach headers (λ header,
     avoidBreakAfter header;;
     siblings ← query (siblingsAfter header);
     companySiblings siblings))%script.

(** The [while (next)] walk over the siblings after a project header. *)
Fixpoint projectSiblings (siblings : list nat) : Script unit :=
  match siblings with
  | [] => ret tt
  | next :: rest =>
      (isContent ← query (λ d, hasClass d next "project-content");
       if isContent then
         (setStyles next [("pageBreakInside", "avoid"); ("breakInside", "avoid")];;
          firstItem ← query (querySelectorIn next (SelFirstChild (SelTag "li")));
          whenSome firstItem avoidBreakBefore)
       else projectSiblings rest)%script
  end.

(** For project entries: keep entire project together. *)
Definition projectHeaders : Script unit :=
  (headers ← query (querySelectorAll (SelClass "collapsible-project"));
   forEach headers (λ header,
     avoidBreakAfter header;;
     siblings ← query (siblingsAfter header);
     projectSiblings siblings))%script.

(** List items: prevent orphans but allow breaking long items. *)
Definition listItemBreaks : Script unit :=
  (listItems ← query (querySelectorAll (SelTag "li"));
   forEach listItems (λ li,
     isProjectItem ← query (querySelectorIn li (SelClass "collapsible-project"));
     match isProjectItem with
     | Some _ =>
         setStyles li [("pageBreakInside", "avoid"); ("breakInside", "avoid")]
     | None =>
         setStyles li [("pageBreakInside", "auto"); ("orphans", "3"); ("widows", "3")]
     end))%script.

(** Sections: allow breaking but prefer not to break small sections. *)
Definition sectionBreaks : Script unit :=
  styleAll (SelTag "section")
    [("pageBreakInside", "auto"); ("orphans", "4"); ("widows", "4")].

Definition COLLAPSIBLE : Selector :=
  SelOr (SelClass "section-content")
    (SelOr (SelClass "company-content")
       (SelOr (SelClass "project-content") (SelClass "skill-content"))).

(** Expand collapsible content. *)
Definition expandCollapsible : Script unit :=
  (collapsibleContents ← query (querySelectorAll COLLAPSIBLE);
   forEach collapsibleContents (λ content,
     setStyle content "maxHeight" "none";;
     setStyle content "opacity" "1";;
     write (AddClass content "expanded")))%script.

(** Hide footer. *)
Definition hideFooter : Script unit :=
  (footer ← query (querySelector (SelClass "footer"));
   whenSome footer (λ f, setStyle f "display" "none"))%script.

(** Hide PDF download button, and the paragraph that contains it. *)
Definition hideDownloadButton : Script unit :=
  (downloadButton ← query (querySelector (SelClass "btn-download-pdf"));
   whenSome downloadButton (λ btn,
     setStyle btn "display" "none";;
     par ← query (parentElement btn);
     whenSome par (λ p,
       isP ← query (λ d, tagIs d p "p");
       when isP (setStyle p "display" "none"))))%script.

(** Optimize links - darker blue for PDF. *)
Definition optimizeLinks : Script unit :=
  styleAll (SelTag "a") [("color", "#0066cc")].

(** Change header border if exists. *)
Definition headerBorder : Script unit :=
  (header ← query (querySelector (SelTag "header"));
   whenSome header (λ h, setStyle h "borderBottomColor" "#000000"))%script.

(** Optimize images. *)
Definition optimizeImages : Script unit :=
  styleAll (SelTag "img") [("maxWidth", "100%"); ("height", "auto")].

(** Everything the script does before it looks for coloured spans. *)
Definition printPalette : Script unit :=
  (whiteBackground;; styleSectionTitles;; styleHeadings;; bodyTextColor;;
   textColors;; skillsParagraphs;; skillCategories;; skillsSection)%script.

(** Everything it does after. *)
Definition printLayout : Script unit :=
  (profileImage;; bodyOrphansWidows;; sectionTitleBreaks;; companyHeaders;;
   projectHeaders;; listItemBreaks;; sectionBreaks;; expandCollapsible;;
   hideFooter;; hideDownloadButton;; optimizeLinks;; headerBorder;;
   optimizeImages)%script.

(** All the styling that follows the rewrite of the image sources. *)
Definition printStyling : Script unit :=
  (printPalette;; coloredSpans;; printLayout)%script.

(** The function passed to [page.evaluate] by [applyOptimizations]. *)
Definition optimizations : Script unit :=
  (rewriteImageSources;; printStyling)%script.

(* ------------------------------------------------------------------ *)
(** ** Pages written as markup                                         *)
(* ------------------------------------------------------------------ *)

(** The text of a [style] attribute that lists the declarations
    [css]. *)
Fixpoint declarations (css : list (string * string)) : string :=
  match css with
  | [] => ""
  | kv :: rest => cssName kv.1 +:+ ": " +:+ kv.2 +:+ "; " +:+ declarations rest
  end.

(** The browser of the example pages.  It serialises a declaration
    under its name with the value as assigned, writes the attribute
    anew at every assignment, and shows the file
    [file:///home/cv/index.html]: an address with a scheme is taken as
    it stands (those of the examples are in the form the URL parser
    gives them), any other is a path next to the file. *)
Definition plainBrowser : Browser :=
  {| cssTextHas := λ st sub, styleHas sub st;
     unchangedBy := λ _ _ _, false;
     resolveURL := λ s,
       if startsWith "https://" s || startsWith "http://" s || startsWith "file://" s
       then s else "file:///home/cv/" +:+ s |}.

(** An element with its classes, inline style and image reference, or
    a run of text. *)
Inductive Html :=
| El (t : string) (classes : list string) (css : list (string * string))
     (source : string) (children : list Html)
| Tx (data : string).

(** The node table of a tree whose root gets position [start], as
    [plainBrowser] holds it once the markup is loaded. *)
Fixpoint tableAt (par : option nat) (start : nat) (h : Html) : list Node :=
  match h with
  | Tx s =>
      [ {| tag := "#text"; parent := par; text := s; classList := [];
           style := ∅; styleAttr := AsLoaded ""; src := "";
           agent := plainBrowser |} ]
  | El t cl st sr ch =>
      {| tag := t; parent := par; text := ""; classList := cl;
         style := list_to_map st; styleAttr := AsLoaded (declarations st);
         src := sr; agent := plainBrowser |}
      :: (fix children (at_ : nat) (l : list Html) : list Node :=
            match l with
            | [] => []
            | c :: l' =>
                let rows := tableAt (Some start) at_ c in
                (rows ++ children (at_ + length rows)%nat l')%list
            end) (S start) ch
  end.

Definition page (h : Html) : Doc := tableAt None 0 h.

(* ================================================================== *)
(** * 10. The render session ([PDFGenerator]) and [convertToPDF]        *)
(* ================================================================== *)

Record Timeouts := { pageLoad : N; imageRender : N }.

(** What the generator asks of its configuration object.  [getTimeouts]
    is [None] when the settings have no [timeouts] section, [pdfOptions]
    is what [getPDFOptions()] returns, the [pdf] section if any, and
    [getOutputPath] throws when they have no [output] section. *)
Record ConfigView := {
  getViewportOptions : option JsValue;
  getTimeouts : option Timeouts;
  pdfOptions : option JsValue;
  getOutputPath : Result string
}.

(** The world outside the converter: how each browser or file-system
    call of one run turns out.  [document] is the page the HTML file
    parses to; [imagesReadyAt] is the time in milliseconds, counted from
    the start of the image wait, from which every image reports
    [complete] or a natural width ([None]: never); [close n] is the
    outcome of the call number [n] of [browser.close()]. *)
Record World := {
  launch : Result unit;
  newPage : Result unit;
  setViewport : Result unit;
  htmlExists : bool;
  goto : Result unit;
  readHtml : Result unit;
  setContent : Result unit;
  document : Doc;
  evaluateImages : Result unit;
  imagesReadyAt : option N;
  waitForTimeout : Result unit;
  waitForTimeoutAgain : Result unit;
  evaluateScript : Result unit;
  pdf : Result unit;
  close : nat → Result unit
}.

Inductive Message :=
| MsgStart | MsgBrowserInitialized | MsgContentLoaded | MsgOptimizationsApplied
| MsgPdfGenerated (path : string) | MsgCompleted
| MsgError (errorMessage : string)
| MsgFileUrlFailed | MsgImagesMayNotHaveLoaded.

Inductive Call :=
| CLaunch | CNewPage | CSetViewport
| CGoto (timeout : N) | CReadHtml | CSetContent (timeout : N)
| CEvaluate
| CWaitForFunction (timeout : N)
| CSetTimeout (ms : N)
| CWaitForTimeout (ms : N)
| CPdf (options : gmap string JsValue)
| CClose.

Inductive Event :=
| EConsole (m : ConsoleMethod) (msg : Message)
| ECall (c : Call)
| EAwaited (ms : N)        (* time spent in an [await] on a timer or race *)
| ECleanup                 (* [generator.cleanup()] entered *)
| EExit (code : nat).      (* [process.exit(code)] *)

Global Instance ConsoleMethod_eq_dec : EqDecision ConsoleMethod.
Proof. solve_decision. Defined.
Global Instance Message_eq_dec : EqDecision Message.
Proof. solve_decision. Defined.
Global Instance Event_cleanup_dec (e : Event) : Decision (e = ECleanup).
Proof. destruct e; first [by left | by right]. Defined.

(** The fields of a [PDFGenerator]: [browser] and [page] are [null]
    until [initialize] sets them; the page holds the live document. *)
Record Generator := {
  browser : bool;
  pageDoc : option Doc;
  closeCalls : nat
}.

Definition newGenerator : Generator :=
  {| browser := false; pageDoc := None; closeCalls := 0 |}.

(** An asynchronous method: from the generator's fields to its result,
    the fields afterwards and the events of the run, in order. *)
Definition Task (A : Type) : Type := Generator → Result A * Generator * list Event.

Definition tret {A} (a : A) : Task A := λ g, (Ok a, g, []).
Definition tthrow {A} (e : JsError) : Task A := λ g, (Throw e, g, []).

Definition tbind {A B} (m : Task A) (k : A → Task B) : Task B :=
  λ g, match m g with
       | (Ok a, g1, t1) => let '(r, g2, t2) := k a g1 in (r, g2, (t1 ++ t2)%list)
       | (Throw e, g1, t1) => (Throw e, g1, t1)
       end.

(** [try { m } catch (e) { handler(e) }]. *)
Definition tryCatch {A} (m : Task A) (handler : JsError → Task A) : Task A :=
  λ g, match m g with
       | (Ok a, g1, t1) => (Ok a, g1, t1)
       | (Throw e, g1, t1) => let '(r, g2, t2) := handler e g1 in (r, g2, (t1 ++ t2)%list)
       end.

Definition emit (e : Event) : Task unit := λ g, (Ok tt, g, [e]).
Definition getField {A} (f : Generator → A) : Task A := λ g, (Ok (f g), g, []).
Definition setFields (f : Generator → Generator) : Task unit := λ g, (Ok tt, f g, []).
Definition liftResult {A} (r : Result A) : Task A := λ g, (r, g, []).

(** A call into the browser or the file system with the given outcome. *)
Definition call (c : Call) (outcome : Result unit) : Task unit :=
  λ g, (outcome, g, [ECall c]).

Declare Scope task_scope.
Delimit Scope task_scope with task.
Bind Scope task_scope with Task.
Notation "x ← y ; z" := (tbind y (λ x, z))
  (at level 20, y at level 100, z at level 200) : task_scope.
Notation "y ;; z" := (tbind y (λ _, z))
  (at level 100, z at level 200, right associativity) : task_scope.

Definition console (m : ConsoleMethod) (msg : Message) : Task unit :=
  emit (EConsole m msg).

Definition newError (message : string) : JsError := Err PlainError message None None.

Definition nullPage {A} : Task A :=
  tthrow (Err TypeError "Cannot read properties of null" None None).

(** [this.page], which must not be [null] to call a method on it. *)
Definition thePage : Task Doc :=
  (p ← getField pageDoc;
   match p with Some d => tret d | None => nullPage end)%task.

(** [timeouts.member]: a TypeError when the settings define no timeouts. *)
Definition member (timeouts : option Timeouts) (f : Timeouts → N) : Task N :=
  match timeouts with
  | Some t => tret (f t)
  | None => tthrow (Err TypeError "Cannot read properties of undefined" None None)
  end.

(** ** Promises that settle after some time *)

Inductive Settled :=
| Fulfilled (after : N)
| Rejected (after : N) (e : JsError).

Definition settledAfter (s : Settled) : N :=
  match s with Fulfilled t => t | Rejected t _ => t end.

Definition TimeoutError (ms : N) : JsError :=
  Err PlainError ("Waiting failed: " +:+ pretty ms +:+ "ms exceeded") None None.

(** [page.waitForFunction(pred, { timeout })] for a predicate that
    holds from [readyAt] on. *)
Definition waitForFunction (readyAt : option N) (timeout : N) : Settled :=
  match readyAt with
  | Some t => if (t <=? timeout)%N then Fulfilled t
              else Rejected timeout (TimeoutError timeout)
  | None => Rejected timeout (TimeoutError timeout)
  end.

(** [promise.catch(() => null)]. *)
Definition absorb (s : Settled) : Settled :=
  match s with
  | Fulfilled t => Fulfilled t
  | Rejected t _ => Fulfilled t
  end.

(** [new Promise(resolve => setTimeout(resolve, ms))]. *)
Definition timer (ms : N) : Settled := Fulfilled ms.

(** [Promise.race([a, b])]: the one that settles first, [a] on a tie. *)
Definition race (a b : Settled) : Settled :=
  if (settledAfter a <=? settledAfter b)%N then a else b.

(** [await promise]. *)
Definition await (s : Settled) : Task unit :=
  match s with
  | Fulfilled t => emit (EAwaited t)
  | Rejected t e => (emit (EAwaited t);; tthrow e)%task
  end.

(** The fixed ceiling of the image poll. *)
Definition IMAGE_POLL_TIMEOUT : N := 15000.

(** How a run of [convertToPDF] ends. *)
Inductive Outcome :=
| Returned (outputPath : string)   (* the promise resolves *)
| Exited (code : nat)              (* [process.exit(code)] *)
| Unhandled (e : JsError).         (* the promise rejects *)

(** The argument of [page.pdf]: [{ path: outputPath, ...pdfOptions }].
    A [path] among the PDF options replaces the output path. *)
Definition pdfArguments (outputPath : string) (pdfOptions : option JsValue)
  : gmap string JsValue :=
  spread (Some (JObj {[ "path" := JStr outputPath ]})) pdfOptions.

(** ** The methods of [PDFGenerator] *)

Section Generator.

Variable config : ConfigView.
Variable world : World.

(** [initialize()]. *)
Definition initialize : Task unit :=
  tryCatch
    (call CLaunch (launch world);;
     setFields (λ g, {| browser := true; pageDoc := pageDoc g;
                        closeCalls := closeCalls g |});;
     call CNewPage (newPage world);;
     setFields (λ g, {| browser := browser g; pageDoc := Some [];
                        closeCalls := closeCalls g |});;
     call CSetViewport (setViewport world))%task
    (λ error, tthrow (newError ("Failed to initialize browser: " +:+ errMessage error))).

(** Put the parsed HTML file into the page. *)
Definition showDocument : Task unit :=
  setFields (λ g, {| browser := browser g; pageDoc := Some (document world);
                     closeCalls := closeCalls g |}).

(** The wait for images inside [loadContent]. *)
Definition waitForImages (timeouts : option Timeouts) : Task unit :=
  tryCatch
    (d ← thePage;
     call CEvaluate (evaluateImages world);;
     let hasImages := bool_decide (0 < length (querySelectorAll (SelTag "img") d))%nat in
     if hasImages then
       (emit (ECall (CWaitForFunction IMAGE_POLL_TIMEOUT));;
        let poll := absorb (waitForFunction (imagesReadyAt world) IMAGE_POLL_TIMEOUT) in
        ms ← member timeouts imageRender;
        emit (ECall (CSetTimeout ms));;
        await (race poll (timer ms)))
     else
       (ms ← member timeouts imageRender;
        call (CWaitForTimeout ms) (waitForTimeout world);;
        await (timer ms)))%task
    (λ imgError,
       (console console_warn MsgImagesMayNotHaveLoaded;;
        ms ← member timeouts imageRender;
        call (CWaitForTimeout ms) (waitForTimeoutAgain world);;
        await (timer ms))%task).

(** The two load strategies of [loadContent]: navigate to the file
    URL and, when that fails, inject the markup read from the file. *)
Definition navigate (timeouts : option Timeouts) : Task unit :=
  tryCatch
    (_ ← thePage;
     ms ← member timeouts pageLoad;
     call (CGoto ms) (goto world);;
     showDocument)%task
    (λ gotoError,
       (console console_warn MsgFileUrlFailed;;
        call CReadHtml (readHtml world);;
        _ ← thePage;
        ms ← member timeouts pageLoad;
        call (CSetContent ms) (setContent world);;
        showDocument)%task).

(** [loadContent(htmlPath)]. *)
Definition loadContent : Task unit :=
  tryCatch
    (if negb (htmlExists world) then tthrow (newError "HTML file not found")
     else
       let timeouts := getTimeouts config in
       (navigate timeouts;;
        waitForImages timeouts)%task)
    (λ error, tthrow (newError ("Failed to load content: " +:+ errMessage error))).

(** [applyOptimizations()]: the script runs in the page unless the
    call itself fails; an exception of the script rejects the call. *)
Definition applyOptimizations : Task unit :=
  tryCatch
    (d ← thePage;
     call CEvaluate (evaluateScript world);;
     let '(r, d') := evaluate optimizations d in
     setFields (λ g, {| browser := browser g; pageDoc := Some d';
                        closeCalls := closeCalls g |});;
     liftResult r)%task
    (λ error, tthrow (newError ("Failed to apply optimizations: " +:+ errMessage error))).

(** [generatePDF()]: the PDF options are spread after [path], the
    function returns the output path whatever they say. *)
Definition generatePDF : Task string :=
  tryCatch
    (outputPath ← liftResult (getOutputPath config);
     let pdfOptions := pdfOptions config in
     _ ← thePage;
     call (CPdf (pdfArguments outputPath pdfOptions)) (pdf world);;
     tret outputPath)%task
    (λ error, tthrow (newError ("Failed to generate PDF: " +:+ errMessage error))).

(** [cleanup()]. *)
Definition cleanup : Task unit :=
  (emit ECleanup;;
   b ← getField browser;
   if b then
     (n ← getField closeCalls;
      setFields (λ g, {| browser := browser g; pageDoc := pageDoc g;
                         closeCalls := S (closeCalls g) |});;
      call CClose (close world n))
   else tret tt)%task.

(** The four stages, up to the capture. *)
Definition stages : Task string :=
  (console console_log MsgStart;;
   initialize;;
   console console_log MsgBrowserInitialized;;
   loadContent;;
   console console_log MsgContentLoaded;;
   applyOptimizations;;
   console console_log MsgOptimizationsApplied;;
   generatePDF)%task.

(** The [try] block of [convertToPDF]. *)
Definition pipeline : Task string :=
  (outputPath ← stages;
   console console_log (MsgPdfGenerated outputPath);;
   cleanup;;
   console console_log MsgCompleted;;
   tret outputPath)%task.

(** The [catch] block.  Nothing runs after [process.exit]; its result
    type is that of the function it cuts short. *)
Definition recover (error : JsError) : Task Outcome :=
  (console console_error (MsgError (errMessage error));;
   cleanup;;
   emit (EExit 1);;
   tret (Exited 1))%task.

(** [convertToPDF()]: outcome and events of one run. *)
Definition convertToPDF : Outcome * list Event :=
  let '(r, _, trace) :=
    tryCatch (outputPath ← pipeline; tret (Returned outputPath))%task recover
             newGenerator in
  (match r with Ok o => o | Throw e => Unhandled e end, trace).

End Generator.

(** Number of times [cleanup()] was entered in a trace. *)
Definition cleanups (trace : list Event) : nat :=
  length (filter (λ e, e = ECleanup) trace).

(** The times spent waiting, in order. *)
Definition awaited (trace : list Event) : list N :=
  omap (λ e, match e with EAwaited ms => Some ms | _ => None end) trace.

(** The ceilings of the image polls started. *)
Definition polls (trace : list Event) : list N :=
  omap (λ e, match e with ECall (CWaitForFunction c) => Some c | _ => None end) trace.

(* ================================================================== *)
(** * 11. Pages, hosts and worlds used as examples                     *)
(* ================================================================== *)

(** A host whose file system holds one file, whose text [JSON.parse]
    answers with [parsed]. *)
Definition singleFileHost (file content : string) (parsed : string + JsValue) : Host :=
  {| existsSync := λ p, String.eqb p file;
     readFileSync := λ p,
       if String.eqb p file then Ok content
       else Throw (Err SystemError "ENOENT: no such file or directory" None None);
     JSON_parse := λ s,
       if String.eqb s content then parsed
       else inl "Unexpected end of JSON input" |}.

(** A host with no file at all. *)
Definition emptyHost : Host :=
  {| existsSync := λ _, false;
     readFileSync := λ _,
       Throw (Err SystemError "ENOENT: no such file or directory" None None);
     JSON_parse := λ _, inl "Unexpected end of JSON input" |}.

(** The settings document that overrides the top margin only. *)
Definition topMarginOnly : JsValue :=
  JObj (obj [("pdf", JObj (obj [("margin", JObj (obj [("top", JStr "20mm")]))]))]).

(** A page with one titled section and one image hosted on the site. *)
Definition minimalDocument : Doc := page
  (El "html" [] [] "" [
     El "body" [] [] "" [
       El "section" [] [] "" [
         El "h2" ["section-title"] [] "" [Tx "Experience"];
         El "p" [] [] "" [Tx "Data engineer"] ];
       El "img" ["profile-image"] []
          "https://arnauudg.github.io/assets/profile-picture.jpeg" [] ] ]).

(** The header images of the CV as published: the path says [asset]. *)
Definition publishedHeader : Doc := page
  (El "html" [] [] "" [
     El "body" [] [] "" [
       El "header" [] [] "" [
         El "img" ["profile-image"] []
            "https://arnauudg.github.io/asset/profile-picture.jpeg" [];
         El "h1" [] [] "" [Tx "Gueulette Arnaud"] ] ] ]).

(** A page without any image. *)
Definition textOnlyDocument : Doc := page
  (El "html" [] [] "" [
     El "body" [] [] "" [
       El "section" [] [] "" [
         El "h2" ["section-title"] [] "" [Tx "Education"] ] ] ]).

Definition sampleConfig : ConfigView :=
  {| getViewportOptions := Some (JObj (obj [("width", int 1200); ("height", int 1600);
                                             ("deviceScaleFactor", int 2)]));
     getTimeouts := Some {| pageLoad := 30000; imageRender := 1000 |};
     pdfOptions := Some (JObj (obj [("format", JStr "A4")]));
     getOutputPath := Ok "CV.pdf" |}.

(** A world in which every call succeeds; the images of [d] are ready
    at [ready]. *)
Definition calmWorld (d : Doc) (ready : option N) : World :=
  {| launch := Ok tt; newPage := Ok tt; setViewport := Ok tt;
     htmlExists := true; goto := Ok tt; readHtml := Ok tt; setContent := Ok tt;
     document := d; evaluateImages := Ok tt; imagesReadyAt := ready;
     waitForTimeout := Ok tt; waitForTimeoutAgain := Ok tt;
     evaluateScript := Ok tt; pdf := Ok tt; close := λ _, Ok tt |}.

(** The same world, except that the first [browser.close()] rejects. *)
Definition closeRejectsWorld (d : Doc) : World :=
  {| launch := Ok tt; newPage := Ok tt; setViewport := Ok tt;
     htmlExists := true; goto := Ok tt; readHtml := Ok tt; setContent := Ok tt;
     document := d; evaluateImages := Ok tt; imagesReadyAt := Some 0%N;
     waitForTimeout := Ok tt; waitForTimeoutAgain := Ok tt;
     evaluateScript := Ok tt; pdf := Ok tt;
     close := λ n, match n with
                   | O => Throw (Err PlainError "Protocol error: Connection closed"
                                     None None)
                   | S _ => Ok tt
                   end |}.

(* ================================================================== *)
(** * 12. Vocabulary of the statements                                 *)
(* ================================================================== *)

(** Events of the stages proper: neither a cleanup nor a process exit. *)
Definition isStageEvent (e : Event) : bool :=
  match e with ECleanup | EExit _ => false | _ => true end.

(** Every [process.exit] of the trace comes after a cleanup
    ([cleaned]: a cleanup has already been seen). *)
Fixpoint exitsGuarded (cleaned : bool) (trace : list Event) : bool :=
  match trace with
  | [] => true
  | ECleanup :: t => exitsGuarded true t
  | EExit _ :: t => cleaned && exitsGuarded cleaned t
  | _ :: t => exitsGuarded cleaned t
  end.

(** A task that neither cleans up nor exits, leaves the count of
    [close] calls alone and never forgets the browser. *)
Definition quiet {A} (m : Task A) : Prop :=
  ∀ g, Forall (λ e, isStageEvent e = true) (m g).2 ∧
       closeCalls (m g).1.2 = closeCalls g ∧
       (browser g = true → browser (m g).1.2 = true).

(** A task after whose success the browser is there. *)
Definition browserAfter {A} (m : Task A) : Prop :=
  ∀ g, isOk (m g).1.1 = true → browser (m g).1.2 = true.

(** When the image poll settles: as soon as the images are ready, at
    the ceiling otherwise. *)
Definition pollSettle (readyAt : option N) : N :=
  match readyAt with
  | Some r => N.min r IMAGE_POLL_TIMEOUT
  | None => IMAGE_POLL_TIMEOUT
  end.

(** The generator once [initialize] has succeeded. *)
Definition initialized : Generator :=
  {| browser := true; pageDoc := Some []; closeCalls := 0 |}.

(** The generator once the document [d] is in the page. *)
Definition showing (d : Doc) (g : Generator) : Generator :=
  {| browser := browser g; pageDoc := Some d; closeCalls := closeCalls g |}.

(** The error [loadContent] throws for the failure [e]. *)
Definition wrapLoad (e : JsError) : JsError :=
  newError ("Failed to load content: " +:+ errMessage e).

(** *** Vocabulary for the transformation script *)

Definition LINE_HEIGHT := "line-height".

(** Two nodes with the same place in the page and the same classes,
    the class [expanded] apart. *)
Definition nodeFrame (n n' : Node) : Prop :=
  tag n = tag n' ∧ parent n = parent n' ∧ text n = text n' ∧
  ∀ c, c ≠ "expanded" → (c ∈ classList n ↔ c ∈ classList n').

(** Two pages with the same structure. *)
Definition frameEq (d d' : Doc) : Prop := Forall2 nodeFrame d d'.

(** Some property name of the inline style contains [sub]. *)
Definition namesWord (sub : string) (st : gmap string string) : Prop :=
  ∃ k, is_Some (st !! k) ∧ includes sub (cssName k) = true.

(** No value of the inline style contains [sub]. *)
Definition valuesFree (sub : string) (st : gmap string string) : Prop :=
  ∀ k v, st !! k = Some v → includes sub v = false.

Definition inlineBlock (n : Node) : Prop :=
  style n !! "display" = Some "inline-block".

(** Two nodes the script cannot tell apart: same frame, the same
    answer to [display === 'inline-block'] on a [strong], and the same
    answer to [style*="line-height"] on a [div]. *)
Definition nodeView (n n' : Node) : Prop :=
  nodeFrame n n' ∧
  (tag n = "strong" → (inlineBlock n ↔ inlineBlock n')) ∧
  (tag n = "div" →
     (namesWord LINE_HEIGHT (style n) ↔ namesWord LINE_HEIGHT (style n')) ∧
     valuesFree LINE_HEIGHT (style n) ∧ valuesFree LINE_HEIGHT (style n')).

Definition viewEq (d d' : Doc) : Prop := Forall2 nodeView d d'.

(** The writes of the styling: style values without the words
    [line-height] and [color], no class but [expanded], no image
    source. *)
Definition okW (w : Write) : bool :=
  match w with
  | SetStyle _ _ v => negb (includes LINE_HEIGHT v) && negb (includes "color" v)
  | AddClass _ c => String.eqb c "expanded"
  | SetSrc _ _ => false
  end.

(** A [strong] element that carries inline [display: inline-block]. *)
Definition inlineBlockStrong (d : Doc) (i : nat) : bool :=
  String.eqb (tagOf d i) "strong"
  && bool_decide (styleGet d i "display" = Some "inline-block").

(** Writes that leave the view of the page [d0] as it is: [display]
    is never set to [inline-block] nor on an inline-block [strong], and
    a property named after [line-height] is never set on a [div]. *)
Definition viewW (d0 : Doc) (w : Write) : bool :=
  okW w &&
  match w with
  | SetStyle i k v =>
      (if String.eqb k "display"
       then negb (String.eqb v "inline-block") && negb (inlineBlockStrong d0 i)
       else true)
      && (if includes LINE_HEIGHT (cssName k)
          then negb (String.eqb (tagOf d0 i) "div") else true)
  | _ => true
  end.

(** Writes of the layout part: moreover nothing about colours is set
    on a [span]. *)
Definition layoutW (d0 : Doc) (w : Write) : bool :=
  viewW d0 w &&
  match w with
  | SetStyle i k v =>
      if declHas "color" (k, v) then negb (String.eqb (tagOf d0 i) "span") else true
  | _ => true
  end.

(** The style attribute of element [i] says what its declarations say:
    it contains [sub] exactly when the name or the value of one of the
    inline declarations does. *)
Definition plainAbout (sub : string) (d : Doc) (i : nat) : bool :=
  Bool.eqb (styleAttrHas d i sub) (styleHas sub (styleOf d i)).

(** A page on which every [div] is plain about [line-height] and every
    [span] about [color], the two words the script looks for in style
    attributes. *)
Definition transparent (d : Doc) : bool :=
  forallb (λ i, (negb (String.eqb (tagOf d i) "div") || plainAbout LINE_HEIGHT d i)
                && (negb (String.eqb (tagOf d i) "span") || plainAbout "color" d i))
          (positions d).

(** The pages a list of writes goes through, the first included. *)
Fixpoint states (ws : list Write) (d : Doc) : list Doc :=
  d :: match ws with
       | [] => []
       | w :: ws' => states ws' (applyWrite d w)
       end.

(** A run of [m] on [d] during which the page stays transparent. *)
Definition clear {A} (m : Script A) (d : Doc) : Prop :=
  Forall (λ s, transparent s = true) (states (m d).2 d).

(** A script is sound for the page [d0] and the writes [Φ] when, run
    on any page with the frame of [d0], it makes only writes of [Φ],
    and makes the same writes with the same result on every page that
    looks the same, as long as both runs are clear. *)
Definition sound {A} (d0 : Doc) (Φ : Write → bool) (m : Script A) : Prop :=
  ∀ d1, frameEq d0 d1 →
    Forall (λ w, Φ w = true) (m d1).2 ∧
    ∀ d2, viewEq d1 d2 → clear m d1 → clear m d2 → m d2 = m d1.

(** The inline declarations written on node [i] by a list of writes. *)
Definition overlay (ws : list Write) (i : nat) (st : gmap string string)
  : gmap string string :=
  foldl (λ st w, match w with
                 | SetStyle j k v => if bool_decide (j = i) then <[k := v]> st else st
                 | _ => st
                 end) st ws.

(** The elements the script hides: the footer and the download button. *)
Definition hidden (d : Doc) : list nat :=
  option_list (querySelector (SelClass "footer") d)
  ++ option_list (querySelector (SelClass "btn-download-pdf") d).

(** The source an image gets from the rewrite. *)
Definition relativeSource (s : string) : string :=
  "assets/" +:+ interpolate (split "/assets/" s !! 1%nat).

(** The test of the rewrite on a source. *)
Definition isHosted (s : string) : bool :=
  negb (String.eqb s "") && includes HOSTED_ASSETS s.

(** The pages on which the transformation is shown idempotent: no
    hidden element is a [strong] with inline [display: inline-block];
    no [div] has the word [line-height] inside an inline style value;
    no image has a hosted address once the script has run; and the
    page stays transparent all along a first run of the script and a
    second run on the page the first has left. *)
Definition steady (d : Doc) : Prop :=
  let first := (optimizations d).2 in
  let second := (optimizations (run first d)).2 in
  (∀ i, i ∈ hidden d → inlineBlockStrong d i = false) ∧
  (∀ n, n ∈ d → tag n = "div" → valuesFree LINE_HEIGHT (style n)) ∧
  (∀ i, i ∈ querySelectorAll (SelTag "img") d →
        isHosted (resolvedSrc (run first d) i) = false) ∧
  Forall (λ s, transparent s = true) (states (first ++ second) d).

(** Two nodes that differ at most in the image source. *)
Definition sameButSrc (n n' : Node) : Prop :=
  tag n = tag n' ∧ parent n = parent n' ∧ text n = text n' ∧
  classList n = classList n' ∧ style n = style n' ∧
  styleAttr n = styleAttr n' ∧ agent n = agent n'.

(** A script all of whose writes satisfy [Φ], on every page. *)
Definition logAll {A} (Φ : Write → bool) (m : Script A) : Prop :=
  ∀ d, Forall (λ w, Φ w = true) (m d).2.

(** What a write does to the node it targets. *)
Definition onNode (w : Write) (n : Node) : Node :=
  match w with
  | SetStyle _ k v => assign k v n
  | AddClass _ c => withClasses (addToken c (classList n)) n
  | SetSrc _ s => withSrc s n
  end.

Definition target (w : Write) : nat :=
  match w with SetStyle i _ _ | AddClass i _ | SetSrc i _ => i end.

(** The classes and the style attribute of node [i] after a list of
    writes, and the node as a whole. *)
Definition classesAfter (ws : list Write) (i : nat) (cl : list string) : list string :=
  foldl (λ cl w, match w with
                 | AddClass j c => if bool_decide (j = i) then addToken c cl else cl
                 | _ => cl
                 end) cl ws.

Definition attrAfter (ws : list Write) (i : nat) (b : Browser) (a : StyleAttr)
  : StyleAttr :=
  foldl (λ a w, match w with
                | SetStyle j k v =>
                    if bool_decide (j = i) then afterAssignment b k v a else a
                | _ => a
                end) a ws.

Definition nodeAfter (ws : list Write) (i : nat) (n : Node) : Node :=
  foldl (λ n w, if bool_decide (target w = i) then onNode w n else n) n ws.

(** Selectors that look at the frame only. *)
Fixpoint frameSel (sel : Selector) : bool :=
  match sel with
  | SelTag _ => true
  | SelClass c => negb (String.eqb c "expanded")
  | SelDesc a s => frameSel a && frameSel s
  | SelOr s1 s2 => frameSel s1 && frameSel s2
  | SelStyleHas _ _ => false
  | SelFirstChild s => frameSel s
  end.

(** [Φ] allows only writes of the styling. *)
Definition refines (Φ : Write → bool) : Prop := ∀ w, Φ w = true → okW w = true.

(** The writes of the image rewrite. *)
Definition isSetSrc (w : Write) : bool :=
  match w with SetSrc _ _ => true | _ => false end.

(** The write made on a coloured span. *)
Definition blacken (span : nat) : Write := SetStyle span "color" "#000000".

(** A skills section whose sub-category label is the element the
    script hides as footer, and two images, one hosted. *)
Definition inlineBlockFooter : Doc := page
  (El "html" [] [] "" [
     El "body" [] [] "" [
       El "section" [] [] "" [
         El "h2" ["section-title"] [] "" [Tx "Technical Skills"];
         El "div" [] [("lineHeight", "1.5")] "" [
           El "div" [] [] "" [
             El "strong" ["footer"] [("display", "inline-block")] "" [Tx "Cloud"] ] ] ];
       El "img" [] [] "https://arnauudg.github.io/assets/pic.png" [];
       El "img" [] [] "https://arnauudg.github.io/asset/profile-picture.jpeg" [] ] ]).

(** The page [d] in which the [style] attribute of node [i] has the
    text [attr]: markup whose declarations the browser has not taken
    over as they are written. *)
Definition withAttrText (i : nat) (attr : string) (d : Doc) : Doc :=
  alter (λ n, {| tag := tag n; parent := parent n; text := text n;
                 classList := classList n; style := style n;
                 styleAttr := AsLoaded attr; src := src n; agent := agent n |}) i d.

(** A skills section whose block of sub-categories names a line height
    that CSS rejects: the attribute text holds it, the declarations do
    not. *)
Definition rejectedLineHeight : Doc :=
  withAttrText 5 "line-height: banana"
    (page
       (El "html" [] [] "" [
          El "body" [] [] "" [
            El "section" [] [] "" [
              El "h2" ["section-title"] [] "" [Tx "Technical Skills"];
              El "div" [] [] "" [
                El "div" [] [] "" [
                  El "strong" [] [("display", "inline-block")] "" [Tx "Cloud"] ] ] ] ] ])).

(** A page with a hosted portrait, a skills section whose block of
    sub-categories sets a line height and holds an inline-block label
    and a coloured span, and a footer. *)
Definition skillsPage : Doc := page
  (El "html" [] [] "" [
     El "body" [] [] "" [
       El "header" [] [] "" [
         El "img" ["profile-image"] []
            "https://arnauudg.github.io/assets/profile-picture.jpeg" [];
         El "h1" [] [] "" [Tx "Gueulette Arnaud"] ];
       El "section" [] [] "" [
         El "h2" ["section-title"] [] "" [Tx "Technical Skills"];
         El "p" [] [] "" [Tx "Cloud and data platforms"];
         El "div" [] [("lineHeight", "1.8")] "" [
           El "div" [] [] "" [
             El "strong" [] [("display", "inline-block")] "" [Tx "AWS"];
             El "span" [] [("color", "#666666")] "" [Tx "S3, Glue, Athena"] ] ] ];
       El "div" ["footer"] [] "" [Tx "Brussels"] ] ]).

(* ================================================================== *)
(** * 13. Further settings documents                                    *)
(* ================================================================== *)

(** A settings document that sets the viewport width and the output
    file, and nothing else. *)
Definition narrowViewport : JsValue :=
  JObj (obj [("viewport", JObj (obj [("width", int 800)]));
             ("output", JObj (obj [("filename", JStr "resume.pdf")]))]).

(** A settings document with a negative viewport width. *)
Definition negativeWidth : JsValue :=
  JObj (obj [("viewport", JObj (obj [("width", int (-5))]))]).

(** A host whose files exist and cannot be read. *)
Definition unreadableHost : Host :=
  {| existsSync := λ _, true;
     readFileSync := λ _, Throw (Err SystemError "EACCES: permission denied" None None);
     JSON_parse := λ _, inl "Unexpected end of JSON input" |}.

(** The sections [mergeWithDefaults] merges. *)
Definition SECTIONS : list string := ["pdf"; "viewport"; "timeouts"; "output"].

(* ================================================================== *)
(** * 14. The other logger methods (src/utils/Logger.js)                *)
(* ================================================================== *)

(** [logger.info(message, data)]. *)
Definition logger_info (lg : Logger) (message : string) (data : option JsValue)
  : list ConsoleCall :=
  if levelAtMost lg LOG_LEVELS.INFO
  then [ {| c_method := console_log; c_text := "[INFO] " +:+ message;
            c_data := if truthy data then data else None |} ]
  else [].

(** A call of [console.error]: the text and, when the logger was given
    one, the error object passed as second argument. *)
Record ErrorCall := {
  e_text : string;
  e_error : option JsError
}.

(** [logger.error(message, error)]. *)
Definition logger_error (lg : Logger) (message : string) (error : option JsError)
  : list ErrorCall :=
  if levelAtMost lg LOG_LEVELS.ERROR
  then [ {| e_text := "[ERROR] " +:+ message; e_error := error |} ]
  else [].

(** [logger.setLevel(level)]. *)
Definition setLevel (newLevel : option Z) (lg : Logger) : Logger :=
  {| level := newLevel |}.

(* ================================================================== *)
(** * 15. [DOMManipulator] and the first converter script              *)
(* ================================================================== *)

(** The static methods of [DOMManipulator] in the single-file
    converter. *)
Module DOMManipulator.

Definition styleSectionTitles : Script unit :=
  styleAll (SelClass "section-title")
    [("borderBottom", "3px solid #007bff"); ("paddingBottom", "10px");
     ("marginBottom", "20px")].

Definition styleProfileImage : Script unit :=
  (image ← query (querySelector (SelClass "profile-image"));
   whenSome image (λ img,
     setStyles img [("width", "15%"); ("height", "15%");
                    ("marginBottom", "20px"); ("borderRadius", "50%")]))%script.

Definition applyPageBreakRules : Script unit :=
  (styleAll (SelClass "professional-experience") [("pageBreakInside", "avoid")];;
   styleAll (SelTag "section") [("pageBreakInside", "avoid")];;
   styleAll (SelOr (SelClass "company-content") (SelClass "project-content"))
     [("pageBreakInside", "avoid")])%script.

Definition expandCollapsibleContent : Script unit :=
  (collapsibleContents ← query (querySelectorAll COLLAPSIBLE);
   forEach collapsibleContents (λ content,
     setStyle content "maxHeight" "none";;
     setStyle content "opacity" "1";;
     write (AddClass content "expanded")))%script.

Definition hideFooter : Script unit :=
  (footer ← query (querySelector (SelClass "footer"));
   whenSome footer (λ f, setStyle f "display" "none"))%script.

Definition optimizeLinks : Script unit :=
  styleAll (SelTag "a") [("color", "#007bff")].

Definition optimizeImages : Script unit :=
  styleAll (SelTag "img") [("maxWidth", "100%"); ("height", "auto")].

(** [DOMManipulator.applyPDFOptimizations()]. *)
Definition applyPDFOptimizations : Script unit :=
  (styleSectionTitles;; styleProfileImage;; applyPageBreakRules;;
   expandCollapsibleContent;; hideFooter;; optimizeLinks;; optimizeImages)%script.

(** The selectors through which the methods reach elements. *)
Definition TARGETS : list Selector :=
  [SelClass "section-title"; SelClass "profile-image";
   SelClass "professional-experience"; SelTag "section";
   SelOr (SelClass "company-content") (SelClass "project-content");
   COLLAPSIBLE; SelClass "footer"; SelTag "a"; SelTag "img"].

End DOMManipulator.

(** The function the first converter (src/convertToPDF.js) passes to
    [page.evaluate]: the profile image is used without a null check. *)
Definition firstConverterScript : Script unit :=
  (titles ← query (querySelectorAll (SelClass "section-title"));
   forEach titles (λ title,
     setStyle title "borderBottom" "3px solid #007bff";;
     setStyle title "paddingBottom" "10px";;
     setStyle title "marginBottom" "20px");;
   image ← query (querySelector (SelClass "profile-image"));
   img ← match image with
         | Some i => ret i
         | None => throw (Err TypeError
                            "Cannot read properties of null (reading 'style')"
                            None None)
         end;
   setStyle img "width" "15%";;
   setStyle img "height" "15%";;
   setStyle img "marginBottom" "20px";;
   setStyle img "borderRadius" "50%";;
   sections ← query (querySelectorAll (SelClass "professional-experience"));
   forEach sections (λ section, setStyle section "pageBreakInside" "avoid");;
   element ← query (querySelector (SelClass "footer"));
   whenSome element (λ el, setStyle el "display" "none"))%script.

(** The steps of the first converter, a straight line of awaits with
    no [try]. *)
Inductive Step :=
| StepLaunch | StepNewPage | StepReadFile | StepSetContent
| StepEvaluate | StepPdf | StepClose | StepLog.

Global Instance Step_eq_dec : EqDecision Step.
Proof. solve_decision. Defined.

(** How each call of the first converter turns out, and the page its
    HTML file parses to.  [fw_evaluate] is the outcome of the call of
    [page.evaluate] itself, which can reject before or after the script
    has run in the page; an exception of the script rejects it too. *)
Record FirstWorld := {
  fw_launch : Result unit;
  fw_newPage : Result unit;
  fw_readFile : Result unit;
  fw_setContent : Result unit;
  fw_document : Doc;
  fw_evaluate : Result unit;
  fw_pdf : Result unit;
  fw_close : Result unit
}.

(** A run: the result, or the rejection, and the steps started. *)
Definition Steps (A : Type) : Type := Result A * list Step.

Definition andThen {A B} (m : Steps A) (k : A → Steps B) : Steps B :=
  match m with
  | (Ok a, t1) => let '(r, t2) := k a in (r, (t1 ++ t2)%list)
  | (Throw e, t1) => (Throw e, t1)
  end.

Definition step (s : Step) (outcome : Result unit) : Steps unit := (outcome, [s]).

(** The body of the first converter. *)
Definition firstConverter (w : FirstWorld) : Steps unit :=
  andThen (step StepLaunch (fw_launch w)) (λ _,
  andThen (step StepNewPage (fw_newPage w)) (λ _,
  andThen (step StepReadFile (fw_readFile w)) (λ _,
  andThen (step StepSetContent (fw_setContent w)) (λ _,
  andThen (step StepEvaluate
             (rbind (fw_evaluate w)
                    (λ _, (evaluate firstConverterScript (fw_document w)).1))) (λ _,
  andThen (step StepPdf (fw_pdf w)) (λ _,
  andThen (step StepClose (fw_close w)) (λ _,
  step StepLog (Ok tt)))))))).

(* ------------------------------------------------------------------ *)
(** ** Vocabulary for scripts that read the frame only                 *)
(* ------------------------------------------------------------------ *)

(** The node is reached by one of the selectors. *)
Definition targeted (sels : list Selector) (d : Doc) (i : nat) : bool :=
  existsb (λ sel, matches d sel i) sels.

(** A style or class write on a node that one of [sels] reaches. *)
Definition reachW (sels : list Selector) (d0 : Doc) (w : Write) : bool :=
  okW w && targeted sels d0 (target w).

(** A script that, on every page with the frame of [d0], makes only
    writes of [Φ] and makes the same writes with the same result on
    every page of that frame. *)
Definition frameSound {A} (d0 : Doc) (Φ : Write → bool) (m : Script A) : Prop :=
  ∀ d1, frameEq d0 d1 →
    Forall (λ w, Φ w = true) (m d1).2 ∧
    ∀ d2, frameEq d1 d2 → m d2 = m d1.

(** A script that never throws. *)
Definition neverThrows {A} (m : Script A) : Prop := ∀ d, isOk (m d).1 = true.

(** The writes of the first converter script on the section titles. *)
Definition titleWrites (d : Doc) : list Write :=
  querySelectorAll (SelClass "section-title") d ≫= λ title,
    [SetStyle title "borderBottom" "3px solid #007bff";
     SetStyle title "paddingBottom" "10px";
     SetStyle title "marginBottom" "20px"].

(** ** Vocabulary for the end of the script and of a run *)

(** A script whose successful runs end with the script [last]. *)
Definition endsWith {A} (m last : Script A) : Prop :=
  ∀ d a ws, m d = (Ok a, ws) →
    ∃ pre, ws = (pre ++ (last (run pre d)).2)%list ∧ (last (run pre d)).1 = Ok a.

(** The writes of [optimizeImages]. *)
Definition imageWrites (d : Doc) : list Write :=
  querySelectorAll (SelTag "img") d ≫= λ img,
    [SetStyle img "maxWidth" "100%"; SetStyle img "height" "auto"].

(** The address under which the site publishes its assets. *)
Definition ASSETS_URL := "https://arnauudg.github.io/assets/".

(** A task that never calls [browser.close()] and after which the
    [browser] field is [f] of what it was. *)
Definition browserTo {A} (f : bool → bool) (m : Task A) : Prop :=
  ∀ g, (ECall CClose ∉ (m g).2) ∧ browser (m g).1.2 = f (browser g).

(** How [convertToPDF] ends, read off the outcome of the stages and of
    the calls of [browser.close()]. *)
Definition ending (world : World) (stagesResult : Result string) : Outcome :=
  match stagesResult with
  | Ok outputPath =>
      match close world 0 with
      | Ok _ => Returned outputPath
      | Throw _ =>
          match close world 1 with
          | Ok _ => Exited 1
          | Throw e => Unhandled e
          end
      end
  | Throw _ =>
      if isOk (launch world) then
        match close world 0 with
        | Ok _ => Exited 1
        | Throw e => Unhandled e
        end
      else Exited 1
  end.

(** A world in which [page.goto] rejects and everything else succeeds. *)
Definition gotoRejectsWorld (d : Doc) : World :=
  {| launch := Ok tt; newPage := Ok tt; setViewport := Ok tt;
     htmlExists := true;
     goto := Throw (Err PlainError "net::ERR_FILE_NOT_FOUND" None None);
     readHtml := Ok tt; setContent := Ok tt;
     document := d; evaluateImages := Ok tt; imagesReadyAt := None;
     waitForTimeout := Ok tt; waitForTimeoutAgain := Ok tt;
     evaluateScript := Ok tt; pdf := Ok tt; close := λ _, Ok tt |}.

(** A world in which the probe for images rejects and everything else
    succeeds. *)
Definition probeRejectsWorld (d : Doc) : World :=
  {| launch := Ok tt; newPage := Ok tt; setViewport := Ok tt;
     htmlExists := true; goto := Ok tt; readHtml := Ok tt; setContent := Ok tt;
     document := d;
     evaluateImages := Throw (Err PlainError "Execution context was destroyed"
                                  None None);
     imagesReadyAt := None;
     waitForTimeout := Ok tt; waitForTimeoutAgain := Ok tt;
     evaluateScript := Ok tt; pdf := Ok tt; close := λ _, Ok tt |}.

(* ================================================================== *)
(** * Part II.  Properties                                              *)
(* ================================================================== *)

(** ** Configuration *)

Lemma getDefaultConfig_eq : getDefaultConfig = JObj DEFAULT_CONFIG.
Proof. vm_compute. reflexivity. Qed.

Lemma mergeSection_lookup_ne (userConfig : JsValue) (k k' : string)
      (merged : gmap string JsValue) :
  k ≠ k' → mergeSection userConfig k merged !! k' = merged !! k'.
Proof.
  intros Hne. unfold mergeSection.
  destruct (truthy _); [by rewrite lookup_insert_ne|done].
Qed.

(** Whatever the defaults, the margin of the merged configuration is
    exactly the margin object the user wrote: a side the user left out
    is undefined in the result. *)
Lemma mergeWithDefaults_margin_is_users
      (defaults u pdf margin : gmap string JsValue) :
  u !! "pdf" = Some (JObj pdf) →
  pdf !! "margin" = Some (JObj margin) →
  ∃ merged,
    mergeWithDefaults (JObj u) defaults = Ok merged ∧
    getOpt (getOpt (Some merged) "pdf") "margin" = Some (JObj margin).
Proof.
  intros Hpdf Hmargin. eexists. split; [reflexivity|].
  cbn [getOpt mbind option_bind getProp].
  rewrite !mergeSection_lookup_ne by done.
  cbn [getProp]. rewrite Hpdf.
  cbn [truthy getOpt mbind option_bind getProp]. rewrite Hmargin.
  cbn [truthy]. rewrite lookup_insert_eq.
  cbn [getProp mbind option_bind]. rewrite lookup_insert_eq.
  f_equal. f_equal. unfold spread. cbn [ownProps].
  erewrite (lookup_union_Some_l pdf) by exact Hmargin. cbn [ownProps].
  by rewrite (idemp_L (∪)).
Qed.

(** C4 (evaluation at the failing input).  Merging the settings
    document that overrides only [pdf.margin.top] with the built-in
    [DEFAULT_CONFIG]: the document is valid, the merged [pdf.margin]
    has the user's top side and no bottom, left or right side at all;
    the default sides survive only under the unrelated upper-case keys
    [PDF.MARGIN], where the override does not reach. *)
Theorem mergeWithDefaults_top_only_drops_other_sides :
  validateConfig (Some topMarginOnly) = Ok tt ∧
  ∃ merged,
    mergeWithDefaults topMarginOnly DEFAULT_CONFIG = Ok merged ∧
    let margin := getOpt (getPDFOptions merged) "margin" in
    getOpt margin "top" = Some (JStr "20mm") ∧
    getOpt margin "bottom" = None ∧
    getOpt margin "left" = None ∧
    getOpt margin "right" = None ∧
    getOpt (getOpt (getProp merged "PDF") "MARGIN") "TOP" = Some (JStr "15mm") ∧
    getOpt (getOpt (getProp merged "PDF") "MARGIN") "BOTTOM" = Some (JStr "15mm").
Proof.
  split; [vm_compute; reflexivity|].
  eexists. split; [reflexivity|].
  vm_compute. repeat split.
Qed.

(** Key case is not the only cause.  Over lower-case defaults (those
    of the legacy loader) the [pdf] section does merge field by field,
    but the margin is still the user's object alone: the first spread
    has already replaced [merged.pdf.margin] by the user's margin when
    the second spread reads it. *)
Remark mergeWithDefaults_lowercase_defaults_still_drop_sides :
  ∃ d merged,
    Legacy.getDefaultConfig = JObj d ∧
    mergeWithDefaults topMarginOnly d = Ok merged ∧
    getOpt (getPDFOptions merged) "format" = Some (JStr "A4") ∧
    let margin := getOpt (getPDFOptions merged) "margin" in
    getOpt margin "top" = Some (JStr "20mm") ∧
    getOpt margin "bottom" = None ∧
    getOpt margin "left" = None ∧
    getOpt margin "right" = None.
Proof.
  eexists. eexists. split; [reflexivity|]. split; [reflexivity|].
  vm_compute. repeat split.
Qed.

(** C5 (as amended).  The loader of [src/config/PDFConfig.js]: when
    the configuration file exists and its text is not parseable JSON,
    [loadConfig] throws a ConfigurationError that wraps the
    SyntaxError; its class is not ValidationError, and nothing is
    returned in its place (no fallback to the defaults, no warning). *)
Theorem loadConfig_malformed_json_raises
        (h : Host) (lg : Logger) (configPath content msg : string) :
  existsSync h configPath = true →
  readFileSync h configPath = Ok content →
  JSON_parse h content = inl msg →
  ∃ e,
    loadConfig h lg configPath = (Throw e, []) ∧
    e = newConfigurationError ("Invalid JSON in configuration file: " +:+ msg)
                              (Some (Err SyntaxError msg None None)) ∧
    instanceof e ConfigurationError = true ∧
    instanceof e ValidationError = false ∧
    errCode e = Some "CONFIGURATION_ERROR".
Proof.
  intros Hex Hread Hparse. eexists. split; [|repeat split].
  unfold loadConfig. rewrite Hex, Hread, Hparse. reflexivity.
Qed.

Lemma loadConfig_malformed_json_raises_witness :
  ∃ e, loadConfig (singleFileHost "pdf-config.json" "{ not json"
                     (inl "Unexpected token n in JSON at position 2"))
                  defaultLogger "pdf-config.json" = (Throw e, []) ∧
       e = newConfigurationError
             ("Invalid JSON in configuration file: "
                +:+ "Unexpected token n in JSON at position 2")
             (Some (Err SyntaxError "Unexpected token n in JSON at position 2"
                        None None)) ∧
       instanceof e ConfigurationError = true ∧
       instanceof e ValidationError = false ∧
       errCode e = Some "CONFIGURATION_ERROR".
Proof.
  apply (loadConfig_malformed_json_raises
           (singleFileHost "pdf-config.json" "{ not json"
              (inl "Unexpected token n in JSON at position 2"))
           defaultLogger "pdf-config.json" "{ not json"
           "Unexpected token n in JSON at position 2");
    reflexivity.
Defined.

(** The legacy loader of the single-file converter answers the same
    malformed file with its defaults and a warning. *)
Remark legacy_loadConfig_malformed_json_falls_back
       (h : Host) (configPath content msg : string) :
  readFileSync h configPath = Ok content →
  JSON_parse h content = inl msg →
  (Legacy.loadConfig h configPath).1 = Legacy.getDefaultConfig.
Proof. intros Hread Hparse. unfold Legacy.loadConfig. by rewrite Hread, Hparse. Qed.

(** C5 (counterexample).  The loader of the single-file converter,
    on a configuration file that exists and whose text is not
    parseable JSON: its [catch] takes the SyntaxError, prints one
    warning and returns the defaults.  Nothing is thrown. *)
Lemma legacy_loadConfig_malformed_json_returns_defaults :
  let h := singleFileHost "pdf-config.json" "{ not json"
             (inl "Unexpected token n in JSON at position 2") in
  existsSync h "pdf-config.json" = true ∧
  readFileSync h "pdf-config.json" = Ok "{ not json" ∧
  JSON_parse h "{ not json" = inl "Unexpected token n in JSON at position 2" ∧
  Legacy.loadConfig h "pdf-config.json"
  = (Legacy.getDefaultConfig,
     ["Warning: Could not load config from pdf-config.json, using defaults"]).
Proof. by repeat split. Qed.

(** C6.  When no file exists at the configured path, [loadConfig]
    does not throw: it returns a copy equal to [DEFAULT_CONFIG] and
    makes one call to [logger.warn], which a logger at level WARN or
    below prints as one [console.warn] line. *)
Theorem loadConfig_missing_file_defaults
        (h : Host) (lg : Logger) (configPath : string) :
  existsSync h configPath = false →
  loadConfig h lg configPath =
    (Ok (JObj DEFAULT_CONFIG), logger_warn lg (fallbackWarning configPath) None) ∧
  (levelAtMost lg LOG_LEVELS.WARN = true →
   (loadConfig h lg configPath).2 =
     [ {| c_method := console_warn;
          c_text := "[WARN] Warning: Could not load config from " +:+ configPath
                      +:+ ", using defaults";
          c_data := None |} ]).
Proof.
  intros Hex. unfold loadConfig. rewrite Hex. cbn [negb fst snd].
  rewrite getDefaultConfig_eq. split; [reflexivity|].
  intros Hlvl. unfold logger_warn. rewrite Hlvl. reflexivity.
Qed.

Lemma loadConfig_missing_file_defaults_witness :
  loadConfig emptyHost defaultLogger "pdf-config.json" =
    (Ok (JObj DEFAULT_CONFIG),
     logger_warn defaultLogger (fallbackWarning "pdf-config.json") None) ∧
  (levelAtMost defaultLogger LOG_LEVELS.WARN = true →
   (loadConfig emptyHost defaultLogger "pdf-config.json").2 =
     [ {| c_method := console_warn;
          c_text := "[WARN] Warning: Could not load config from "
                      +:+ "pdf-config.json" +:+ ", using defaults";
          c_data := None |} ]).
Proof.
  apply (loadConfig_missing_file_defaults emptyHost defaultLogger "pdf-config.json").
  reflexivity.
Defined.

(** ** The render session *)

Section quiet.
Context {A B : Type}.

Lemma quiet_tret (a : A) : quiet (tret a).
Proof. intros g. cbn. auto. Qed.

Lemma quiet_tthrow (e : JsError) : quiet (@tthrow A e).
Proof. intros g. cbn. auto. Qed.

Lemma quiet_liftResult (r : Result A) : quiet (liftResult r).
Proof. intros g. cbn. auto. Qed.

Lemma quiet_getField (f : Generator → A) : quiet (getField f).
Proof. intros g. cbn. auto. Qed.

Lemma quiet_tbind (m : Task A) (k : A → Task B) :
  quiet m → (∀ a, quiet (k a)) → quiet (tbind m k).
Proof.
  intros Hm Hk g. unfold tbind. specialize (Hm g).
  destruct (m g) as [[[a|e] g1] t1]; cbn in *; [|done].
  specialize (Hk a g1). destruct (k a g1) as [[r g2] t2]; cbn in *.
  destruct Hm as (?&?&?), Hk as (?&?&?).
  split_and!; [by apply Forall_app|congruence|auto].
Qed.

Lemma quiet_tryCatch (m : Task A) (h : JsError → Task A) :
  quiet m → (∀ e, quiet (h e)) → quiet (tryCatch m h).
Proof.
  intros Hm Hh g. unfold tryCatch. specialize (Hm g).
  destruct (m g) as [[[a|e] g1] t1]; cbn in *; [done|].
  specialize (Hh e g1). destruct (h e g1) as [[r g2] t2]; cbn in *.
  destruct Hm as (?&?&?), Hh as (?&?&?).
  split_and!; [by apply Forall_app|congruence|auto].
Qed.

Lemma browserAfter_bind_l (m : Task A) (k : A → Task B) :
  browserAfter m → (∀ a, quiet (k a)) → browserAfter (tbind m k).
Proof.
  intros Hm Hk g. unfold tbind. specialize (Hm g).
  destruct (m g) as [[[a|e] g1] t1]; cbn in *; [|done].
  specialize (Hk a g1). destruct (k a g1) as [[r g2] t2]; cbn in *.
  intros _. apply Hk. by apply Hm.
Qed.

Lemma browserAfter_bind_r (m : Task A) (k : A → Task B) :
  (∀ a, browserAfter (k a)) → browserAfter (tbind m k).
Proof.
  intros Hk g. unfold tbind.
  destruct (m g) as [[[a|e] g1] t1]; cbn in *; [|done].
  specialize (Hk a g1). by destruct (k a g1) as [[r g2] t2].
Qed.

End quiet.

Lemma quiet_emit (e : Event) : isStageEvent e = true → quiet (emit e).
Proof. intros He g. cbn. auto. Qed.

Lemma quiet_call (c : Call) (r : Result unit) : quiet (call c r).
Proof. intros g. cbn. auto. Qed.

Lemma quiet_setFields (f : Generator → Generator) :
  (∀ g, closeCalls (f g) = closeCalls g) →
  (∀ g, browser g = true → browser (f g) = true) →
  quiet (setFields f).
Proof. intros H1 H2 g. cbn. auto. Qed.

Ltac quiet_step :=
  lazymatch goal with
  | |- quiet (tbind _ _) => apply quiet_tbind; [|intros ?]
  | |- quiet (tryCatch _ _) => apply quiet_tryCatch; [|intros ?]
  | |- quiet (tret _) => apply quiet_tret
  | |- quiet (tthrow _) => apply quiet_tthrow
  | |- quiet (liftResult _) => apply quiet_liftResult
  | |- quiet (getField _) => apply quiet_getField
  | |- quiet (emit _) => apply quiet_emit; reflexivity
  | |- quiet (console _ _) => apply quiet_emit; reflexivity
  | |- quiet (call _ _) => apply quiet_call
  | |- quiet (setFields _) => apply quiet_setFields; [done|done]
  | |- quiet (match ?x with _ => _ end) => destruct x
  | |- quiet (if ?x then _ else _) => destruct x
  | |- quiet (let '(_, _) := ?x in _) => destruct x
  end.

Lemma quiet_thePage : quiet thePage.
Proof. unfold thePage, nullPage. repeat quiet_step. Qed.

Lemma quiet_member (t : option Timeouts) (f : Timeouts → N) : quiet (member t f).
Proof. unfold member. repeat quiet_step. Qed.

Lemma quiet_await (s : Settled) : quiet (await s).
Proof. unfold await. repeat quiet_step. Qed.

Ltac quiet_solve :=
  repeat first [ apply quiet_thePage | apply quiet_member | apply quiet_await
               | quiet_step ].

Lemma quiet_initialize (world : World) : quiet (initialize world).
Proof. unfold initialize. quiet_solve. Qed.

Lemma quiet_loadContent (config : ConfigView) (world : World) :
  quiet (loadContent config world).
Proof. unfold loadContent, navigate, waitForImages, showDocument. quiet_solve. Qed.

Lemma quiet_applyOptimizations (world : World) : quiet (applyOptimizations world).
Proof. unfold applyOptimizations. quiet_solve. Qed.

Lemma quiet_generatePDF (config : ConfigView) (world : World) :
  quiet (generatePDF config world).
Proof. unfold generatePDF. quiet_solve. Qed.

Ltac quiet_stages :=
  repeat first [ apply quiet_initialize | apply quiet_loadContent
               | apply quiet_applyOptimizations | apply quiet_generatePDF
               | quiet_step ].

Lemma quiet_stages (config : ConfigView) (world : World) :
  quiet (stages config world).
Proof. unfold stages. quiet_stages. Qed.

Lemma browserAfter_initialize (world : World) : browserAfter (initialize world).
Proof.
  intros g. unfold initialize, tryCatch, tbind, call, setFields, tthrow. cbn.
  by destruct (launch world), (newPage world), (setViewport world).
Qed.

Lemma browserAfter_stages (config : ConfigView) (world : World) :
  browserAfter (stages config world).
Proof.
  unfold stages. apply browserAfter_bind_r; intros _.
  apply browserAfter_bind_l; [apply browserAfter_initialize|intros _].
  quiet_stages.
Qed.

(** What [cleanup()] does, in one equation. *)
Lemma cleanup_unfold (world : World) (g : Generator) :
  cleanup world g =
    if browser g
    then (close world (closeCalls g),
          {| browser := true; pageDoc := pageDoc g; closeCalls := S (closeCalls g) |},
          [ECleanup; ECall CClose])
    else (Ok tt, g, [ECleanup]).
Proof.
  unfold cleanup, tbind, emit, getField, setFields, call, tret. cbn.
  destruct (browser g) eqn:Hb; cbn; [|reflexivity].
  rewrite Hb. reflexivity.
Qed.

Lemma cleanups_app (t1 t2 : list Event) :
  cleanups (t1 ++ t2) = (cleanups t1 + cleanups t2)%nat.
Proof. unfold cleanups. by rewrite filter_app, length_app. Qed.

Lemma cleanups_stage_events (t : list Event) :
  Forall (λ e, isStageEvent e = true) t → cleanups t = 0%nat.
Proof.
  unfold cleanups. induction 1 as [|e t He _ IH]; [done|].
  rewrite filter_cons. destruct (decide (e = ECleanup)) as [->|]; [done|]. exact IH.
Qed.

Lemma exitsGuarded_stage_events (b : bool) (t1 t2 : list Event) :
  Forall (λ e, isStageEvent e = true) t1 →
  exitsGuarded b (t1 ++ t2) = exitsGuarded b t2.
Proof.
  induction 1 as [|e t He _ IH]; [done|].
  by destruct e.
Qed.

(** [exitsGuarded] says what it should: before any exit in the trace
    there is a cleanup. *)
Lemma exitsGuarded_sound (t : list Event) :
  exitsGuarded false t = true →
  ∀ pre c post, t = (pre ++ EExit c :: post)%list → ECleanup ∈ pre.
Proof.
  assert (∀ b t, exitsGuarded b t = true →
          ∀ pre c post, t = (pre ++ EExit c :: post)%list →
                        b = true ∨ ECleanup ∈ pre) as H.
  { clear t. intros b t. revert b.
    induction t as [|e t IH]; intros b Hg pre c post Heq.
    - by destruct pre.
    - destruct pre as [|e' pre]; simplify_eq/=.
      + left. by destruct b.
      + destruct e'; cbn in Hg;
          try (destruct (IH _ Hg _ _ _ eq_refl) as [?|?];
               [by left|right; by constructor]).
        * right. constructor.
        * apply andb_prop in Hg as [-> ?]. by left. }
  intros Hg pre c post Heq. by destruct (H _ _ Hg _ _ _ Heq).
Qed.

(** C1 (as amended).  In every run of [convertToPDF], [cleanup()] is
    entered once, except when all four stages succeed and the
    [browser.close()] of the success path rejects: the [catch] block
    then enters it a second time.  In particular it is entered exactly
    once whenever a stage fails.  No [process.exit] happens before a
    cleanup. *)
Theorem convertToPDF_cleanup_count (config : ConfigView) (world : World) :
  let trace := (convertToPDF config world).2 in
  let stagesOk := isOk (stages config world newGenerator).1.1 in
  cleanups trace = (if stagesOk && negb (isOk (close world 0)) then 2 else 1)%nat ∧
  exitsGuarded false trace = true.
Proof.
  unfold convertToPDF, pipeline, recover.
  pose proof (quiet_stages config world newGenerator) as (Hq & Hcc & _).
  pose proof (browserAfter_stages config world newGenerator) as Hb.
  unfold tryCatch, tbind, console, emit, tret.
  destruct (stages config world newGenerator) as [[[p|e] g1] t1]; cbn in Hq, Hcc, Hb.
  - rewrite cleanup_unfold, Hb, Hcc by done.
    destruct (close world 0) as [[]|e0]; cbn [fst snd isOk negb andb].
    + rewrite ?app_nil_r, <- ?app_assoc, cleanups_app, (cleanups_stage_events _ Hq),
        exitsGuarded_stage_events by done.
      done.
    + rewrite cleanup_unfold. cbn [browser closeCalls].
      destruct (close world 1) as [[]|e1]; cbn [fst snd];
        rewrite ?app_nil_r, <- ?app_assoc, cleanups_app, (cleanups_stage_events _ Hq),
          exitsGuarded_stage_events by done;
        done.
  - rewrite cleanup_unfold.
    destruct (browser g1); [rewrite Hcc; destruct (close world 0) as [[]|e0]|];
      cbn [fst snd isOk negb andb];
      rewrite ?app_nil_r, <- ?app_assoc, cleanups_app, (cleanups_stage_events _ Hq),
        exitsGuarded_stage_events by done;
      done.
Qed.

(** C1 (counterexample).  All four stages succeed, the first
    [browser.close()] rejects: [cleanup()] is entered twice. *)
Lemma convertToPDF_cleanup_twice_when_close_rejects :
  let world := closeRejectsWorld minimalDocument in
  isOk (stages sampleConfig world newGenerator).1.1 = true ∧
  cleanups (convertToPDF sampleConfig world).2 = 2%nat ∧
  cleanups (convertToPDF sampleConfig world).2 ≠ 1%nat.
Proof. vm_compute. split_and!; [done|done|discriminate]. Qed.

(** C9 (as amended).  [cleanup()] does nothing when the generator has
    no browser, which is the case before [initialize] and after an
    [initialize] whose launch failed.  With a browser it calls
    [browser.close()] once and ends as that call ends: a rejection is
    thrown on to the caller, and nothing is written to the console. *)
Theorem cleanup_closes_or_skips (world : World) (g : Generator) :
  cleanup world g =
    (if browser g
     then (close world (closeCalls g),
           {| browser := true; pageDoc := pageDoc g; closeCalls := S (closeCalls g) |},
           [ECleanup; ECall CClose])
     else (Ok tt, g, [ECleanup])) ∧
  browser newGenerator = false ∧
  browser (initialize world newGenerator).1.2 = isOk (launch world).
Proof.
  split; [apply cleanup_unfold|]. split; [done|].
  unfold initialize, tryCatch, tbind, call, setFields, tthrow. cbn.
  by destruct (launch world), (newPage world), (setViewport world).
Qed.

(** C9 (counterexample).  On an initialised generator whose
    [browser.close()] rejects, [cleanup()] throws that rejection and
    logs nothing. *)
Lemma cleanup_throws_when_close_rejects :
  let run := cleanup (closeRejectsWorld minimalDocument) initialized in
  run.1.1 = Throw (Err PlainError "Protocol error: Connection closed" None None) ∧
  run.2 = [ECleanup; ECall CClose].
Proof. vm_compute. done. Qed.

(** *** Loading *)

Lemma race_absorb_timer (readyAt : option N) (ms : N) :
  race (absorb (waitForFunction readyAt IMAGE_POLL_TIMEOUT)) (timer ms)
  = Fulfilled (N.min (pollSettle readyAt) ms).
Proof.
  unfold race, absorb, waitForFunction, timer, pollSettle.
  destruct readyAt as [r|]; [destruct (N.leb_spec r IMAGE_POLL_TIMEOUT)|]; cbn;
    repeat match goal with |- context [N.leb ?a ?b] => destruct (N.leb_spec a b) end;
    f_equal; lia.
Qed.

Local Opaque optimizations querySelectorAll race IMAGE_POLL_TIMEOUT.

Lemma has_images (d : Doc) :
  querySelectorAll (SelTag "img") d ≠ [] →
  bool_decide (0 < length (querySelectorAll (SelTag "img") d))%nat = true.
Proof.
  intros H. apply bool_decide_eq_true_2.
  destruct (querySelectorAll _ d); [done|cbn; lia].
Qed.


Ltac task_unfold :=
  unfold loadContent, navigate, waitForImages, showDocument, thePage, member, nullPage,
    await, console, timer,
    tryCatch, tbind, emit, getField, setFields, call, tret, tthrow, liftResult in *.

(** The page reaches the image wait only through [showDocument]. *)
Lemma navigate_spec (world : World) (timeouts : option Timeouts) (g : Generator) :
  polls (navigate world timeouts g).2 = [] ∧
  awaited (navigate world timeouts g).2 = [] ∧
  (isOk (navigate world timeouts g).1.1 = true →
   (navigate world timeouts g).1.2 =
     {| browser := browser g; pageDoc := Some (document world);
        closeCalls := closeCalls g |}).
Proof.
  task_unfold. cbn.
  destruct (pageDoc g) eqn:Hp, timeouts as [t|]; cbn; rewrite ?Hp; cbn; try done;
    destruct (goto world) as [[]|]; cbn; try done;
    destruct (readHtml world) as [[]|]; cbn; rewrite ?Hp; cbn; try done;
    destruct (setContent world) as [[]|]; cbn; done.
Qed.

Lemma waitForImages_no_images (world : World) (t : Timeouts) (g : Generator) (d : Doc) :
  pageDoc g = Some d →
  querySelectorAll (SelTag "img") d = [] →
  polls (waitForImages world (Some t) g).2 = [] ∧
  (isOk (waitForImages world (Some t) g).1.1 = true →
   awaited (waitForImages world (Some t) g).2 = [imageRender t]).
Proof.
  intros Hp Himg. task_unfold. cbn. rewrite Hp. cbn.
  destruct (evaluateImages world) as [[]|]; cbn; rewrite ?Himg; cbn;
    destruct (waitForTimeout world) as [[]|]; cbn; try done;
    destruct (waitForTimeoutAgain world) as [[]|]; cbn; done.
Qed.

Lemma loadContent_unfold (config : ConfigView) (world : World) (g : Generator) :
  loadContent config world g =
    if htmlExists world then
      match navigate world (getTimeouts config) g with
      | (Ok _, g1, t1) =>
          match waitForImages world (getTimeouts config) g1 with
          | (Ok a, g2, t2) => (Ok a, g2, (t1 ++ t2)%list)
          | (Throw e, g2, t2) => (Throw (wrapLoad e), g2, (t1 ++ t2)%list)
          end
      | (Throw e, g1, t1) => (Throw (wrapLoad e), g1, t1)
      end
    else (Throw (wrapLoad (newError "HTML file not found")), g, []).
Proof.
  unfold loadContent, tryCatch at 1, tbind at 1, tthrow.
  destruct (htmlExists world); cbn [negb]; [|done].
  destruct (navigate world (getTimeouts config) g) as [[[[]|e] g1] t1]; cbn;
    [|by rewrite app_nil_r].
  destruct (waitForImages world (getTimeouts config) g1) as [[[[]|e] g2] t2]; cbn;
    [done|by rewrite app_nil_r].
Qed.

Lemma navigate_needs_timeouts (world : World) (g : Generator) :
  isOk (navigate world None g).1.1 = false.
Proof.
  task_unfold. cbn. destruct (pageDoc g) eqn:Hp; cbn; rewrite ?Hp; cbn;
    destruct (readHtml world) as [[]|]; cbn; rewrite ?Hp; cbn; done.
Qed.

(** C8.  When the document has no [img] element, [loadContent] never
    starts the image poll, and when it completes the only wait it has
    made is the flat [timeouts.imageRender] delay. *)
Theorem loadContent_without_images_flat_delay
        (config : ConfigView) (world : World) (g : Generator) :
  querySelectorAll (SelTag "img") (document world) = [] →
  polls (loadContent config world g).2 = [] ∧
  (isOk (loadContent config world g).1.1 = true →
   ∃ t, getTimeouts config = Some t ∧
        awaited (loadContent config world g).2 = [imageRender t]).
Proof.
  intros Himg. rewrite loadContent_unfold.
  destruct (htmlExists world); [|done].
  pose proof (navigate_spec world (getTimeouts config) g) as (Hpolls & Haw & Hg).
  pose proof (navigate_needs_timeouts world g) as Hnone.
  destruct (getTimeouts config) as [t|] eqn:Ht.
  2:{ destruct (navigate world None g) as [[[[]|e] g1] t1]; done. }
  destruct (navigate world (Some t) g) as [[[[]|e] g1] t1]; cbn in Hpolls, Haw, Hg;
    [|done].
  rewrite (Hg eq_refl).
  pose proof (waitForImages_no_images world t
                {| browser := browser g; pageDoc := Some (document world);
                   closeCalls := closeCalls g |} (document world) eq_refl Himg)
    as (Hp2 & Ha2).
  destruct (waitForImages world (Some t) _) as [[[[]|e] g2] t2]; cbn in Hp2, Ha2;
    unfold polls, awaited in *; cbn [fst snd isOk]; rewrite ?omap_app, ?Hpolls, ?Haw, ?Hp2;
    [|done].
  split; [done|]. intros _. exists t. split; [done|]. by rewrite Ha2.
Qed.

Lemma loadContent_without_images_flat_delay_witness :
  polls (loadContent sampleConfig (calmWorld textOnlyDocument None) initialized).2 = [] ∧
  (isOk (loadContent sampleConfig (calmWorld textOnlyDocument None) initialized).1.1 = true →
   ∃ t, getTimeouts sampleConfig = Some t ∧
        awaited (loadContent sampleConfig (calmWorld textOnlyDocument None) initialized).2
        = [imageRender t]).
Proof.
  apply (loadContent_without_images_flat_delay sampleConfig
           (calmWorld textOnlyDocument None) initialized).
  vm_compute. reflexivity.
Defined.

Lemma loadContent_with_images
      (config : ConfigView) (world : World) (g : Generator) (t : Timeouts) (d0 : Doc) :
  pageDoc g = Some d0 →
  htmlExists world = true →
  getTimeouts config = Some t →
  goto world = Ok tt ∨ (readHtml world = Ok tt ∧ setContent world = Ok tt) →
  querySelectorAll (SelTag "img") (document world) ≠ [] →
  evaluateImages world = Ok tt →
  ∃ trace,
    loadContent config world g = (Ok tt, showing (document world) g, trace) ∧
    polls trace = [15000%N] ∧
    ECall (CSetTimeout (imageRender t)) ∈ trace ∧
    awaited trace = [N.min (pollSettle (imagesReadyAt world)) (imageRender t)].
Proof.
  intros Hpage Hex Ht Hload Himg Hev. apply has_images in Himg.
  task_unfold. cbn. rewrite Hex. cbn. rewrite Hpage, Ht. cbn.
  destruct (goto world) as [[]|e].
  - cbn. rewrite Hev. cbn. rewrite Himg. cbn. rewrite race_absorb_timer. cbn.
    eexists. split; [reflexivity|]. split_and!; try done. apply list_elem_of_In; cbn; auto 10.
  - destruct Hload as [?|[Hr Hs]]; [done|].
    cbn. rewrite Hr. cbn. rewrite Hpage. cbn. rewrite Hs. cbn. rewrite Hev. cbn.
    rewrite Himg. cbn. rewrite race_absorb_timer. cbn.
    eexists. split; [reflexivity|]. split_and!; try done. apply list_elem_of_In; cbn; auto 10.
Qed.

Lemma tbind_Ok {A B} (m : Task A) (k : A → Task B) g a g1 t1 :
  m g = (Ok a, g1, t1) →
  tbind m k g = (let '(r, g2, t2) := k a g1 in (r, g2, (t1 ++ t2)%list)).
Proof. intros H. unfold tbind. by rewrite H. Qed.

Lemma initialize_ok (world : World) :
  launch world = Ok tt → newPage world = Ok tt → setViewport world = Ok tt →
  initialize world newGenerator
  = (Ok tt, initialized, [ECall CLaunch; ECall CNewPage; ECall CSetViewport]).
Proof.
  intros H1 H2 H3. unfold initialize, tryCatch, tbind, call, setFields. cbn.
  rewrite H1. cbn. rewrite H2. cbn. rewrite H3. done.
Qed.

Lemma applyOptimizations_unfold (world : World) (g : Generator) (d : Doc) :
  pageDoc g = Some d →
  ∃ r g' rest,
    applyOptimizations world g = (r, g', ECall CEvaluate :: rest) ∧
    (evaluateScript world = Ok tt → (evaluate optimizations d).1 = Ok tt →
     r = Ok tt ∧ pageDoc g' = Some (evaluate optimizations d).2).
Proof.
  intros Hp. unfold applyOptimizations, thePage, tryCatch, tbind, getField, call,
    setFields, liftResult, tret, tthrow. cbn. rewrite Hp. cbn.
  destruct (evaluateScript world) as [[]|e]; cbn.
  - destruct (evaluate optimizations d) as [[[]|e] d']; cbn;
      do 3 eexists; (split; [reflexivity|]); intros; simplify_eq/=; done.
  - do 3 eexists. split; [reflexivity|]. done.
Qed.

Lemma generatePDF_ok_trace (config : ConfigView) (world : World) (g : Generator)
      (d : Doc) (path : string) :
  pageDoc g = Some d → getOutputPath config = Ok path →
  ECall (CPdf (pdfArguments path (pdfOptions config))) ∈ (generatePDF config world g).2.
Proof.
  intros Hp Hpath. unfold generatePDF, thePage, tryCatch, tbind, getField, call,
    liftResult, tret, tthrow. cbn. rewrite Hpath. cbn. rewrite Hp. cbn.
  destruct (pdf world) as [[]|]; cbn; repeat (rewrite elem_of_cons || rewrite elem_of_app); tauto.
Qed.

Lemma tbind_trace_prefix {A B} (m : Task A) (k : A → Task B) (g : Generator) :
  ∃ post, (tbind m k g).2 = ((m g).2 ++ post)%list.
Proof.
  unfold tbind. destruct (m g) as [[[a|e] g1] t1]; cbn.
  - destruct (k a g1) as [[r g2] t2]. by eexists.
  - exists []. by rewrite app_nil_r.
Qed.

Lemma tryCatch_trace_prefix {A} (m : Task A) (h : JsError → Task A) (g : Generator) :
  ∃ post, (tryCatch m h g).2 = ((m g).2 ++ post)%list.
Proof.
  unfold tryCatch. destruct (m g) as [[[a|e] g1] t1]; cbn.
  - exists []. by rewrite app_nil_r.
  - destruct (h e g1) as [[r g2] t2]. by eexists.
Qed.

Lemma convertToPDF_trace_prefix (config : ConfigView) (world : World) :
  ∃ post, (convertToPDF config world).2
          = ((stages config world newGenerator).2 ++ post)%list.
Proof.
  unfold convertToPDF, pipeline.
  match goal with
  | |- context [tryCatch ?m ?h ?g] =>
      destruct (tryCatch_trace_prefix m h g) as [p1 H1];
      destruct (tryCatch m h g) as [[r g'] tr]
  end.
  cbn [snd] in *. subst tr.
  match type of p1 with _ => idtac end.
  match goal with
  | |- context [(tbind (tbind ?m ?k) ?k' ?g).2] =>
      destruct (tbind_trace_prefix (tbind m k) k' g) as [p2 H2];
      destruct (tbind_trace_prefix m k g) as [p3 H3]
  end.
  rewrite H2, H3, <- !app_assoc. by eexists.
Qed.

(** C2.  Once the browser is up and the document is in the page by
    either strategy, a document with at least one image never makes
    [loadContent] throw, whenever its images are ready, even never:
    one poll is started with the ceiling 15000 whatever the settings
    say, its rejection is absorbed, it is raced against a timer of
    [timeouts.imageRender] and the wait lasts until the first of the
    two; the run then goes on to evaluate the transformation script
    and, if that succeeds, to print the PDF. *)
Theorem images_never_abort (config : ConfigView) (world : World) (t : Timeouts) :
  launch world = Ok tt → newPage world = Ok tt → setViewport world = Ok tt →
  htmlExists world = true →
  getTimeouts config = Some t →
  goto world = Ok tt ∨ (readHtml world = Ok tt ∧ setContent world = Ok tt) →
  querySelectorAll (SelTag "img") (document world) ≠ [] →
  evaluateImages world = Ok tt →
  let load := loadContent config world initialized in
  let trace := (convertToPDF config world).2 in
  load.1.1 = Ok tt ∧
  polls load.2 = [15000%N] ∧
  ECall (CSetTimeout (imageRender t)) ∈ load.2 ∧
  awaited load.2 = [N.min (pollSettle (imagesReadyAt world)) (imageRender t)] ∧
  (∃ pre post,
     trace = (pre ++ [EConsole console_log MsgContentLoaded; ECall CEvaluate] ++ post)%list) ∧
  (evaluateScript world = Ok tt →
   (evaluate optimizations (document world)).1 = Ok tt →
   ∀ path, getOutputPath config = Ok path →
     ECall (CPdf (pdfArguments path (pdfOptions config))) ∈ trace).
Proof.
  intros Hl Hn Hv Hex Ht Hload Himg Hev load trace.
  destruct (loadContent_with_images config world initialized t [] eq_refl Hex Ht Hload Himg Hev)
    as (tl & Hlc & Hpolls & Hset & Haw).
  subst load. rewrite Hlc. cbn [fst snd]. split_and!; try done.
  - destruct (convertToPDF_trace_prefix config world) as [post Hpost].
    subst trace. rewrite Hpost. unfold stages.
    unfold console. rewrite (tbind_Ok (emit _) _ newGenerator tt newGenerator [_]) by done.
    rewrite (tbind_Ok _ _ _ _ _ _ (initialize_ok world Hl Hn Hv)).
    rewrite (tbind_Ok (emit _) _ initialized tt initialized [_]) by done.
    rewrite (tbind_Ok _ _ _ _ _ _ Hlc).
    rewrite (tbind_Ok (emit _) _ _ tt _ [_]) by done.
    destruct (applyOptimizations_unfold world (showing (document world) initialized)
                (document world) eq_refl) as (r & g' & rest & Happ & _).
    unfold tbind at 1. rewrite Happ.
    destruct r; [destruct (tbind _ _ g') as [[? ?] ?]|]; cbn;
      rewrite <- ?app_assoc; cbn.
    + by eexists (_ :: _ :: _ :: _ :: _ :: tl), _.
    + by eexists (_ :: _ :: _ :: _ :: _ :: tl), _.
  - intros Hes Hscript path Hpath.
    destruct (convertToPDF_trace_prefix config world) as [post Hpost].
    subst trace. rewrite Hpost. apply elem_of_app. left. unfold stages.
    unfold console. rewrite (tbind_Ok (emit _) _ newGenerator tt newGenerator [_]) by done.
    rewrite (tbind_Ok _ _ _ _ _ _ (initialize_ok world Hl Hn Hv)).
    rewrite (tbind_Ok (emit _) _ initialized tt initialized [_]) by done.
    rewrite (tbind_Ok _ _ _ _ _ _ Hlc).
    rewrite (tbind_Ok (emit _) _ _ tt _ [_]) by done.
    destruct (applyOptimizations_unfold world (showing (document world) initialized)
                (document world) eq_refl) as (r & g' & rest & Happ & Hok).
    destruct (Hok Hes Hscript) as [-> Hpage'].
    rewrite (tbind_Ok _ _ _ _ _ _ Happ).
    rewrite (tbind_Ok (emit _) _ _ tt _ [_]) by done.
    pose proof (generatePDF_ok_trace config world g' _ path Hpage' Hpath) as Hin.
    destruct (generatePDF config world g') as [[? ?] tp]; cbn in *.
    repeat (rewrite elem_of_cons || rewrite elem_of_app). tauto.
Qed.

Lemma images_never_abort_witness :
  let world := calmWorld minimalDocument None in
  let load := loadContent sampleConfig world initialized in
  let trace := (convertToPDF sampleConfig world).2 in
  load.1.1 = Ok tt ∧
  polls load.2 = [15000%N] ∧
  ECall (CSetTimeout 1000) ∈ load.2 ∧
  awaited load.2 = [N.min (pollSettle None) 1000] ∧
  (∃ pre post,
     trace = (pre ++ [EConsole console_log MsgContentLoaded; ECall CEvaluate] ++ post)%list) ∧
  (evaluateScript world = Ok tt →
   (evaluate optimizations (document world)).1 = Ok tt →
   ∀ path, getOutputPath sampleConfig = Ok path →
     ECall (CPdf (pdfArguments path (pdfOptions sampleConfig))) ∈ trace).
Proof.
  apply (images_never_abort sampleConfig (calmWorld minimalDocument None)
           {| pageLoad := 30000; imageRender := 1000 |});
    try reflexivity.
  - left. reflexivity.
  - vm_compute. discriminate.
Defined.

(* ------------------------------------------------------------------ *)
(** ** The transformation script *)
(* ------------------------------------------------------------------ *)

Local Transparent optimizations querySelectorAll.

(** ** The page under writes *)

Lemma length_applyWrite (d : Doc) (w : Write) : length (applyWrite d w) = length d.
Proof. destruct w; apply length_alter. Qed.

Lemma run_cons (w : Write) (ws : list Write) (d : Doc) :
  run (w :: ws) d = run ws (applyWrite d w).
Proof. done. Qed.

Lemma length_run (ws : list Write) (d : Doc) : length (run ws d) = length d.
Proof.
  revert d. induction ws as [|w ws IH]; intros d; [done|].
  by rewrite run_cons, IH, length_applyWrite.
Qed.

Lemma run_app (ws1 ws2 : list Write) (d : Doc) :
  run (ws1 ++ ws2) d = run ws2 (run ws1 d).
Proof. apply foldl_app. Qed.

Lemma run_snoc (ws : list Write) (w : Write) (d : Doc) :
  run (ws ++ [w]) d = applyWrite (run ws d) w.
Proof. by rewrite run_app. Qed.

Lemma applyWrite_alter (d : Doc) (w : Write) :
  applyWrite d w = alter (onNode w) (target w) d.
Proof. by destruct w. Qed.

Lemma lookup_applyWrite (d : Doc) (w : Write) (i : nat) :
  applyWrite d w !! i
  = if decide (target w = i) then onNode w <$> d !! i else d !! i.
Proof.
  rewrite applyWrite_alter. case_decide as Hi.
  - subst. apply list_lookup_alter_eq.
  - by apply list_lookup_alter_ne.
Qed.

(** ** Frames *)

Lemma nodeFrame_refl (n : Node) : nodeFrame n n.
Proof. by repeat split. Qed.

Lemma nodeFrame_sym (n n' : Node) : nodeFrame n n' → nodeFrame n' n.
Proof. intros (?&?&?&H). repeat split; try done; by apply H. Qed.

Lemma nodeFrame_trans (n1 n2 n3 : Node) :
  nodeFrame n1 n2 → nodeFrame n2 n3 → nodeFrame n1 n3.
Proof.
  intros (?&?&?&H) (?&?&?&H'). split_and!; try congruence.
  intros c Hc. by rewrite H, H'.
Qed.

Lemma frameEq_refl (d : Doc) : frameEq d d.
Proof. apply Forall_Forall2_diag, Forall_forall. intros. apply nodeFrame_refl. Qed.

Lemma frameEq_sym (d d' : Doc) : frameEq d d' → frameEq d' d.
Proof. induction 1; constructor; auto using nodeFrame_sym. Qed.

Lemma frameEq_trans (d1 d2 d3 : Doc) : frameEq d1 d2 → frameEq d2 d3 → frameEq d1 d3.
Proof.
  intros H. revert d3.
  induction H as [|n1 n2 l1 l2 Hn _ IH]; intros d3 H3; inversion H3; subst; constructor.
  - by eapply nodeFrame_trans.
  - by apply IH.
Qed.

Lemma elem_of_addToken (c c' : string) (cl : list string) :
  c' ∈ addToken c cl ↔ c' = c ∨ c' ∈ cl.
Proof.
  unfold addToken. case_bool_decide as Hc.
  - split; [auto|]. intros [->|?]; done.
  - rewrite elem_of_app, list_elem_of_singleton. tauto.
Qed.

Lemma okW_AddClass (i : nat) (c : string) : okW (AddClass i c) = true → c = "expanded".
Proof. cbn. by intros ?%String.eqb_eq. Qed.

Lemma nodeFrame_onNode (w : Write) (n : Node) :
  okW w = true → nodeFrame n (onNode w n).
Proof.
  intros Hw. destruct w as [i k v|i c|i s].
  - by repeat split.
  - apply okW_AddClass in Hw as ->. repeat split; try done.
    all: cbn; rewrite elem_of_addToken; intuition congruence.
  - by repeat split.
Qed.

Lemma frameEq_applyWrite (d : Doc) (w : Write) :
  okW w = true → frameEq d (applyWrite d w).
Proof.
  intros Hw. rewrite applyWrite_alter. apply Forall2_alter_r; [apply frameEq_refl|].
  intros n n' Hn Hn' _. simplify_eq. by apply nodeFrame_onNode.
Qed.

Lemma frameEq_run (ws : list Write) (d : Doc) :
  Forall (λ w, okW w = true) ws → frameEq d (run ws d).
Proof.
  intros Hws. revert d. induction Hws as [|w ws Hw _ IH]; intros d; [apply frameEq_refl|].
  rewrite run_cons. eapply frameEq_trans; [by apply frameEq_applyWrite|apply IH].
Qed.

Section frame.
Context (d1 d2 : Doc) (Hf : frameEq d1 d2).

Lemma frame_length : length d1 = length d2.
Proof using Hf. by eapply Forall2_length. Qed.

Lemma frame_lookup (i : nat) :
  option_Forall2 nodeFrame (d1 !! i) (d2 !! i).
Proof using Hf. by apply Forall2_lookup. Qed.

Lemma frame_tagOf (i : nat) : tagOf d1 i = tagOf d2 i.
Proof using Hf. unfold tagOf. destruct (frame_lookup i) as [?? (?&?)|]; done. Qed.

Lemma frame_parentOf (i : nat) : parentOf d1 i = parentOf d2 i.
Proof using Hf. unfold parentOf. destruct (frame_lookup i) as [?? (?&?&?)|]; done. Qed.

Lemma frame_textOf (i : nat) : textOf d1 i = textOf d2 i.
Proof using Hf. unfold textOf. destruct (frame_lookup i) as [?? (?&?&?&?)|]; done. Qed.

Lemma frame_isElementAt (i : nat) : isElementAt d1 i = isElementAt d2 i.
Proof using Hf.
  unfold isElementAt. destruct (frame_lookup i) as [?? (Ht&?)|]; [by rewrite Ht|done].
Qed.

Lemma frame_isTextAt (i : nat) : isTextAt d1 i = isTextAt d2 i.
Proof using Hf.
  unfold isTextAt. destruct (frame_lookup i) as [?? (Ht&?)|]; [by rewrite Ht|done].
Qed.

Lemma frame_tagIs (i : nat) (t : string) : tagIs d1 i t = tagIs d2 i t.
Proof using Hf. unfold tagIs. by rewrite frame_isElementAt, frame_tagOf. Qed.

Lemma frame_hasClass (i : nat) (c : string) :
  c ≠ "expanded" → hasClass d1 i c = hasClass d2 i c.
Proof using Hf.
  intros Hc. unfold hasClass, classesOf.
  destruct (frame_lookup i) as [n n' (_&_&_&H)|]; [|done].
  apply bool_decide_ext. cbn. by apply H.
Qed.

Lemma frame_positions : positions d1 = positions d2.
Proof using Hf. unfold positions. by rewrite frame_length. Qed.

Lemma frame_ancestors (i : nat) : ancestors d1 i = ancestors d2 i.
Proof using Hf.
  unfold ancestors. rewrite <- frame_length. generalize (length d1) as fuel.
  intros fuel. revert i. induction fuel as [|fuel IH]; intros i; [done|].
  cbn. rewrite frame_parentOf. destruct (parentOf d2 i); [by rewrite IH|done].
Qed.

Lemma frame_isDescendantOf (root i : nat) :
  isDescendantOf d1 root i = isDescendantOf d2 root i.
Proof using Hf. unfold isDescendantOf. by rewrite frame_ancestors. Qed.

Lemma frame_isFirstChild (i : nat) : isFirstChild d1 i = isFirstChild d2 i.
Proof using Hf.
  unfold isFirstChild. f_equal. induction (seq 0 i) as [|j l IH]; [done|].
  cbn. by rewrite IH, frame_isElementAt, !frame_parentOf.
Qed.

End frame.

Lemma existsb_ext' {A} (f g : A → bool) (l : list A) :
  (∀ x, f x = g x) → existsb f l = existsb g l.
Proof. intros H. induction l as [|x l IH]; [done|]. cbn. by rewrite H, IH. Qed.

Lemma frame_matches (d1 d2 : Doc) (sel : Selector) (i : nat) :
  frameEq d1 d2 → frameSel sel = true → matches d1 sel i = matches d2 sel i.
Proof.
  intros Hf. revert i. induction sel as [t|c|a IHa s IHs|s1 IH1 s2 IH2|s IH sub|s IH];
    intros i Hsel; cbn in Hsel |- *;
    rewrite (frame_isElementAt _ _ Hf); f_equal.
  - by rewrite (frame_tagOf _ _ Hf).
  - apply (frame_hasClass _ _ Hf). intros ->. done.
  - apply andb_prop in Hsel as [Ha Hs].
    rewrite IHs, (frame_ancestors _ _ Hf) by done. f_equal.
    apply existsb_ext'. intros j. by apply IHa.
  - apply andb_prop in Hsel as [Ha Hs]. by rewrite IH1, IH2.
  - done.
  - by rewrite IH, (frame_isFirstChild _ _ Hf).
Qed.

Section frame_queries.
Context (d1 d2 : Doc) (Hf : frameEq d1 d2).

Lemma frame_querySelectorAll (sel : Selector) :
  frameSel sel = true → querySelectorAll sel d1 = querySelectorAll sel d2.
Proof using Hf.
  intros Hsel. unfold querySelectorAll. rewrite (frame_positions _ _ Hf).
  apply list_filter_iff. intros i. by rewrite (frame_matches _ _ _ _ Hf).
Qed.

Lemma frame_querySelector (sel : Selector) :
  frameSel sel = true → querySelector sel d1 = querySelector sel d2.
Proof using Hf. intros. unfold querySelector. by rewrite frame_querySelectorAll. Qed.

Lemma frame_querySelectorAllIn (root : nat) (sel : Selector) :
  frameSel sel = true →
  querySelectorAllIn root sel d1 = querySelectorAllIn root sel d2.
Proof using Hf.
  intros Hsel. unfold querySelectorAllIn. rewrite (frame_positions _ _ Hf).
  apply list_filter_iff. intros i.
  by rewrite (frame_matches _ _ _ _ Hf), (frame_isDescendantOf _ _ Hf).
Qed.

Lemma frame_querySelectorIn (root : nat) (sel : Selector) :
  frameSel sel = true → querySelectorIn root sel d1 = querySelectorIn root sel d2.
Proof using Hf. intros. unfold querySelectorIn. by rewrite frame_querySelectorAllIn. Qed.

Lemma frame_hasClosest (i : nat) (t : string) : hasClosest d1 i t = hasClosest d2 i t.
Proof using Hf.
  unfold hasClosest. rewrite (frame_ancestors _ _ Hf).
  apply existsb_ext'. intros a. apply (frame_tagIs _ _ Hf).
Qed.

Lemma frame_parentElement (i : nat) : parentElement i d1 = parentElement i d2.
Proof using Hf.
  unfold parentElement. rewrite (frame_parentOf _ _ Hf).
  destruct (parentOf d2 i); cbn; [|done]. by rewrite (frame_isElementAt _ _ Hf).
Qed.

Lemma frame_siblingsAfter (i : nat) : siblingsAfter i d1 = siblingsAfter i d2.
Proof using Hf.
  unfold siblingsAfter. rewrite (frame_positions _ _ Hf).
  apply list_filter_iff. intros j.
  by rewrite (frame_isElementAt _ _ Hf), !(frame_parentOf _ _ Hf).
Qed.

Lemma frame_textContent (i : nat) : textContent d1 i = textContent d2 i.
Proof using Hf.
  unfold textContent. rewrite (frame_positions _ _ Hf). f_equal.
  erewrite list_filter_iff.
  - apply list_fmap_ext. intros _ j _. apply (frame_textOf _ _ Hf).
  - intros j. cbn. by rewrite (frame_isTextAt _ _ Hf), (frame_isDescendantOf _ _ Hf).
Qed.

Lemma frame_documentBody : documentBody d1 = documentBody d2.
Proof using Hf. by apply frame_querySelector. Qed.

Lemma frame_isSkillsSection (section : nat) :
  isSkillsSection section d1 = isSkillsSection section d2.
Proof using Hf.
  unfold isSkillsSection. rewrite frame_querySelectorIn by done.
  destruct (querySelectorIn _ _ d2); [|done]. by rewrite frame_textContent.
Qed.

End frame_queries.

(** ** Views *)

Lemma viewEq_frameEq (d1 d2 : Doc) : viewEq d1 d2 → frameEq d1 d2.
Proof. intros H. eapply Forall2_impl; [exact H|]. by intros n n' [? _]. Qed.

Lemma styleHas_true (sub : string) (st : gmap string string) :
  styleHas sub st = true ↔ ∃ k v, st !! k = Some v ∧ declHas sub (k, v) = true.
Proof.
  unfold styleHas. rewrite existsb_exists. split.
  - intros [[k v] [Hin Hd]]. exists k, v. split; [|done].
    by apply elem_of_map_to_list, list_elem_of_In.
  - intros (k & v & Hl & Hd). exists (k, v). split; [|done].
    by apply list_elem_of_In, elem_of_map_to_list.
Qed.

Lemma styleHas_names (sub : string) (st : gmap string string) :
  valuesFree sub st → (styleHas sub st = true ↔ namesWord sub st).
Proof.
  intros Hfree. rewrite styleHas_true. unfold namesWord, declHas. split.
  - intros (k & v & Hl & Hd). exists k. split; [by eexists|].
    cbn in Hd. apply orb_prop in Hd as [?|Hv]; [done|]. by rewrite (Hfree _ _ Hl) in Hv.
  - intros (k & [v Hl] & Hk). exists k, v. split; [done|]. cbn. by rewrite Hk.
Qed.

Lemma bool_eq_iff (b1 b2 : bool) : (b1 = true ↔ b2 = true) → b1 = b2.
Proof. destruct b1, b2; intuition congruence. Qed.

(** On a transparent page the two attribute tests of the script are
    answered by the declarations. *)
Lemma transparent_at (d : Doc) (i : nat) :
  transparent d = true →
  (tagOf d i = "div" →
   styleAttrHas d i LINE_HEIGHT = styleHas LINE_HEIGHT (styleOf d i)) ∧
  (tagOf d i = "span" →
   styleAttrHas d i "color" = styleHas "color" (styleOf d i)).
Proof.
  intros Ht. destruct (decide (i < length d)%nat) as [Hi|Hi].
  - unfold transparent in Ht. rewrite forallb_forall in Ht.
    specialize (Ht i). cbv beta in Ht.
    assert (Hin : In i (positions d)).
    { apply list_elem_of_In, elem_of_seq. lia. }
    apply Ht, andb_prop in Hin as [H1 H2]. unfold plainAbout in *. split; intros E.
    + rewrite E in H1. cbn in H1. by apply Bool.eqb_prop.
    + rewrite E in H2. cbn in H2. by apply Bool.eqb_prop.
  - unfold tagOf, Doc in *. rewrite (proj2 (lookup_ge_None d i)) by lia. cbn.
    split; intros [=].
Qed.

Section view.
Context (d1 d2 : Doc) (Hv : viewEq d1 d2).
Context (Ht1 : transparent d1 = true) (Ht2 : transparent d2 = true).

Lemma view_lookup (i : nat) : option_Forall2 nodeView (d1 !! i) (d2 !! i).
Proof using Hv. by apply Forall2_lookup. Qed.

Lemma view_tagOf (i : nat) : tagOf d1 i = tagOf d2 i.
Proof using Hv.
  unfold tagOf. by destruct (view_lookup i) as [n n' ((?&_)&_)|].
Qed.

Lemma view_lineHeightDiv (i : nat) :
  tagOf d1 i = "div" →
  styleAttrHas d1 i LINE_HEIGHT = styleAttrHas d2 i LINE_HEIGHT.
Proof using Hv Ht1 Ht2.
  intros Ht.
  rewrite (proj1 (transparent_at d1 i Ht1) Ht).
  rewrite (proj1 (transparent_at d2 i Ht2)) by (by rewrite <- view_tagOf).
  revert Ht. unfold tagOf, styleOf.
  destruct (view_lookup i) as [n n' (_&_&Hdiv)|]; [|done]. cbn.
  intros Ht. destruct (Hdiv Ht) as (Hn & Hf1 & Hf2).
  apply bool_eq_iff. by rewrite !styleHas_names.
Qed.

Lemma view_inlineBlock (i : nat) :
  tagOf d1 i = "strong" →
  bool_decide (styleGet d1 i "display" = Some "inline-block")
  = bool_decide (styleGet d2 i "display" = Some "inline-block").
Proof using Hv.
  unfold tagOf, styleGet, styleOf.
  destruct (view_lookup i) as [n n' (_&Hs&_)|]; [|done]. cbn.
  intros Ht. apply bool_decide_ext, Hs, Ht.
Qed.

(** [div[style*="line-height"]] sees the same elements. *)
Lemma view_matches_lineHeightDiv (i : nat) :
  matches d1 (SelStyleHas (SelTag "div") LINE_HEIGHT) i
  = matches d2 (SelStyleHas (SelTag "div") LINE_HEIGHT) i.
Proof using Hv Ht1 Ht2.
  pose proof (viewEq_frameEq _ _ Hv) as Hf. cbn.
  rewrite <- (frame_isElementAt _ _ Hf), <- (frame_tagOf _ _ Hf).
  destruct (isElementAt d1 i); [|done]. cbn.
  destruct (String.eqb_spec (tagOf d1 i) "div") as [Ht|]; [|done]. cbn.
  by apply view_lineHeightDiv.
Qed.

Lemma view_querySelectorAllIn_lineHeightDiv (root : nat) :
  querySelectorAllIn root (SelStyleHas (SelTag "div") LINE_HEIGHT) d1
  = querySelectorAllIn root (SelStyleHas (SelTag "div") LINE_HEIGHT) d2.
Proof using Hv Ht1 Ht2.
  pose proof (viewEq_frameEq _ _ Hv) as Hf.
  unfold querySelectorAllIn. rewrite (frame_positions _ _ Hf).
  apply list_filter_iff. intros i.
  by rewrite view_matches_lineHeightDiv, (frame_isDescendantOf _ _ Hf).
Qed.

End view.

(** The same write on two pages that look the same. *)
Lemma valuesFree_insert (sub k v : string) (st : gmap string string) :
  includes sub v = false → valuesFree sub st → valuesFree sub (<[k := v]> st).
Proof.
  intros Hv Hst k' v'. rewrite lookup_insert. case_decide; [naive_solver|apply Hst].
Qed.

Lemma namesWord_insert (sub k v : string) (st : gmap string string) :
  namesWord sub (<[k := v]> st) ↔ includes sub (cssName k) = true ∨ namesWord sub st.
Proof.
  unfold namesWord. split.
  - intros (k' & Hs & Hk). rewrite lookup_insert_is_Some in Hs.
    destruct Hs as [->|[_ Hs]]; [by left|right; eauto].
  - intros [Hk|(k' & Hs & Hk)].
    + exists k. by rewrite lookup_insert_eq.
    + exists k'. split; [|done]. rewrite lookup_insert_is_Some.
      destruct (decide (k = k')); auto.
Qed.

Lemma nodeView_onNode (w : Write) (n n' : Node) :
  okW w = true → nodeView n n' → nodeView (onNode w n) (onNode w n').
Proof.
  intros Hw ((Ht & Hp & Hx & Hc) & Hs & Hd).
  destruct w as [i k v|i c|i s]; unfold nodeView, nodeFrame, inlineBlock in *;
    cbn [onNode assign withClasses withSrc style tag parent text classList src okW] in *.
  - apply andb_prop in Hw as [Hw _]. apply negb_true_iff in Hw. split_and!; try done.
    + intros Hstrong. rewrite !lookup_insert.
      case_decide; [done|]. by apply Hs.
    + intros Hdiv. destruct (Hd Hdiv) as (Hn & Hf1 & Hf2). split_and!.
      * rewrite !namesWord_insert. by rewrite Hn.
      * by apply valuesFree_insert.
      * by apply valuesFree_insert.
  - split_and!; try done. intros c' Hc'. rewrite !elem_of_addToken. by rewrite Hc.
  - done.
Qed.

Lemma viewEq_applyWrite (d1 d2 : Doc) (w : Write) :
  okW w = true → viewEq d1 d2 → viewEq (applyWrite d1 w) (applyWrite d2 w).
Proof.
  intros Hw Hv. rewrite !applyWrite_alter. apply Forall2_alter; [done|].
  intros n n' _ _. by apply nodeView_onNode.
Qed.

Lemma viewEq_run (ws : list Write) (d1 d2 : Doc) :
  Forall (λ w, okW w = true) ws → viewEq d1 d2 → viewEq (run ws d1) (run ws d2).
Proof.
  intros Hws. revert d1 d2. induction Hws as [|w ws Hw _ IH]; intros d1 d2 Hv; [done|].
  rewrite !run_cons. by apply IH, viewEq_applyWrite.
Qed.

(** ** Sound scripts *)


Lemma viewW_refines (d0 : Doc) : refines (viewW d0).
Proof. intros w H. unfold viewW in H. by apply andb_prop in H as [? _]. Qed.

Lemma layoutW_viewW (d0 : Doc) (w : Write) : layoutW d0 w = true → viewW d0 w = true.
Proof. unfold layoutW. by intros [? _]%andb_prop. Qed.

Lemma layoutW_refines (d0 : Doc) : refines (layoutW d0).
Proof. intros w H. by apply (viewW_refines d0), layoutW_viewW. Qed.

Lemma Forall_refines (Φ : Write → bool) (ws : list Write) :
  refines Φ → Forall (λ w, Φ w = true) ws → Forall (λ w, okW w = true) ws.
Proof. intros H Hws. eapply Forall_impl; [exact Hws|apply H]. Qed.

(** *** Clear runs *)

Lemma bind_query {A B} (q : Doc → A) (k : A → Script B) (d : Doc) :
  bind (query q) k d = k (q d) d.
Proof. unfold bind, query. cbn. by destruct (k (q d) d). Qed.

Lemma states_unfold (ws : list Write) (d : Doc) :
  states ws d = d :: match ws with
                     | [] => []
                     | w :: ws' => states ws' (applyWrite d w)
                     end.
Proof. by destruct ws. Qed.

Lemma Forall_states_app (P : Doc → Prop) (l1 l2 : list Write) (d : Doc) :
  Forall P (states (l1 ++ l2) d)
  ↔ Forall P (states l1 d) ∧ Forall P (states l2 (run l1 d)).
Proof.
  revert d. induction l1 as [|w l1 IH]; intros d.
  - cbn [app run foldl]. rewrite (states_unfold [] d), Forall_singleton.
    rewrite (states_unfold l2 d), Forall_cons. tauto.
  - rewrite <- app_comm_cons, (states_unfold (_ :: _ ++ _)), (states_unfold (_ :: l1)).
    rewrite !Forall_cons, IH. cbn [run foldl]. tauto.
Qed.

Lemma Forall_states_head (P : Doc → Prop) (ws : list Write) (d : Doc) :
  Forall P (states ws d) → P d.
Proof. rewrite states_unfold. by intros ?%Forall_inv. Qed.

Lemma clear_head {A} (m : Script A) (d : Doc) : clear m d → transparent d = true.
Proof. apply Forall_states_head. Qed.

Lemma clear_bind {A B} (m : Script A) (k : A → Script B) (d : Doc) :
  clear (bind m k) d →
  clear m d ∧
  ∀ a l1, m d = (Ok a, l1) → clear (k a) (run l1 d).
Proof.
  unfold clear, bind. destruct (m d) as [[a|e] l1] eqn:Hm; cbn [snd].
  - destruct (k a (run l1 d)) as [r l2] eqn:Hk. cbn [snd].
    rewrite Forall_states_app. intros [H1 H2]. split; [done|].
    intros a' l1' [= <- <-]. by rewrite Hk.
  - intros H. split; [done|]. intros ?? [=].
Qed.

Section sound.
Context {A B : Type} (d0 : Doc) (Φ : Write → bool).

Lemma sound_ret (a : A) : sound d0 Φ (ret a).
Proof. intros d1 _. split; [constructor|done]. Qed.

Lemma sound_throw (e : JsError) : sound d0 Φ (@throw A e).
Proof. intros d1 _. split; [constructor|done]. Qed.

Lemma sound_write (w : Write) : Φ w = true → sound d0 Φ (write w).
Proof. intros Hw d1 _. split; [by repeat constructor|done]. Qed.

Lemma sound_bind (m : Script A) (k : A → Script B) :
  refines Φ → sound d0 Φ m → (∀ a, sound d0 Φ (k a)) → sound d0 Φ (bind m k).
Proof.
  intros Hok Hm Hk d1 Hf. destruct (Hm d1 Hf) as [Hl1 Hm2].
  assert (Hsplit : Forall (λ w, Φ w = true) (bind m k d1).2).
  { unfold bind. destruct (m d1) as [[a|e] l1] eqn:Hm1; cbn in Hl1; [|done].
    assert (frameEq d0 (run l1 d1)) as Hf1.
    { eapply frameEq_trans; [done|]. by apply frameEq_run, (Forall_refines Φ). }
    destruct (Hk a _ Hf1) as [Hl2 _].
    destruct (k a (run l1 d1)) as [r l2]. by apply Forall_app. }
  split; [done|]. intros d2 Hv Hc1 Hc2.
  apply clear_bind in Hc1 as [Hc1 Hk1]. apply clear_bind in Hc2 as [Hc2 Hk2].
  specialize (Hm2 d2 Hv Hc1 Hc2). unfold bind. rewrite Hm2.
  destruct (m d1) as [[a|e] l1] eqn:Hm1; cbn in Hl1; [|done].
  assert (frameEq d0 (run l1 d1)) as Hf1.
  { eapply frameEq_trans; [done|]. by apply frameEq_run, (Forall_refines Φ). }
  destruct (Hk a _ Hf1) as [_ Hk3].
  rewrite (Hk3 (run l1 d2)); [done| |by apply Hk1|by apply Hk2].
  apply viewEq_run; [by apply (Forall_refines Φ)|done].
Qed.

(** A read followed by what depends on it: the continuation is
    checked for the answers the read gives on pages of this frame. *)
Lemma sound_query_bind (q : Doc → A) (k : A → Script B) :
  (∀ d1 d2, frameEq d0 d1 → viewEq d1 d2 →
            transparent d1 = true → transparent d2 = true → q d2 = q d1) →
  (∀ d1, frameEq d0 d1 → sound d0 Φ (k (q d1))) →
  sound d0 Φ (bind (query q) k).
Proof.
  intros Hq Hk d1 Hf. rewrite bind_query.
  destruct (Hk d1 Hf d1 Hf) as [Hl Hk2]. split; [done|].
  intros d2 Hv Hc1 Hc2. unfold clear in Hc1, Hc2. rewrite bind_query in Hc1, Hc2.
  assert (Hq12 : q d2 = q d1).
  { apply Hq; [done..| |].
    - exact (Forall_states_head (λ s, transparent s = true) _ _ Hc1).
    - exact (Forall_states_head (λ s, transparent s = true) _ _ Hc2). }
  rewrite bind_query, Hq12. rewrite Hq12 in Hc2. by apply Hk2.
Qed.

End sound.

Lemma sound_forEach {A} (d0 : Doc) (Φ : Write → bool) (l : list A)
      (body : A → Script unit) :
  refines Φ → (∀ x, x ∈ l → sound d0 Φ (body x)) → sound d0 Φ (forEach l body).
Proof.
  intros Hok. induction l as [|x l IH]; intros Hbody; cbn [forEach].
  - apply sound_ret.
  - apply sound_bind; [done|apply Hbody; by left|intros _].
    apply IH. intros y Hy. apply Hbody. by right.
Qed.

Lemma sound_weaken {A} (d0 : Doc) (Φ Ψ : Write → bool) (m : Script A) :
  (∀ w, Φ w = true → Ψ w = true) → sound d0 Φ m → sound d0 Ψ m.
Proof.
  intros H Hm d1 Hf. destruct (Hm d1 Hf) as [Hl ?]. split; [|done].
  eapply Forall_impl; [exact Hl|]. apply H.
Qed.

Lemma sound_setStyles (d0 : Doc) (Φ : Write → bool) (i : nat)
      (decls : list (string * string)) :
  refines Φ →
  Forall (λ kv, Φ (SetStyle i kv.1 kv.2) = true) decls →
  sound d0 Φ (setStyles i decls).
Proof.
  intros Hok Hd. apply sound_forEach; [done|]. intros kv Hkv.
  apply sound_write. by eapply Forall_forall in Hd.
Qed.

(** A frame read gives the same answer on pages that look the same. *)
Ltac frame_rewrite Hf12 :=
  cbn beta;
  rewrite <- ?(frame_tagIs _ _ Hf12), <- ?(frame_hasClass _ _ Hf12) by done;
  rewrite <- ?(frame_hasClosest _ _ Hf12), <- ?(frame_textContent _ _ Hf12);
  rewrite <- ?(frame_querySelectorIn _ _ Hf12) by done;
  rewrite <- ?(frame_querySelectorAllIn _ _ Hf12) by done;
  rewrite <- ?(frame_querySelector _ _ Hf12) by done;
  rewrite <- ?(frame_querySelectorAll _ _ Hf12) by done;
  rewrite <- ?(frame_isSkillsSection _ _ Hf12);
  rewrite <- ?(frame_siblingsAfter _ _ Hf12), <- ?(frame_parentElement _ _ Hf12);
  rewrite <- ?(frame_documentBody _ _ Hf12).

Ltac stable_read :=
  let d1 := fresh "d1" in let d2 := fresh "d2" in
  let Hf := fresh "Hf" in let Hv := fresh "Hv" in
  let Ht1 := fresh "Ht1" in let Ht2 := fresh "Ht2" in
  intros d1 d2 Hf Hv Ht1 Ht2;
  first
    [ symmetry; apply (view_querySelectorAllIn_lineHeightDiv _ _ Hv Ht1 Ht2)
    | let Hf12 := fresh "Hf12" in
      pose proof (viewEq_frameEq _ _ Hv) as Hf12;
      frame_rewrite Hf12; reflexivity ].

Ltac sound_step Hok :=
  lazymatch goal with
  | |- sound _ _ (bind (query _) _) =>
      apply sound_query_bind; [stable_read|intros ? ?]
  | |- sound _ _ (bind _ _) => apply sound_bind; [exact Hok| |intros ?]
  | |- sound _ _ (forEach _ _) => apply sound_forEach; [exact Hok|intros ? ?]
  | |- sound _ _ (styleAll _ _) => unfold styleAll
  | |- sound _ _ (setStyles _ _) =>
      apply sound_setStyles; [exact Hok|repeat constructor]
  | |- sound _ _ (setStyle _ _ _) => apply sound_write
  | |- sound _ _ (write _) => apply sound_write
  | |- sound _ _ (ret _) => apply sound_ret
  | |- sound _ _ (throw _) => apply sound_throw
  | |- sound _ _ (when ?b _) => destruct b eqn:?; cbn [when]
  | |- sound _ _ (whenSome ?o _) => destruct o eqn:?; cbn [whenSome]
  | |- sound _ _ (avoidBreakBefore _) => unfold avoidBreakBefore
  | |- sound _ _ (avoidBreakAfter _) => unfold avoidBreakAfter
  | |- sound _ _ theBody => unfold theBody
  | |- sound _ _ (match ?x with _ => _ end) => destruct x eqn:?
  | |- sound _ _ (if ?x then _ else _) => destruct x eqn:?
  end.

Ltac sound_auto Hok := repeat (sound_step Hok); try reflexivity.

Section blocks.
Context (d0 : Doc).

Lemma sound_whiteBackground : sound d0 (viewW d0) whiteBackground.
Proof. pose proof (viewW_refines d0) as Hok. unfold whiteBackground. sound_auto Hok. Qed.

Lemma sound_styleSectionTitles : sound d0 (viewW d0) styleSectionTitles.
Proof. pose proof (viewW_refines d0) as Hok. unfold styleSectionTitles. sound_auto Hok. Qed.

Lemma sound_styleHeadings : sound d0 (viewW d0) styleHeadings.
Proof. pose proof (viewW_refines d0) as Hok. unfold styleHeadings. sound_auto Hok. Qed.

Lemma sound_bodyTextColor : sound d0 (viewW d0) bodyTextColor.
Proof. pose proof (viewW_refines d0) as Hok. unfold bodyTextColor. sound_auto Hok. Qed.

Lemma sound_textColors : sound d0 (viewW d0) textColors.
Proof. pose proof (viewW_refines d0) as Hok. unfold textColors. sound_auto Hok. Qed.

Lemma sound_skillCategories : sound d0 (viewW d0) skillCategories.
Proof. pose proof (viewW_refines d0) as Hok. unfold skillCategories. sound_auto Hok. Qed.

End blocks.

Lemma elem_of_querySelectorAll (sel : Selector) (d : Doc) (x : nat) :
  x ∈ querySelectorAll sel d → matches d sel x = true.
Proof. unfold querySelectorAll. rewrite list_elem_of_filter. tauto. Qed.

Lemma elem_of_querySelectorAllIn (root : nat) (sel : Selector) (d : Doc) (x : nat) :
  x ∈ querySelectorAllIn root sel d → matches d sel x = true.
Proof.
  unfold querySelectorAllIn. rewrite list_elem_of_filter.
  intros [[_ ?]%andb_prop _]. done.
Qed.

Lemma querySelector_Some (sel : Selector) (d : Doc) (x : nat) :
  querySelector sel d = Some x → matches d sel x = true.
Proof. intros H%head_Some_elem_of. by apply elem_of_querySelectorAll in H. Qed.

Lemma matches_SelTag (d : Doc) (t : string) (x : nat) :
  matches d (SelTag t) x = true → tagOf d x = t.
Proof. cbn. intros [_ H]%andb_prop. by apply String.eqb_eq. Qed.

Lemma tagIs_tagOf (d : Doc) (t : string) (x : nat) :
  tagIs d x t = true → tagOf d x = t.
Proof. unfold tagIs. intros [_ H]%andb_prop. by apply String.eqb_eq. Qed.

Section blocks2.
Context (d0 : Doc).

Lemma viewW_lineHeight_on_p (p : nat) (v : string) :
  tagOf d0 p = "p" → okW (SetStyle p "lineHeight" v) = true →
  viewW d0 (SetStyle p "lineHeight" v) = true.
Proof. intros Ht Hv. unfold viewW. rewrite Hv. cbn. by rewrite Ht. Qed.

Lemma sound_skillsParagraphs : sound d0 (viewW d0) skillsParagraphs.
Proof.
  pose proof (viewW_refines d0) as Hok. unfold skillsParagraphs. sound_auto Hok.
  match goal with
  | Hf : frameEq d0 ?d, H : _ ∈ querySelectorAllIn _ (SelTag "p") ?d |- _ =>
      apply elem_of_querySelectorAllIn, matches_SelTag in H;
      rewrite <- (frame_tagOf _ _ Hf) in H
  end.
  by apply viewW_lineHeight_on_p.
Qed.

End blocks2.

Section blocks3.
Context (d0 : Doc).

Ltac tag_of_query :=
  match goal with
  | Hf : frameEq d0 ?d, H : _ ∈ querySelectorAllIn _ (SelTag _) ?d |- _ =>
      apply elem_of_querySelectorAllIn, matches_SelTag in H;
      rewrite <- (frame_tagOf _ _ Hf) in H
  | Hf : frameEq d0 ?d, H : _ ∈ querySelectorAll (SelTag _) ?d |- _ =>
      apply elem_of_querySelectorAll, matches_SelTag in H;
      rewrite <- (frame_tagOf _ _ Hf) in H
  | Hf : frameEq d0 ?d, H : querySelector (SelTag _) ?d = Some _ |- _ =>
      apply querySelector_Some, matches_SelTag in H;
      rewrite <- (frame_tagOf _ _ Hf) in H
  end.

Lemma sound_skillsSection : sound d0 (viewW d0) skillsSection.
Proof.
  pose proof (viewW_refines d0) as Hok. unfold skillsSection. sound_auto Hok.
  - tag_of_query. by apply viewW_lineHeight_on_p.
  - (* the read of [display] on a [strong] *)
    tag_of_query.
    apply sound_query_bind.
    + intros d1' d2' Hf' Hv'. symmetry. apply (view_inlineBlock _ _ Hv').
      by rewrite <- (frame_tagOf _ _ Hf').
    + intros d1' Hf'. sound_auto Hok.
Qed.

Lemma sound_printPalette : sound d0 (viewW d0) printPalette.
Proof.
  pose proof (viewW_refines d0) as Hok. unfold printPalette.
  apply sound_bind; [exact Hok|apply sound_whiteBackground|intros _].
  apply sound_bind; [exact Hok|apply sound_styleSectionTitles|intros _].
  apply sound_bind; [exact Hok|apply sound_styleHeadings|intros _].
  apply sound_bind; [exact Hok|apply sound_bodyTextColor|intros _].
  apply sound_bind; [exact Hok|apply sound_textColors|intros _].
  apply sound_bind; [exact Hok|apply sound_skillsParagraphs|intros _].
  apply sound_bind; [exact Hok|apply sound_skillCategories|intros _].
  apply sound_skillsSection.
Qed.

(** *** The layout part *)

Lemma sound_profileImage : sound d0 (layoutW d0) profileImage.
Proof. pose proof (layoutW_refines d0) as Hok. unfold profileImage. sound_auto Hok. Qed.

Lemma sound_bodyOrphansWidows : sound d0 (layoutW d0) bodyOrphansWidows.
Proof. pose proof (layoutW_refines d0) as Hok. unfold bodyOrphansWidows. sound_auto Hok. Qed.

Lemma sound_sectionTitleBreaks : sound d0 (layoutW d0) sectionTitleBreaks.
Proof. pose proof (layoutW_refines d0) as Hok. unfold sectionTitleBreaks. sound_auto Hok. Qed.

Lemma sound_keepFirstProject (content : nat) : sound d0 (layoutW d0) (keepFirstProject content).
Proof. pose proof (layoutW_refines d0) as Hok. unfold keepFirstProject. sound_auto Hok. Qed.

Lemma sound_companySiblings (siblings : list nat) :
  sound d0 (layoutW d0) (companySiblings siblings).
Proof.
  pose proof (layoutW_refines d0) as Hok.
  induction siblings as [|next rest IH]; cbn [companySiblings]; [apply sound_ret|].
  sound_auto Hok; [apply sound_keepFirstProject|apply IH].
Qed.

Lemma sound_companyHeaders : sound d0 (layoutW d0) companyHeaders.
Proof.
  pose proof (layoutW_refines d0) as Hok. unfold companyHeaders. sound_auto Hok.
  apply sound_companySiblings.
Qed.

Lemma sound_projectSiblings (siblings : list nat) :
  sound d0 (layoutW d0) (projectSiblings siblings).
Proof.
  pose proof (layoutW_refines d0) as Hok.
  induction siblings as [|next rest IH]; cbn [projectSiblings]; [apply sound_ret|].
  sound_auto Hok. apply IH.
Qed.

Lemma sound_projectHeaders : sound d0 (layoutW d0) projectHeaders.
Proof.
  pose proof (layoutW_refines d0) as Hok. unfold projectHeaders. sound_auto Hok.
  apply sound_projectSiblings.
Qed.

Lemma sound_listItemBreaks : sound d0 (layoutW d0) listItemBreaks.
Proof. pose proof (layoutW_refines d0) as Hok. unfold listItemBreaks. sound_auto Hok. Qed.

Lemma sound_sectionBreaks : sound d0 (layoutW d0) sectionBreaks.
Proof. pose proof (layoutW_refines d0) as Hok. unfold sectionBreaks. sound_auto Hok. Qed.

Lemma sound_expandCollapsible : sound d0 (layoutW d0) expandCollapsible.
Proof.
  pose proof (layoutW_refines d0) as Hok. unfold expandCollapsible, COLLAPSIBLE.
  sound_auto Hok.
Qed.

Lemma layoutW_display_none (i : nat) :
  inlineBlockStrong d0 i = false → layoutW d0 (SetStyle i "display" "none") = true.
Proof. intros H. unfold layoutW, viewW. cbn. by rewrite H. Qed.

Lemma inlineBlockStrong_other_tag (i : nat) (t : string) :
  tagOf d0 i = t → t ≠ "strong" → inlineBlockStrong d0 i = false.
Proof.
  intros Ht Hne. unfold inlineBlockStrong. rewrite Ht.
  by destruct (String.eqb_spec t "strong").
Qed.

Lemma layoutW_color_not_span (i : nat) (k v : string) (t : string) :
  tagOf d0 i = t → String.eqb t "span" = false →
  viewW d0 (SetStyle i k v) = true →
  layoutW d0 (SetStyle i k v) = true.
Proof.
  intros Ht Hne Hv. unfold layoutW. rewrite Hv, Ht, Hne. cbn. by destruct (declHas _ _).
Qed.

Hypothesis Hhidden : ∀ i, i ∈ hidden d0 → inlineBlockStrong d0 i = false.

Lemma sound_hideFooter : sound d0 (layoutW d0) hideFooter.
Proof using Hhidden.
  pose proof (layoutW_refines d0) as Hok. unfold hideFooter. sound_auto Hok.
  apply layoutW_display_none, Hhidden. unfold hidden.
  match goal with
  | Hf : frameEq d0 ?d, H : querySelector _ ?d = Some _ |- _ =>
      rewrite <- (frame_querySelector _ _ Hf) in H by done; rewrite H
  end.
  set_solver.
Qed.

Lemma sound_hideDownloadButton : sound d0 (layoutW d0) hideDownloadButton.
Proof using Hhidden.
  pose proof (layoutW_refines d0) as Hok. unfold hideDownloadButton. sound_auto Hok.
  - apply layoutW_display_none, Hhidden. unfold hidden.
    match goal with
    | Hf : frameEq d0 ?d, H : querySelector _ ?d = Some _ |- _ =>
        rewrite <- (frame_querySelector _ _ Hf) in H by done; rewrite H
    end.
    set_solver.
  - apply layoutW_display_none.
    match goal with
    | Hf : frameEq d0 ?d, H : tagIs ?d _ "p" = true |- _ =>
        apply tagIs_tagOf in H; rewrite <- (frame_tagOf _ _ Hf) in H;
        by eapply inlineBlockStrong_other_tag
    end.
Qed.

Lemma sound_optimizeLinks : sound d0 (layoutW d0) optimizeLinks.
Proof.
  pose proof (layoutW_refines d0) as Hok. unfold optimizeLinks. sound_auto Hok.
  tag_of_query. by eapply layoutW_color_not_span.
Qed.

Lemma sound_headerBorder : sound d0 (layoutW d0) headerBorder.
Proof.
  pose proof (layoutW_refines d0) as Hok. unfold headerBorder. sound_auto Hok.
  tag_of_query. by eapply layoutW_color_not_span.
Qed.

Lemma sound_optimizeImages : sound d0 (layoutW d0) optimizeImages.
Proof. pose proof (layoutW_refines d0) as Hok. unfold optimizeImages. sound_auto Hok. Qed.

Lemma sound_printLayout : sound d0 (layoutW d0) printLayout.
Proof using Hhidden.
  pose proof (layoutW_refines d0) as Hok. unfold printLayout.
  apply sound_bind; [exact Hok|apply sound_profileImage|intros _].
  apply sound_bind; [exact Hok|apply sound_bodyOrphansWidows|intros _].
  apply sound_bind; [exact Hok|apply sound_sectionTitleBreaks|intros _].
  apply sound_bind; [exact Hok|apply sound_companyHeaders|intros _].
  apply sound_bind; [exact Hok|apply sound_projectHeaders|intros _].
  apply sound_bind; [exact Hok|apply sound_listItemBreaks|intros _].
  apply sound_bind; [exact Hok|apply sound_sectionBreaks|intros _].
  apply sound_bind; [exact Hok|apply sound_expandCollapsible|intros _].
  apply sound_bind; [exact Hok|apply sound_hideFooter|intros _].
  apply sound_bind; [exact Hok|apply sound_hideDownloadButton|intros _].
  apply sound_bind; [exact Hok|apply sound_optimizeLinks|intros _].
  apply sound_bind; [exact Hok|apply sound_headerBorder|intros _].
  apply sound_optimizeImages.
Qed.

End blocks3.

(** ** Strings *)

Lemma app_cons (c : Ascii.ascii) (x y : string) :
  String c x +:+ y = String c (x +:+ y).
Proof. done. Qed.

Lemma includes_cons (sub : string) (c : Ascii.ascii) (s : string) :
  includes sub (String c s) = startsWith sub (String c s) || includes sub s.
Proof. done. Qed.

Lemma includes_nil (sub : string) : includes sub "" = startsWith sub "".
Proof. cbn. apply orb_false_r. Qed.

Lemma startsWith_app (p x y : string) :
  startsWith p x = true → startsWith p (x +:+ y) = true.
Proof.
  revert x. induction p as [|a p IH]; intros x; [done|].
  destruct x as [|b x]; [done|]. rewrite app_cons. cbn.
  intros [-> H]%andb_prop. by rewrite IH.
Qed.

Lemma startsWith_dropS (p s : string) :
  startsWith p s = true → s = p +:+ dropS (String.length p) s.
Proof.
  revert s. induction p as [|a p IH]; intros s; [done|].
  destruct s as [|b s]; [done|]. cbn.
  intros [Hab H]%andb_prop. apply Ascii.eqb_eq in Hab as ->.
  rewrite app_cons. f_equal. by apply IH.
Qed.

Lemma startsWith_app_includes (p q x : string) :
  startsWith (p +:+ q) x = true → includes q x = true.
Proof.
  revert x. induction p as [|a p IH]; intros x.
  - change ("" +:+ q) with q. intros H. destruct x; cbn; by rewrite H.
  - rewrite app_cons. destruct x as [|b x]; [done|]. cbn.
    intros [_ H%IH]%andb_prop. rewrite H. apply orb_true_r.
Qed.

(** A string that contains [p ++ q] contains [q]. *)
Lemma includes_suffix (p q s : string) :
  includes (p +:+ q) s = true → includes q s = true.
Proof.
  induction s as [|c s IH].
  - rewrite includes_nil. apply startsWith_app_includes.
  - rewrite !includes_cons. intros [H|H]%orb_prop.
    + apply startsWith_app_includes in H. by rewrite includes_cons in H.
    + rewrite (IH H). apply orb_true_r.
Qed.

Lemma cut_None (sep s : string) : cut sep s = None → includes sep s = false.
Proof.
  induction s as [|c s IH]; cbn [cut].
  - rewrite includes_nil. by destruct (startsWith sep "").
  - rewrite includes_cons. destruct (startsWith sep (String c s)); [done|].
    destruct (cut sep s); [done|]. intros _. by rewrite IH.
Qed.

Lemma cut_app (sep s a r : string) :
  cut sep s = Some (a, r) → s = a +:+ (sep +:+ r).
Proof.
  revert a. induction s as [|c s IH]; intros a; cbn [cut].
  - destruct (startsWith sep "") eqn:Hp; [|done].
    intros [= <- <-]. by apply startsWith_dropS in Hp.
  - destruct (startsWith sep (String c s)) eqn:Hp.
    + intros [= <- <-]. by apply startsWith_dropS in Hp.
    + destruct (cut sep s) as [[a' r']|]; [|done]. cbn.
      intros [= <- <-]. rewrite app_cons. f_equal. by apply IH.
Qed.

(** The text before the leftmost occurrence holds no occurrence. *)
Lemma cut_Some_free (sep s a r : string) :
  sep ≠ "" → cut sep s = Some (a, r) → includes sep a = false.
Proof.
  intros Hsep. revert a. induction s as [|c s IH]; intros a; cbn [cut].
  - destruct (startsWith sep "") eqn:Hp; [|done].
    intros [= <- <-]. by destruct sep.
  - destruct (startsWith sep (String c s)) eqn:Hp.
    + intros [= <- <-]. by destruct sep.
    + destruct (cut sep s) as [[a' r']|] eqn:Hcut; [|done]. cbn.
      intros [= <- <-]. rewrite includes_cons, (IH a' eq_refl), orb_false_r.
      apply cut_app in Hcut. subst s.
      destruct (startsWith sep (String c a')) eqn:Hp'; [|done].
      apply (startsWith_app _ _ (sep +:+ r')) in Hp'. rewrite app_cons in Hp'. congruence.
Qed.

Lemma length_app (x y : string) :
  String.length (x +:+ y) = (String.length x + String.length y)%nat.
Proof. induction x as [|c x IH]; [done|]. rewrite app_cons. cbn. by rewrite IH. Qed.

Lemma cut_length (sep s a r : string) :
  cut sep s = Some (a, r) →
  String.length s = (String.length a + (String.length sep + String.length r))%nat.
Proof. intros ->%cut_app. by rewrite !length_app. Qed.

(** The second piece of a split holds no separator. *)
Lemma split_second_free (sep s seg : string) :
  sep ≠ "" → split sep s !! 1%nat = Some seg → includes sep seg = false.
Proof.
  intros Hsep. unfold split.
  destruct (String.length s) as [|fuel] eqn:Hlen; [done|]. cbn [splitN].
  destruct (cut sep s) as [[a rest]|] eqn:Hcut; [|done]. cbn.
  destruct fuel as [|fuel]; cbn [splitN].
  - intros [= <-]. apply cut_length in Hcut. rewrite Hlen in Hcut.
    destruct sep as [|c sep]; [done|]. cbn in Hcut.
    destruct rest; [done|cbn in Hcut; lia].
  - destruct (cut sep rest) as [[b rest']|] eqn:Hcut'; cbn.
    + intros [= <-]. by eapply cut_Some_free.
    + intros [= <-]. by apply cut_None.
Qed.

Lemma split_second_Some (sep s : string) :
  includes sep s = true → s ≠ "" → is_Some (split sep s !! 1%nat).
Proof.
  intros Hinc Hs. unfold split.
  destruct s as [|c s]; [done|]. cbn [String.length splitN].
  destruct (cut sep (String c s)) as [[a rest]|] eqn:Hcut.
  - cbn. destruct (String.length s); cbn [splitN]; [by eexists|].
    destruct (cut sep rest) as [[??]|]; by eexists.
  - apply cut_None in Hcut. congruence.
Qed.

Lemma hosted_assets_split : HOSTED_ASSETS = "arnauudg.github.io" +:+ "/assets/".
Proof. done. Qed.

Lemma includes_assets_prefix (x : string) :
  includes HOSTED_ASSETS x = false →
  includes HOSTED_ASSETS ("assets/" +:+ x) = false.
Proof.
  intros Hx.
  repeat (rewrite app_cons, includes_cons).
  change ("" +:+ x) with x. rewrite Hx. reflexivity.
Qed.

(** A rewritten source is never rewritten again. *)
Lemma isHosted_relativeSource (s : string) : isHosted (relativeSource s) = false.
Proof.
  unfold isHosted. apply andb_false_iff. right.
  unfold relativeSource. apply includes_assets_prefix.
  destruct (split "/assets/" s !! 1%nat) as [seg|] eqn:Hsplit; cbn [interpolate default].
  - apply split_second_free in Hsplit; [|done].
    destruct (includes HOSTED_ASSETS seg) eqn:Hinc; [|done].
    rewrite hosted_assets_split in Hinc. apply includes_suffix in Hinc. congruence.
  - vm_compute. done.
Qed.

(** ** The rewrite of the image sources *)

Lemma srcOf_applyWrite (d : Doc) (w : Write) (j : nat) :
  srcOf (applyWrite d w) j
  = match w with
    | SetSrc i s => if decide (i = j ∧ (j < length d)%nat) then s else srcOf d j
    | _ => srcOf d j
    end.
Proof.
  unfold srcOf. rewrite lookup_applyWrite.
  destruct w as [i k v|i c|i s]; cbn [target onNode].
  - case_decide; [|done]. by destruct (d !! j).
  - case_decide; [|done]. by destruct (d !! j).
  - destruct (decide (i = j)) as [->|Hne].
    + destruct (d !! j) as [n|] eqn:Hj.
      * apply lookup_lt_Some in Hj. rewrite decide_True by done. done.
      * apply lookup_ge_None in Hj. rewrite decide_False by lia. done.
    + rewrite decide_False by tauto. done.
Qed.

Lemma srcOf_out_of_range (d : Doc) (j : nat) : (length d ≤ j)%nat → srcOf d j = "".
Proof. intros H. unfold srcOf. apply lookup_ge_None in H. unfold Doc. by rewrite H. Qed.

Lemma resolvedSrc_out_of_range (d : Doc) (j : nat) :
  (length d ≤ j)%nat → resolvedSrc d j = "".
Proof.
  intros H. unfold resolvedSrc. apply lookup_ge_None in H. unfold Doc in *. by rewrite H.
Qed.

Lemma isHosted_lt (d : Doc) (j : nat) :
  isHosted (resolvedSrc d j) = true → (j < length d)%nat.
Proof.
  intros H. destruct (decide (j < length d)%nat); [done|].
  rewrite resolvedSrc_out_of_range in H by lia. done.
Qed.

(** A write on another node, or a write of a style or a class, leaves
    the parsed address as it is. *)
Lemma resolvedSrc_applyWrite (d : Doc) (w : Write) (j : nat) :
  target w ≠ j ∨ isSetSrc w = false →
  resolvedSrc (applyWrite d w) j = resolvedSrc d j.
Proof.
  intros H. unfold resolvedSrc. rewrite lookup_applyWrite.
  case_decide as Hj; [|done]. destruct H as [H|H]; [done|].
  destruct (d !! j) as [n|]; [|done]. by destruct w.
Qed.

Lemma okW_not_SetSrc (w : Write) : okW w = true → isSetSrc w = false.
Proof. by destruct w. Qed.

Lemma resolvedSrc_run_okW (ws : list Write) (d : Doc) (j : nat) :
  Forall (λ w, okW w = true) ws → resolvedSrc (run ws d) j = resolvedSrc d j.
Proof.
  intros Hws. revert d. induction Hws as [|w ws Hw _ IH]; intros d; [done|].
  rewrite run_cons, IH. apply resolvedSrc_applyWrite. right. by apply okW_not_SetSrc.
Qed.

Lemma rewriteImage_eq (img : nat) (d : Doc) :
  rewriteImage img d
  = (Ok tt, if isHosted (resolvedSrc d img)
            then [SetSrc img (relativeSource (resolvedSrc d img))] else []).
Proof.
  unfold rewriteImage. rewrite bind_query. unfold isHosted, relativeSource, when.
  by destruct (negb _ && _).
Qed.


Lemma forEach_cons {A} (x : A) (l : list A) (body : A → Script unit) (d : Doc) :
  forEach (x :: l) body d = bind (body x) (λ _, forEach l body) d.
Proof. done. Qed.

(** The rewrite over a list of distinct images: each one whose parsed
    address is hosted gets one write, the others none. *)
Lemma forEach_rewriteImage (l : list nat) (d : Doc) :
  NoDup l →
  ∃ ws, forEach l rewriteImage d = (Ok tt, ws) ∧
    Forall (λ w, isSetSrc w = true ∧ target w ∈ l
                 ∧ isHosted (resolvedSrc d (target w)) = true) ws ∧
    (∀ j, isHosted (resolvedSrc d j) = false ∨ j ∉ l → run ws d !! j = d !! j) ∧
    (∀ j, j ∈ l → isHosted (resolvedSrc d j) = true →
          srcOf (run ws d) j = relativeSource (resolvedSrc d j)).
Proof.
  intros Hnd. revert d. induction Hnd as [|img l Himg Hnd IH]; intros d.
  - exists []. split; [done|]. split; [constructor|]. split; [done|].
    intros j Hj. by apply elem_of_nil in Hj.
  - rewrite forEach_cons. unfold bind. rewrite rewriteImage_eq.
    set (w0 := if isHosted (resolvedSrc d img) then _ else _).
    assert (Hw0 : Forall (λ w, isSetSrc w = true ∧ target w = img
                               ∧ isHosted (resolvedSrc d (target w)) = true) w0).
    { subst w0. destruct (isHosted _) eqn:Hi; repeat constructor. exact Hi. }
    assert (Hkeep : ∀ j, isHosted (resolvedSrc d j) = false ∨ j ≠ img →
                         run w0 d !! j = d !! j).
    { intros j Hj. subst w0. destruct (isHosted (resolvedSrc d img)) eqn:Hi; [|done].
      rewrite run_cons. cbn [run foldl]. rewrite lookup_applyWrite. cbn [target].
      rewrite decide_False; [done|]. intros ->. destruct Hj; congruence. }
    assert (Hres : ∀ j, isHosted (resolvedSrc d j) = false ∨ j ≠ img →
                        resolvedSrc (run w0 d) j = resolvedSrc d j).
    { intros j Hj. unfold resolvedSrc. by rewrite Hkeep. }
    destruct (IH (run w0 d)) as (ws & Hrun & Hsrc & H1 & H3).
    rewrite Hrun. exists (w0 ++ ws)%list. split; [done|].
    split.
    { apply Forall_app. split.
      - eapply Forall_impl; [exact Hw0|]. intros w (? & -> & ?).
        split_and!; [done|by left|done].
      - eapply Forall_impl; [exact Hsrc|]. intros w (Hw & Hin & Ht).
        split_and!; [done|by right|].
        rewrite Hres in Ht; [done|]. right. intros E. by rewrite E in Hin. }
    rewrite run_app. split.
    + intros j Hj. rewrite H1.
      * apply Hkeep. destruct Hj as [?|Hj]; [by left|]. right. intros ->. apply Hj. by left.
      * destruct Hj as [Hj|Hj].
        -- left. rewrite Hres by (by left). done.
        -- right. intros Hin. apply Hj. by right.
    + intros j Hj Hhost. apply elem_of_cons in Hj as [->|Hj].
      * unfold srcOf. rewrite H1 by (by right). subst w0. rewrite Hhost.
        rewrite run_cons. cbn [run foldl].
        fold (srcOf (applyWrite d (SetSrc img (relativeSource (resolvedSrc d img)))) img).
        rewrite srcOf_applyWrite.
        by rewrite decide_True by (split; [done|by apply isHosted_lt]).
      * assert (Hne : j ≠ img) by (intros ->; done).
        rewrite H3; [|done|].
        -- f_equal. apply Hres. by right.
        -- rewrite Hres; [done|by right].
Qed.

Lemma NoDup_querySelectorAll (sel : Selector) (d : Doc) : NoDup (querySelectorAll sel d).
Proof. unfold querySelectorAll, positions. apply NoDup_filter, NoDup_seq. Qed.

Lemma rewriteImageSources_eq (d : Doc) :
  rewriteImageSources d = forEach (querySelectorAll (SelTag "img") d) rewriteImage d.
Proof. unfold rewriteImageSources. by rewrite bind_query. Qed.

(** Writes that set image sources leave everything else alone. *)
Lemma sameButSrc_applyWrite (d : Doc) (w : Write) :
  isSetSrc w = true → Forall2 sameButSrc d (applyWrite d w).
Proof.
  intros Hw. rewrite applyWrite_alter. apply Forall2_alter_r.
  - apply Forall_Forall2_diag, Forall_forall. by intros n _.
  - intros n n' _ _ (?&?&?&?&?&?&?). by destruct w.
Qed.

Lemma sameButSrc_trans (d1 d2 d3 : Doc) :
  Forall2 sameButSrc d1 d2 → Forall2 sameButSrc d2 d3 → Forall2 sameButSrc d1 d3.
Proof.
  intros H. revert d3.
  induction H as [|n1 n2 l1 l2 Hn _ IH]; intros d3 H3; inversion H3; subst; constructor.
  - destruct Hn as (?&?&?&?&?&?&?). match goal with H : sameButSrc n2 _ |- _ =>
      destruct H as (?&?&?&?&?&?&?) end. repeat split; congruence.
  - by apply IH.
Qed.

Lemma sameButSrc_run (ws : list Write) (d : Doc) :
  Forall (λ w, isSetSrc w = true) ws → Forall2 sameButSrc d (run ws d).
Proof.
  intros Hws. revert d. induction Hws as [|w ws Hw _ IH]; intros d.
  - apply Forall_Forall2_diag, Forall_forall. by intros n _.
  - rewrite run_cons.
    eapply sameButSrc_trans; [apply sameButSrc_applyWrite, Hw|apply IH].
Qed.

(** ** Every write of the styling is a style or class write *)

Section logAll.
Context (Φ : Write → bool).

Lemma logAll_ret {A} (a : A) : logAll Φ (ret a).
Proof. intros d. constructor. Qed.

Lemma logAll_throw {A} (e : JsError) : logAll Φ (@throw A e).
Proof. intros d. constructor. Qed.

Lemma logAll_query {A} (q : Doc → A) : logAll Φ (query q).
Proof. intros d. constructor. Qed.

Lemma logAll_write (w : Write) : Φ w = true → logAll Φ (write w).
Proof. intros Hw d. by repeat constructor. Qed.

Lemma logAll_bind {A B} (m : Script A) (k : A → Script B) :
  logAll Φ m → (∀ a, logAll Φ (k a)) → logAll Φ (bind m k).
Proof.
  intros Hm Hk d. unfold bind. specialize (Hm d).
  destruct (m d) as [[a|e] l1]; [|done].
  specialize (Hk a (run l1 d)). destruct (k a (run l1 d)) as [r l2].
  by apply Forall_app.
Qed.

Lemma logAll_forEach {A} (l : list A) (body : A → Script unit) :
  (∀ x, logAll Φ (body x)) → logAll Φ (forEach l body).
Proof.
  intros Hb. induction l as [|x l IH]; [apply logAll_ret|].
  apply logAll_bind; [apply Hb|by intros _].
Qed.

Lemma logAll_setStyles (i : nat) (decls : list (string * string)) :
  Forall (λ kv, Φ (SetStyle i kv.1 kv.2) = true) decls → logAll Φ (setStyles i decls).
Proof.
  intros H. unfold setStyles. induction H as [|kv decls Hkv _ IH]; [apply logAll_ret|].
  apply logAll_bind; [by apply logAll_write|by intros _].
Qed.

End logAll.

Ltac logAll_step :=
  lazymatch goal with
  | |- logAll _ (bind _ _) => apply logAll_bind; [|intros ?]
  | |- logAll _ (forEach _ _) => apply logAll_forEach; intros ?
  | |- logAll _ (styleAll _ _) => unfold styleAll
  | |- logAll _ (setStyles _ _) => apply logAll_setStyles; repeat constructor
  | |- logAll _ (setStyle _ _ _) => apply logAll_write; reflexivity
  | |- logAll _ (write _) => apply logAll_write; reflexivity
  | |- logAll _ (query _) => apply logAll_query
  | |- logAll _ (ret _) => apply logAll_ret
  | |- logAll _ (throw _) => apply logAll_throw
  | |- logAll _ (when ?b _) => destruct b; cbn [when]
  | |- logAll _ (whenSome ?o _) => destruct o; cbn [whenSome]
  | |- logAll _ (avoidBreakBefore _) => unfold avoidBreakBefore
  | |- logAll _ (avoidBreakAfter _) => unfold avoidBreakAfter
  | |- logAll _ theBody => unfold theBody
  | |- logAll _ (match ?x with _ => _ end) => destruct x
  | |- logAll _ (if ?x then _ else _) => destruct x
  end.

Ltac logAll_auto := repeat logAll_step.

Lemma logAll_keepFirstProject (c : nat) : logAll okW (keepFirstProject c).
Proof. unfold keepFirstProject. logAll_auto. Qed.

Lemma logAll_companySiblings (l : list nat) : logAll okW (companySiblings l).
Proof.
  induction l as [|next rest IH]; cbn [companySiblings]; [apply logAll_ret|].
  logAll_auto; [apply logAll_keepFirstProject|exact IH..].
Qed.

Lemma logAll_projectSiblings (l : list nat) : logAll okW (projectSiblings l).
Proof.
  induction l as [|next rest IH]; cbn [projectSiblings]; [apply logAll_ret|].
  logAll_auto. exact IH.
Qed.

Lemma logAll_printPalette : logAll okW printPalette.
Proof.
  unfold printPalette, whiteBackground, styleSectionTitles, styleHeadings,
    bodyTextColor, textColors, skillsParagraphs, skillCategories, skillsSection.
  logAll_auto.
Qed.

Lemma logAll_coloredSpans : logAll okW coloredSpans.
Proof. unfold coloredSpans, blackenSpan. logAll_auto. Qed.

Lemma logAll_printLayout : logAll okW printLayout.
Proof.
  unfold printLayout, profileImage, bodyOrphansWidows, sectionTitleBreaks,
    companyHeaders, projectHeaders, listItemBreaks, sectionBreaks,
    expandCollapsible, hideFooter, hideDownloadButton, optimizeLinks,
    headerBorder, optimizeImages.
  logAll_auto;
    first [apply logAll_companySiblings|apply logAll_projectSiblings].
Qed.

Lemma logAll_printStyling : logAll okW printStyling.
Proof.
  unfold printStyling.
  apply logAll_bind; [apply logAll_printPalette|intros _].
  apply logAll_bind; [apply logAll_coloredSpans|intros _].
  apply logAll_printLayout.
Qed.

(** Style and class writes leave image sources as they are. *)
Lemma srcOf_run_okW (ws : list Write) (d : Doc) (j : nat) :
  Forall (λ w, okW w = true) ws → srcOf (run ws d) j = srcOf d j.
Proof.
  intros Hws. revert d. induction Hws as [|w ws Hw _ IH]; intros d; [done|].
  rewrite run_cons, IH, srcOf_applyWrite. by destruct w.
Qed.

(** The script as a whole: the rewrite never throws, and what follows
    only writes styles and classes. *)
Lemma optimizations_eq (d : Doc) :
  ∃ wsI r wsS,
    forEach (querySelectorAll (SelTag "img") d) rewriteImage d = (Ok tt, wsI) ∧
    printStyling (run wsI d) = (r, wsS) ∧
    Forall (λ w, isSetSrc w = true ∧ isHosted (resolvedSrc d (target w)) = true) wsI ∧
    Forall (λ w, okW w = true) wsS ∧
    evaluate optimizations d = (r, run wsS (run wsI d)).
Proof.
  destruct (forEach_rewriteImage (querySelectorAll (SelTag "img") d) d
              (NoDup_querySelectorAll _ d))
    as (wsI & HI & HsrcI & _).
  destruct (printStyling (run wsI d)) as [r wsS] eqn:HS.
  exists wsI, r, wsS. split_and!; try done.
  - eapply Forall_impl; [exact HsrcI|]. by intros w (? & _ & ?).
  - pose proof (logAll_printStyling (run wsI d)) as H. by rewrite HS in H.
  - unfold evaluate, optimizations, bind. rewrite rewriteImageSources_eq, HI, HS.
    by rewrite run_app.
Qed.

(** The writes of the script: those of the rewrite, then those of the
    styling. *)
Lemma optimizations_writes (d : Doc) (wsI wsS : list Write) (r : Result unit) :
  forEach (querySelectorAll (SelTag "img") d) rewriteImage d = (Ok tt, wsI) →
  printStyling (run wsI d) = (r, wsS) →
  optimizations d = (r, (wsI ++ wsS)%list).
Proof.
  intros HI HS. unfold optimizations, bind. by rewrite rewriteImageSources_eq, HI, HS.
Qed.

Lemma sameButSrc_frameEq (d d' : Doc) : Forall2 sameButSrc d d' → frameEq d d'.
Proof.
  intros H. eapply Forall2_impl; [exact H|].
  intros n n' (Ht & Hp & Hx & Hc & _). repeat split; try done; by rewrite Hc.
Qed.

Lemma isSetSrc_weaken (d : Doc) (ws : list Write) :
  Forall (λ w, isSetSrc w = true ∧ isHosted (resolvedSrc d (target w)) = true) ws →
  Forall (λ w, isSetSrc w = true) ws.
Proof. intros H. eapply Forall_impl; [exact H|]. by intros w [? _]. Qed.

(** The page after the script has the frame of the page before. *)
Lemma optimizations_frame (d : Doc) : frameEq d (evaluate optimizations d).2.
Proof.
  destruct (optimizations_eq d) as (wsI & r & wsS & _ & _ & HI & HS & ->). cbn.
  eapply frameEq_trans; [|by apply frameEq_run].
  by eapply sameButSrc_frameEq, sameButSrc_run, isSetSrc_weaken.
Qed.

Lemma isHosted_includes (s : string) :
  isHosted s = includes HOSTED_ASSETS s.
Proof. unfold isHosted. by destruct s. Qed.

Lemma matches_lt (d : Doc) (sel : Selector) (i : nat) :
  matches d sel i = true → (i < length d)%nat.
Proof.
  intros H. assert (He : isElementAt d i = true).
  { destruct sel; cbn in H; by apply andb_prop in H as [? _]. }
  unfold isElementAt in He. destruct (d !! i) eqn:Hi; [|done].
  by apply lookup_lt_Some in Hi.
Qed.

Lemma elem_of_querySelectorAll_2 (sel : Selector) (d : Doc) (i : nat) :
  matches d sel i = true → i ∈ querySelectorAll sel d.
Proof.
  intros H. unfold querySelectorAll. apply list_elem_of_filter. split; [done|].
  unfold positions. apply elem_of_seq. apply matches_lt in H. lia.
Qed.

(** C10.  The rewrite fires only on addresses that contain
    [arnauudg.github.io/assets/], read from the [src] property, which
    is the address as the browser has parsed it: an element whose
    parsed address does not contain it is the target of no write of
    the rewrite step, and its [src] attribute and its parsed address
    are the same after that step and after the whole script.  The
    published CV writes [asset], without the final s, so its images
    keep their absolute URLs. *)
Theorem sources_elsewhere_are_kept (d : Doc) (i : nat) :
  includes HOSTED_ASSETS (resolvedSrc d i) = false →
  Forall (λ w, target w ≠ i) (rewriteImageSources d).2 ∧
  srcOf (evaluate rewriteImageSources d).2 i = srcOf d i ∧
  srcOf (evaluate optimizations d).2 i = srcOf d i ∧
  resolvedSrc (evaluate optimizations d).2 i = resolvedSrc d i.
Proof.
  intros Hi. rewrite <- isHosted_includes in Hi.
  destruct (optimizations_eq d) as (wsI & r & wsS & HI & _ & HsI & HS & ->).
  unfold evaluate. rewrite rewriteImageSources_eq, HI. cbn [snd].
  destruct (forEach_rewriteImage (querySelectorAll (SelTag "img") d) d
              (NoDup_querySelectorAll _ d))
    as (ws & HI' & _ & Hkeep & _).
  rewrite HI in HI'. injection HI' as <-.
  assert (Hnode : run wsI d !! i = d !! i) by (apply Hkeep; by left).
  split_and!.
  - eapply Forall_impl; [exact HsI|]. intros w [_ Hw] E. rewrite E in Hw. congruence.
  - unfold srcOf. by rewrite Hnode.
  - rewrite srcOf_run_okW by done. unfold srcOf. by rewrite Hnode.
  - rewrite resolvedSrc_run_okW by done. unfold resolvedSrc. by rewrite Hnode.
Qed.

Lemma sources_elsewhere_are_kept_witness :
  resolvedSrc publishedHeader 3
  = "https://arnauudg.github.io/asset/profile-picture.jpeg" ∧
  srcOf (evaluate optimizations publishedHeader).2 3
  = "https://arnauudg.github.io/asset/profile-picture.jpeg".
Proof.
  split; [reflexivity|].
  exact (proj1 (proj2 (proj2 (sources_elsewhere_are_kept publishedHeader 3 eq_refl)))).
Defined.

(** C7.  An [img] element whose [src] property, the address as the
    browser has parsed it, contains the hosted-assets prefix has, after
    the script, the [src] attribute [assets/<filename>], where
    [<filename>] is what follows the first [/assets/] of that address;
    the element is still an [img] of the page, under the same parent,
    and the page has as many nodes as before. *)
Theorem hosted_image_source_rewritten (d : Doc) (i : nat) :
  matches d (SelTag "img") i = true →
  includes HOSTED_ASSETS (resolvedSrc d i) = true →
  (∃ filename, split "/assets/" (resolvedSrc d i) !! 1%nat = Some filename ∧
     srcOf (evaluate optimizations d).2 i = "assets/" +:+ filename) ∧
  matches (evaluate optimizations d).2 (SelTag "img") i = true ∧
  parentOf (evaluate optimizations d).2 i = parentOf d i ∧
  length (evaluate optimizations d).2 = length d.
Proof.
  intros Himg Hi.
  pose proof (optimizations_frame d) as Hf.
  split; [|split_and!].
  - assert (Hs : is_Some (split "/assets/" (resolvedSrc d i) !! 1%nat)).
    { apply split_second_Some.
      - by apply (includes_suffix "arnauudg.github.io").
      - intros E. by rewrite E in Hi. }
    destruct Hs as [filename Hs]. exists filename. split; [done|].
    rewrite <- isHosted_includes in Hi.
    destruct (optimizations_eq d) as (wsI & r & wsS & HI & _ & HsI & HS & ->).
    cbn [snd]. rewrite srcOf_run_okW by done.
    destruct (forEach_rewriteImage (querySelectorAll (SelTag "img") d) d
                (NoDup_querySelectorAll _ d))
      as (ws & HI' & _ & _ & Hnew).
    rewrite HI in HI'. injection HI' as <-.
    rewrite Hnew; [|by apply elem_of_querySelectorAll_2|done].
    unfold relativeSource. by rewrite Hs.
  - by rewrite <- (frame_matches _ _ (SelTag "img") i Hf).
  - by rewrite <- (frame_parentOf _ _ Hf).
  - by rewrite <- (frame_length _ _ Hf).
Qed.

Lemma hosted_image_source_rewritten_witness :
  srcOf (evaluate optimizations minimalDocument).2 7 = "assets/profile-picture.jpeg" ∧
  matches (evaluate optimizations minimalDocument).2 (SelTag "img") 7 = true.
Proof.
  destruct (hosted_image_source_rewritten minimalDocument 7 eq_refl eq_refl)
    as ((filename & Hs & Hsrc) & Hm & _).
  split; [|exact Hm].
  rewrite Hsrc. vm_compute in Hs. injection Hs as <-. reflexivity.
Defined.

(** ** Pages that look the same *)

Lemma nodeView_refl (n : Node) :
  (tag n = "div" → valuesFree LINE_HEIGHT (style n)) → nodeView n n.
Proof. intros H. split; [apply nodeFrame_refl|]. split; [done|]. intros Hd. auto. Qed.

Lemma viewEq_refl (d : Doc) :
  (∀ n, n ∈ d → tag n = "div" → valuesFree LINE_HEIGHT (style n)) → viewEq d d.
Proof.
  intros H. apply Forall_Forall2_diag, Forall_forall. intros n Hn.
  apply nodeView_refl, H, Hn.
Qed.

Lemma nodeView_sym (n n' : Node) : nodeView n n' → nodeView n' n.
Proof.
  intros (Hf & Hs & Hd). pose proof Hf as (Ht & _).
  split; [by apply nodeFrame_sym|]. rewrite <- Ht. split.
  - intros H. symmetry. by apply Hs.
  - intros H. destruct (Hd H) as (? & ? & ?). split_and!; first [done|by symmetry].
Qed.

Lemma nodeView_trans (n1 n2 n3 : Node) :
  nodeView n1 n2 → nodeView n2 n3 → nodeView n1 n3.
Proof.
  intros (Hf & Hs & Hd) (Hf' & Hs' & Hd'). pose proof Hf as (Ht & _).
  rewrite <- Ht in Hs', Hd'.
  split; [by eapply nodeFrame_trans|]. split.
  - intros H. by rewrite (Hs H), (Hs' H).
  - intros H. destruct (Hd H) as (E & ? & ?), (Hd' H) as (E' & ? & ?).
    split_and!; try done. by rewrite E, E'.
Qed.

Lemma viewEq_sym (d d' : Doc) : viewEq d d' → viewEq d' d.
Proof. induction 1; constructor; auto using nodeView_sym. Qed.

Lemma viewEq_trans (d1 d2 d3 : Doc) : viewEq d1 d2 → viewEq d2 d3 → viewEq d1 d3.
Proof.
  intros H. revert d3.
  induction H as [|n1 n2 l1 l2 Hn _ IH]; intros d3 H3; inversion H3; subst; constructor.
  - by eapply nodeView_trans.
  - by apply IH.
Qed.

(** A write of [viewW] made on one side only. *)
Lemma nodeView_write_r (d0 : Doc) (w : Write) (n n' : Node) :
  d0 !! target w = Some n → viewW d0 w = true →
  nodeView n n' → nodeView n (onNode w n').
Proof.
  intros Hn Hw ((Ht & Hp & Hx & Hc) & Hs & Hd).
  unfold viewW in Hw. apply andb_prop in Hw as [Hok Hw].
  destruct w as [i k v|i c|i s]; [| |done]; cbn [target] in Hn;
    unfold nodeView, nodeFrame, inlineBlock in *;
    cbn [onNode assign withClasses style tag parent text classList okW] in *.
  - apply andb_prop in Hok as [Hlh _]. apply negb_true_iff in Hlh.
    apply andb_prop in Hw as [Hdisp Hname].
    unfold inlineBlockStrong, tagOf, styleGet, styleOf in Hdisp.
    unfold tagOf in Hname. unfold Doc in *. rewrite Hn in Hdisp, Hname. cbn in Hdisp, Hname.
    split_and!; try done.
    + intros Hstrong. destruct (decide (k = "display")) as [->|Hk];
        [rewrite lookup_insert_eq|by rewrite lookup_insert_ne; [apply Hs|]].
      cbn in Hdisp. apply andb_prop in Hdisp as [Hv Hib].
      rewrite Hstrong in Hib. cbn in Hib.
      apply negb_true_iff, bool_decide_eq_false in Hib.
      apply negb_true_iff, String.eqb_neq in Hv.
      split; [done|]. intros [=]. done.
    + intros Hdiv. destruct (Hd Hdiv) as (Hnm & Hf1 & Hf2). split_and!; try done.
      * rewrite namesWord_insert, Hnm.
        destruct (includes LINE_HEIGHT (cssName k)) eqn:Hlk.
        -- rewrite Hdiv in Hname. done.
        -- split; [auto|]. by intros [?|?].
      * by apply valuesFree_insert.
  - apply String.eqb_eq in Hok as ->. split_and!; try done.
    intros c' Hc'. rewrite elem_of_addToken, Hc by done. split; [auto|]. by intros [?|?].
Qed.

Lemma viewEq_applyWrite_r (d0 d1 d2 : Doc) (w : Write) :
  viewW d0 w = true → viewEq d0 d2 → viewEq d0 (applyWrite d2 w).
Proof.
  intros Hw Hv. rewrite applyWrite_alter. apply Forall2_alter_r; [done|].
  intros n n' Hn _. by eapply nodeView_write_r.
Qed.

Lemma viewEq_run_r (d0 : Doc) (ws : list Write) (d2 : Doc) :
  Forall (λ w, viewW d0 w = true) ws → viewEq d0 d2 → viewEq d0 (run ws d2).
Proof.
  intros Hws. revert d2. induction Hws as [|w ws Hw _ IH]; intros d2 Hv; [done|].
  rewrite run_cons. apply IH. by apply (viewEq_applyWrite_r d0 d0).
Qed.

(** ** Writes replayed on the page they produced *)

Lemma addToken_idem (c : string) (cl : list string) :
  addToken c (addToken c cl) = addToken c cl.
Proof.
  assert (H : c ∈ addToken c cl) by (apply elem_of_addToken; auto).
  generalize dependent (addToken c cl). intros l H.
  unfold addToken. by rewrite bool_decide_true.
Qed.

Lemma overlay_cons (w : Write) (ws : list Write) (i : nat) (st : gmap string string) :
  overlay (w :: ws) i st = overlay ws i (overlay [w] i st).
Proof. done. Qed.

Lemma overlay_app (ws1 ws2 : list Write) (i : nat) (st : gmap string string) :
  overlay (ws1 ++ ws2) i st = overlay ws2 i (overlay ws1 i st).
Proof. apply foldl_app. Qed.

Lemma lookup_run (ws : list Write) (d : Doc) (i : nat) :
  run ws d !! i = nodeAfter ws i <$> d !! i.
Proof.
  revert d. induction ws as [|w ws IH]; intros d.
  - cbn. by destruct (d !! i).
  - rewrite run_cons, IH, lookup_applyWrite. unfold nodeAfter. cbn [foldl].
    case_decide as Hi.
    + rewrite bool_decide_true by done. by destruct (d !! i).
    + rewrite bool_decide_false by done. done.
Qed.

Lemma overlay_one_absorb_or_commute (w w1 : Write) (i : nat) (st : gmap string string) :
  overlay [w1] i (overlay [w] i st) = overlay [w1] i st ∨
  overlay [w1] i (overlay [w] i st) = overlay [w] i (overlay [w1] i st).
Proof.
  destruct w as [j k v|j c|j s], w1 as [j1 k1 v1|j1 c1|j1 s1]; cbn; auto.
  repeat case_bool_decide; auto.
  destruct (decide (k = k1)) as [->|Hne].
  - left. apply insert_insert_eq.
  - right. by apply insert_insert_ne.
Qed.

Lemma overlay_absorb (w : Write) (ws : list Write) (i : nat) (st : gmap string string) :
  overlay [w] i (overlay ws i (overlay [w] i st)) = overlay [w] i (overlay ws i st).
Proof.
  revert st. induction ws as [|w1 ws IH]; intros st.
  - destruct w as [j k v|j c|j s]; cbn; [|done..].
    case_bool_decide; [|done]. apply insert_insert_eq.
  - rewrite !(overlay_cons w1 ws).
    destruct (overlay_one_absorb_or_commute w w1 i st) as [E|E]; rewrite E; [done|].
    apply IH.
Qed.

Lemma overlay_idempotent (ws : list Write) (i : nat) (st : gmap string string) :
  overlay ws i (overlay ws i st) = overlay ws i st.
Proof.
  revert st. induction ws as [|w ws IH] using rev_ind; intros st; [done|].
  rewrite !overlay_app, overlay_absorb. by rewrite IH.
Qed.

Lemma attrAfter_Serialised (ws : list Write) (i : nat) (b : Browser) :
  attrAfter ws i b Serialised = Serialised.
Proof.
  induction ws as [|w ws IH]; [done|]. unfold attrAfter in *. cbn [foldl].
  destruct w; [|done..]. by case_bool_decide.
Qed.

Lemma attrAfter_cases (ws : list Write) (i : nat) (b : Browser) (a : StyleAttr) :
  attrAfter ws i b a = a ∨ attrAfter ws i b a = Serialised.
Proof.
  revert a. induction ws as [|w ws IH]; intros a; [by left|].
  unfold attrAfter in *. cbn [foldl].
  destruct w as [j k v|j c|j s]; [|apply IH..].
  case_bool_decide; [|apply IH].
  destruct a as [t|]; cbn; [|apply IH]. destruct (unchangedBy b t k v); [apply IH|].
  right. apply attrAfter_Serialised.
Qed.

Lemma attrAfter_idempotent (ws : list Write) (i : nat) (b : Browser) (a : StyleAttr) :
  attrAfter ws i b (attrAfter ws i b a) = attrAfter ws i b a.
Proof.
  destruct (attrAfter_cases ws i b a) as [E|E]; rewrite E; [done|].
  apply attrAfter_Serialised.
Qed.

Lemma classesAfter_expanded (ws : list Write) (i : nat) (cl : list string) :
  Forall (λ w, okW w = true) ws → "expanded" ∈ cl → classesAfter ws i cl = cl.
Proof.
  intros Hws. revert cl. induction Hws as [|w ws Hw _ IH]; intros cl Hcl; [done|].
  unfold classesAfter in *. cbn [foldl].
  destruct w as [j k v|j c|j s]; [by apply IH| |by apply IH].
  apply okW_AddClass in Hw as ->. case_bool_decide; [|by apply IH].
  unfold addToken. rewrite bool_decide_true by done. by apply IH.
Qed.

Lemma classesAfter_cases (ws : list Write) (i : nat) (cl : list string) :
  Forall (λ w, okW w = true) ws →
  classesAfter ws i cl = cl ∨ classesAfter ws i cl = addToken "expanded" cl.
Proof.
  intros Hws. revert cl. induction Hws as [|w ws Hw Hws IH]; intros cl; [by left|].
  unfold classesAfter in *. cbn [foldl].
  destruct w as [j k v|j c|j s]; [apply IH| |apply IH].
  apply okW_AddClass in Hw as ->. case_bool_decide; [|apply IH].
  right. apply (classesAfter_expanded ws i); [done|]. apply elem_of_addToken. by left.
Qed.

Lemma classesAfter_idempotent (ws : list Write) (i : nat) (cl : list string) :
  Forall (λ w, okW w = true) ws →
  classesAfter ws i (classesAfter ws i cl) = classesAfter ws i cl.
Proof.
  intros Hws. destruct (classesAfter_cases ws i cl Hws) as [E|E]; rewrite E; [done|].
  apply classesAfter_expanded; [done|]. apply elem_of_addToken. by left.
Qed.

(** The node after writes of styles and classes, field by field. *)
Lemma nodeAfter_okW (ws : list Write) (i : nat) (n : Node) :
  Forall (λ w, okW w = true) ws →
  nodeAfter ws i n
  = {| tag := tag n; parent := parent n; text := text n;
       classList := classesAfter ws i (classList n);
       style := overlay ws i (style n);
       styleAttr := attrAfter ws i (agent n) (styleAttr n);
       src := src n; agent := agent n |}.
Proof.
  intros Hws. revert n. induction Hws as [|w ws Hw _ IH]; intros n; [by destruct n|].
  unfold nodeAfter, classesAfter, attrAfter, overlay in *. cbn [foldl].
  rewrite IH. destruct w as [j k v|j c|j s]; [| |done]; cbn [target];
    case_bool_decide; done.
Qed.

Lemma nodeAfter_idempotent (ws : list Write) (i : nat) (n : Node) :
  Forall (λ w, okW w = true) ws →
  nodeAfter ws i (nodeAfter ws i n) = nodeAfter ws i n.
Proof.
  intros Hws. rewrite !(nodeAfter_okW ws i) by done. cbn.
  by rewrite classesAfter_idempotent, overlay_idempotent, attrAfter_idempotent.
Qed.

(** Writes of styles and classes replayed on the page they have
    produced leave it as it is. *)
Lemma run_idempotent (ws : list Write) (d : Doc) :
  Forall (λ w, okW w = true) ws → run ws (run ws d) = run ws d.
Proof.
  intros Hws. apply list_eq. intros i. rewrite !lookup_run.
  destruct (d !! i) as [n|]; [|done]. cbn. f_equal. by apply nodeAfter_idempotent.
Qed.

(** ** The inline style after a list of writes *)


Lemma styleOf_applyWrite (d : Doc) (w : Write) (i : nat) :
  (i < length d)%nat → styleOf (applyWrite d w) i = overlay [w] i (styleOf d i).
Proof.
  intros Hi. apply lookup_lt_is_Some in Hi as [n Hn].
  unfold styleOf. rewrite lookup_applyWrite. unfold Doc in *.
  destruct w as [j k v|j c|j s]; cbn [target onNode overlay foldl].
  - case_decide as Hj.
    + subst j. rewrite bool_decide_true by done. by rewrite Hn.
    + by rewrite bool_decide_false.
  - case_decide; [|done]. by rewrite Hn.
  - case_decide; [|done]. by rewrite Hn.
Qed.

Lemma styleOf_run (ws : list Write) (d : Doc) (i : nat) :
  (i < length d)%nat → styleOf (run ws d) i = overlay ws i (styleOf d i).
Proof.
  revert d. induction ws as [|w ws IH]; intros d Hi; [done|].
  rewrite run_cons, overlay_cons, IH by (by rewrite length_applyWrite).
  by rewrite styleOf_applyWrite.
Qed.

Lemma styleOf_out_of_range (d : Doc) (i : nat) :
  ¬ (i < length d)%nat → styleOf d i = ∅.
Proof.
  intros Hi. unfold styleOf. unfold Doc in *.
  rewrite (proj2 (lookup_ge_None d i)) by lia. done.
Qed.

Lemma overlay_lookup_Some (ws : list Write) (i : nat) (st : gmap string string)
    (k v : string) :
  overlay ws i st !! k = Some v → st !! k = Some v ∨ SetStyle i k v ∈ ws.
Proof.
  revert st. induction ws as [|w ws IH]; intros st H; [by left|].
  rewrite overlay_cons in H. apply IH in H as [H|H]; [|right; by constructor].
  destruct w as [j k' v'|j c|j s]; cbn in H; [|by left..].
  case_bool_decide as Hj; [|by left]. subst j.
  rewrite lookup_insert in H. case_decide as Hk; [|by left].
  subst k'. injection H as ->. right. constructor.
Qed.

Lemma overlay_is_Some (ws : list Write) (i : nat) (st : gmap string string) (k : string) :
  is_Some (st !! k) → is_Some (overlay ws i st !! k).
Proof.
  revert st. induction ws as [|w ws IH]; intros st H; [done|].
  rewrite overlay_cons. apply IH.
  destruct w as [j k' v'|j c|j s]; cbn; [|done..].
  case_bool_decide; [|done]. rewrite lookup_insert_is_Some.
  destruct (decide (k' = k)); auto.
Qed.

Lemma overlay_written (ws : list Write) (i : nat) (st : gmap string string)
    (k v : string) :
  SetStyle i k v ∈ ws → is_Some (overlay ws i st !! k).
Proof.
  revert st. induction ws as [|w ws IH]; intros st H; [by apply elem_of_nil in H|].
  rewrite overlay_cons. apply elem_of_cons in H as [<-|H]; [|by apply IH].
  apply overlay_is_Some. cbn. rewrite bool_decide_true by done.
  rewrite lookup_insert_eq. by eexists.
Qed.

(** The test [style*="color"] is settled by the first pass: writes
    that name a colour only on keys already there, or on spans that
    passed the test, do not change it. *)
Lemma styleHas_overlay (sub : string) (ws : list Write) (i : nat)
    (st : gmap string string) :
  (∀ k v, SetStyle i k v ∈ ws → includes sub v = false) →
  (∀ k v, SetStyle i k v ∈ ws → includes sub (cssName k) = true →
          is_Some (st !! k) ∨ styleHas sub st = true) →
  (styleHas sub st = true →
   ∃ k v, SetStyle i k v ∈ ws ∧ includes sub (cssName k) = true) →
  styleHas sub (overlay ws i st) = styleHas sub st.
Proof.
  intros Hval Hname Hmark. apply bool_eq_iff. rewrite !styleHas_true. split.
  - intros (k & v & Hl & Hd). apply overlay_lookup_Some in Hl as [Hl|Hl]; [by eauto|].
    unfold declHas in Hd. cbn in Hd. rewrite (Hval _ _ Hl), orb_false_r in Hd.
    destruct (Hname _ _ Hl Hd) as [[v0 Hv0]|Hs].
    + exists k, v0. split; [done|]. unfold declHas. cbn. by rewrite Hd.
    + by apply styleHas_true.
  - intros H. destruct Hmark as (k & v & Hin & Hk); [by apply styleHas_true|].
    destruct (overlay_written ws i st k v Hin) as [v' Hv'].
    exists k, v'. split; [done|]. unfold declHas. cbn. by rewrite Hk.
Qed.

(** ** Coloured spans *)

Lemma blackenSpan_eq (s : nat) (d : Doc) :
  blackenSpan s d = (Ok tt, if styleAttrHas d s "color" then [blacken s] else []).
Proof.
  unfold blackenSpan. rewrite bind_query. by destruct (styleAttrHas d s "color").
Qed.

Lemma styleAttrHas_applyWrite (d : Doc) (w : Write) (s : nat) (sub : string) :
  target w ≠ s → styleAttrHas (applyWrite d w) s sub = styleAttrHas d s sub.
Proof. intros H. unfold styleAttrHas. rewrite lookup_applyWrite. by rewrite decide_False. Qed.

Lemma forEach_blackenSpan (l : list nat) (d : Doc) :
  NoDup l →
  (∀ s, s ∈ l → styleAttrHas d s "color" = true) →
  forEach l blackenSpan d = (Ok tt, blacken <$> l).
Proof.
  intros Hnd. revert d. induction Hnd as [|s0 l Hs0 Hnd IH]; intros d H; [done|].
  rewrite forEach_cons. unfold bind. rewrite blackenSpan_eq.
  rewrite H by constructor. rewrite IH; [done|].
  intros s Hs. cbn [run foldl]. rewrite styleAttrHas_applyWrite.
  - apply H. by constructor.
  - cbn. intros ->. done.
Qed.

Lemma matches_COLORED_SPAN (d : Doc) (i : nat) :
  matches d COLORED_SPAN i
  = isElementAt d i && String.eqb (tagOf d i) "span" && styleAttrHas d i "color".
Proof. cbn. by destruct (isElementAt d i). Qed.

Lemma coloredSpans_eq (d : Doc) :
  coloredSpans d = (Ok tt, blacken <$> querySelectorAll COLORED_SPAN d).
Proof.
  unfold coloredSpans. rewrite bind_query.
  apply forEach_blackenSpan; [apply NoDup_querySelectorAll|].
  intros s Hs%elem_of_querySelectorAll. rewrite matches_COLORED_SPAN in Hs.
  by apply andb_prop in Hs as [_ ?].
Qed.

(** ** The second pass *)

Lemma isElementAt_lt (d : Doc) (i : nat) : isElementAt d i = true → (i < length d)%nat.
Proof.
  unfold isElementAt. destruct (d !! i) eqn:Hi; [|done]. intros _.
  by apply lookup_lt_Some in Hi.
Qed.

Lemma okW_color_free (w : Write) (i : nat) (k v : string) :
  okW w = true → w = SetStyle i k v → includes "color" v = false.
Proof. intros Hw ->. cbn in Hw. apply andb_prop in Hw as [_ Hw]. by apply negb_true_iff. Qed.

(** The coloured spans found by the second pass are those of the
    first, when the page is transparent at both moments. *)
Lemma coloredSpans_stable (d1 : Doc) (lA lB : list Write) :
  Forall (λ w, viewW d1 w = true) lA →
  Forall (λ w, layoutW d1 w = true) lB →
  let dA := run lA d1 in
  let lC := blacken <$> querySelectorAll COLORED_SPAN dA in
  transparent dA = true →
  transparent (run lA (run lB (run lC dA))) = true →
  querySelectorAll COLORED_SPAN (run lA (run lB (run lC dA)))
  = querySelectorAll COLORED_SPAN dA.
Proof.
  intros HA HB dA lC HtA HtX.
  assert (HokA : Forall (λ w, okW w = true) lA) by (by eapply Forall_refines, HA; apply viewW_refines).
  assert (HokB : Forall (λ w, okW w = true) lB) by (by eapply Forall_refines, HB; apply layoutW_refines).
  assert (HokC : Forall (λ w, okW w = true) lC).
  { apply Forall_fmap, Forall_forall. by intros s _. }
  assert (HokX : Forall (λ w, okW w = true) (lC ++ lB ++ lA)) by (by rewrite !Forall_app).
  rewrite <- !run_app in HtX |- *. set (X := (lC ++ lB ++ lA)%list) in *.
  assert (HfA : frameEq d1 dA) by (by apply frameEq_run).
  assert (HfX : frameEq dA (run X dA)) by (by apply frameEq_run).
  assert (Hspans : ∀ s, s ∈ querySelectorAll COLORED_SPAN dA →
                        styleHas "color" (styleOf dA s) = true).
  { intros s Hs%elem_of_querySelectorAll. rewrite matches_COLORED_SPAN in Hs.
    apply andb_prop in Hs as [[_ Ht]%andb_prop Hs]. apply String.eqb_eq in Ht.
    by rewrite <- (proj2 (transparent_at dA s HtA) Ht). }
  unfold querySelectorAll. rewrite <- (frame_positions _ _ HfX).
  apply list_filter_iff. intros i. rewrite !matches_COLORED_SPAN.
  rewrite <- (frame_isElementAt _ _ HfX), <- (frame_tagOf _ _ HfX).
  destruct (isElementAt dA i) eqn:Hel; [|done].
  destruct (String.eqb_spec (tagOf dA i) "span") as [Hspan|]; [|done]. cbn.
  pose proof (isElementAt_lt _ _ Hel) as Hlt.
  rewrite (proj2 (transparent_at dA i HtA) Hspan).
  rewrite (proj2 (transparent_at (run X dA) i HtX))
    by (by rewrite <- (frame_tagOf _ _ HfX)).
  rewrite styleOf_run by done.
  rewrite styleHas_overlay; [done|..].
  - intros k v Hin. eapply okW_color_free; [|done].
    by apply (proj1 (Forall_forall _ _) HokX).
  - intros k v Hin Hk. subst X. rewrite !elem_of_app in Hin.
    destruct Hin as [Hin|[Hin|Hin]].
    + right. apply list_elem_of_fmap in Hin as (s & [= -> _ _] & Hs).
      by apply Hspans.
    + apply (proj1 (Forall_forall _ _) HB) in Hin. unfold layoutW in Hin.
      apply andb_prop in Hin as [_ Hin]. unfold declHas in Hin. cbn in Hin.
      rewrite Hk in Hin. cbn in Hin.
      rewrite (frame_tagOf _ _ HfA), Hspan in Hin. done.
    + left. subst dA. rewrite styleOf_run by (by rewrite length_run in Hlt).
      by eapply overlay_written.
  - intros Hs. exists "color", "#000000". split; [|done].
    subst X. apply elem_of_app. left. apply (list_elem_of_fmap_2 blacken).
    apply elem_of_querySelectorAll_2. rewrite matches_COLORED_SPAN.
    rewrite Hel, Hspan. cbn. by rewrite (proj2 (transparent_at dA i HtA) Hspan).
Qed.

Lemma printStyling_eq (d : Doc) :
  printStyling d
  = match printPalette d with
    | (Ok _, lA) =>
        let lC := blacken <$> querySelectorAll COLORED_SPAN (run lA d) in
        let '(r, lB) := printLayout (run lC (run lA d)) in
        (r, (lA ++ lC ++ lB)%list)
    | (Throw e, lA) => (Throw e, lA)
    end.
Proof.
  unfold printStyling. unfold bind at 1. destruct (printPalette d) as [[[]|e] lA]; [|done].
  unfold bind. rewrite coloredSpans_eq. cbn zeta.
  by destruct (printLayout _).
Qed.

Lemma viewW_blacken (d0 : Doc) (s : nat) : viewW d0 (blacken s) = true.
Proof. reflexivity. Qed.

Lemma printStyling_log (d : Doc) :
  ∃ rest, (printStyling d).2 = ((printPalette d).2 ++ rest)%list.
Proof.
  rewrite printStyling_eq. destruct (printPalette d) as [[[]|e] lA]; cbn.
  - destruct (printLayout _) as [r lB]. cbn. by eexists.
  - exists []. by rewrite app_nil_r.
Qed.

Lemma Forall_states_at (P : Doc → Prop) (l1 l2 : list Write) (d : Doc) :
  Forall P (states (l1 ++ l2) d) → P (run l1 d).
Proof. rewrite Forall_states_app. intros [_ H]. by apply Forall_states_head in H. Qed.

(** Running the styling on the page it has produced makes the same
    writes again, when the page stays transparent all along the two
    runs. *)
Lemma printStyling_replay (d1 : Doc) (r : Result unit) (ws : list Write) :
  (∀ i, i ∈ hidden d1 → inlineBlockStrong d1 i = false) →
  viewEq d1 d1 →
  printStyling d1 = (r, ws) →
  Forall (λ s, transparent s = true)
         (states (ws ++ (printStyling (run ws d1)).2) d1) →
  printStyling (run ws d1) = (r, ws).
Proof.
  intros Hhid Hv0 Hps Hclear.
  pose proof (sound_printPalette d1) as HsA.
  pose proof (sound_printLayout d1 Hhid) as HsB.
  pose proof Hclear as Hboth.
  apply Forall_states_app in Hclear as [Hc1 Hc2].
  destruct (printStyling_log (run ws d1)) as [rest2 Hrest2].
  assert (HcA2 : clear printPalette (run ws d1)).
  { unfold clear. rewrite Hrest2 in Hc2. by apply Forall_states_app in Hc2 as [? _]. }
  destruct (printStyling_log d1) as [rest1 Hrest1].
  assert (HcA1 : clear printPalette d1).
  { unfold clear. rewrite Hps in Hrest1. cbn [snd] in Hrest1. rewrite Hrest1 in Hc1.
    by apply Forall_states_app in Hc1 as [? _]. }
  clear rest1 Hrest1 rest2 Hrest2.
  rewrite printStyling_eq in Hps.
  destruct (HsA d1 (frameEq_refl d1)) as [HA HrA].
  destruct (printPalette d1) as [[[]|e] lA] eqn:EA; cbn [snd] in HA.
  2:{ injection Hps as <- <-. rewrite printStyling_eq.
      rewrite HrA; [done| |done..]. by apply viewEq_run_r. }
  set (dA := run lA d1) in *.
  set (lC := blacken <$> querySelectorAll COLORED_SPAN dA) in *.
  cbn zeta in Hps.
  assert (HokA : Forall (λ w, okW w = true) lA) by (by eapply Forall_refines, HA; apply viewW_refines).
  assert (HC : Forall (λ w, viewW d1 w = true) lC).
  { apply Forall_fmap, Forall_forall. intros s _. apply viewW_blacken. }
  assert (HokC : Forall (λ w, okW w = true) lC) by (by eapply Forall_refines, HC; apply viewW_refines).
  assert (HfC : frameEq d1 (run lC dA)).
  { subst dA. rewrite <- run_app. apply frameEq_run. by apply Forall_app. }
  destruct (HsB _ HfC) as [HB HrB].
  destruct (printLayout (run lC dA)) as [rB lB] eqn:EB; cbn [snd] in HB.
  injection Hps as <- <-.
  assert (HBv : Forall (λ w, viewW d1 w = true) lB).
  { eapply Forall_impl; [exact HB|]. intros w. apply layoutW_viewW. }
  assert (Hws : Forall (λ w, viewW d1 w = true) (lA ++ lC ++ lB))
    by (by rewrite !Forall_app).
  set (ws := (lA ++ lC ++ lB)%list) in *.
  (* the palette of the second run *)
  assert (EA2 : printPalette (run ws d1) = (Ok tt, lA)).
  { apply HrA; [|done..]. by apply viewEq_run_r. }
  rewrite printStyling_eq in Hc2 |- *. rewrite EA2 in Hc2 |- *. cbn zeta in Hc2 |- *.
  (* its coloured spans *)
  assert (HtA : transparent dA = true).
  { exact (Forall_states_at (λ s, transparent s = true) lA (lC ++ lB) d1 Hc1). }
  assert (HtA2 : transparent (run lA (run ws d1)) = true).
  { destruct (printLayout _) as [rB2 lB2] in Hc2. cbn [snd] in Hc2.
    exact (Forall_states_at (λ s, transparent s = true) lA _ (run ws d1) Hc2). }
  assert (Hst : querySelectorAll COLORED_SPAN (run lA (run ws d1))
                = querySelectorAll COLORED_SPAN dA).
  { subst ws. rewrite !run_app in HtA2 |- *. fold dA in HtA2 |- *.
    by apply (coloredSpans_stable d1 lA lB HA HB). }
  rewrite Hst in Hc2 |- *. fold lC in Hc2 |- *.
  (* its layout *)
  assert (EB2 : printLayout (run lC (run lA (run ws d1))) = (rB, lB)).
  { apply HrB.
    - eapply viewEq_trans.
      + apply viewEq_sym. subst dA. rewrite <- run_app.
        apply viewEq_run_r; [by apply Forall_app|exact Hv0].
      + rewrite <- !run_app.
        apply viewEq_run_r; [by rewrite !Forall_app|exact Hv0].
    - unfold clear. rewrite EB. cbn [snd]. subst ws dA.
      rewrite app_assoc in Hc1. apply Forall_states_app in Hc1 as [_ Hc1].
      by rewrite run_app in Hc1.
    - unfold clear.
      destruct (printLayout (run lC (run lA (run ws d1)))) as [rB2 lB2].
      cbn [snd] in Hc2 |- *. rewrite app_assoc in Hc2. apply Forall_states_app in Hc2 as [_ Hc2].
      by rewrite run_app in Hc2. }
  by rewrite EB2.
Qed.

(** ** Idempotence *)

Lemma forEach_rewriteImage_nil (l : list nat) (d : Doc) :
  (∀ j, j ∈ l → isHosted (resolvedSrc d j) = false) →
  forEach l rewriteImage d = (Ok tt, []).
Proof.
  induction l as [|img l IH]; intros H; [done|].
  rewrite forEach_cons. unfold bind. rewrite rewriteImage_eq.
  rewrite H by constructor. cbn [run foldl].
  rewrite IH; [done|]. intros j Hj. apply H. by constructor.
Qed.

Lemma sameButSrc_styleOf (d d' : Doc) (i : nat) :
  Forall2 sameButSrc d d' → styleOf d i = styleOf d' i.
Proof.
  intros H. unfold styleOf, Doc in *.
  destruct (proj1 (Forall2_lookup _ _ _) H i) as [n n' (_&_&_&_&Hs&_)|]; [exact Hs|done].
Qed.

Lemma steady_sameButSrc (d d' : Doc) :
  Forall2 sameButSrc d d' →
  (∀ i, i ∈ hidden d → inlineBlockStrong d i = false) →
  (∀ n, n ∈ d → tag n = "div" → valuesFree LINE_HEIGHT (style n)) →
  (∀ i, i ∈ hidden d' → inlineBlockStrong d' i = false) ∧ viewEq d' d'.
Proof.
  intros Hsb Hhid Hdiv. pose proof (sameButSrc_frameEq _ _ Hsb) as Hf. split.
  - intros i Hi. unfold hidden in Hi.
    rewrite <- !(frame_querySelector _ _ Hf) in Hi by done.
    unfold inlineBlockStrong, styleGet.
    rewrite <- (frame_tagOf _ _ Hf), <- (sameButSrc_styleOf _ _ i Hsb).
    by apply Hhid.
  - apply viewEq_refl. intros n' Hn' Ht.
    apply list_elem_of_lookup in Hn' as [i Hi].
    destruct (Forall2_lookup_r _ _ _ _ _ Hsb Hi) as (n & Hn & (Htag&_&_&_&Hs&_)).
    rewrite <- Hs. apply Hdiv; [|congruence].
    apply list_elem_of_lookup. by exists i.
Qed.

(** On a steady page, the script run on the page it has produced ends
    with the same result and leaves that page as it is. *)
Lemma optimizations_twice_on_steady_page (d : Doc) :
  steady d →
  evaluate optimizations (evaluate optimizations d).2 = evaluate optimizations d.
Proof.
  intros (Hhid0 & Hdiv0 & Himg & Hclear).
  destruct (optimizations_eq d) as (wsI & r & wsS & HI & HS & HsI & HokS & Hev).
  pose proof (optimizations_writes d wsI wsS r HI HS) as Hlog.
  rewrite Hlog in Himg, Hclear. cbn [snd] in Himg, Hclear.
  rewrite Hev. cbn [snd].
  pose proof (sameButSrc_run wsI d (isSetSrc_weaken _ _ HsI)) as Hsb.
  destruct (steady_sameButSrc _ _ Hsb Hhid0 Hdiv0) as [Hhid Hv0].
  rewrite run_app in Himg, Hclear.
  set (d1 := run wsI d) in *.
  assert (Hf : frameEq d (run wsS d1)).
  { eapply frameEq_trans; [by apply sameButSrc_frameEq|by apply frameEq_run]. }
  assert (HI2 : forEach (querySelectorAll (SelTag "img") (run wsS d1)) rewriteImage
                        (run wsS d1) = (Ok tt, [])).
  { apply forEach_rewriteImage_nil. intros j Hj.
    rewrite <- (frame_querySelectorAll _ _ Hf) in Hj by done. by apply Himg. }
  destruct (printStyling (run wsS d1)) as [r2 ws2] eqn:HS2.
  rewrite (optimizations_writes (run wsS d1) [] ws2 r2 HI2 HS2) in Hclear.
  cbn [snd app] in Hclear.
  rewrite <- app_assoc in Hclear. apply Forall_states_app in Hclear as [_ Hclear].
  fold d1 in Hclear.
  assert (Hreplay : printStyling (run wsS d1) = (r, wsS)).
  { apply printStyling_replay; [done..|]. by rewrite HS2. }
  unfold evaluate. rewrite (optimizations_writes (run wsS d1) [] wsS r HI2 Hreplay).
  cbn [app]. by rewrite run_idempotent.
Qed.

Lemma forallb_Forall {A} (f : A → bool) (l : list A) :
  forallb f l = true → Forall (λ x, f x = true) l.
Proof. rewrite forallb_forall, Forall_forall. intros H x Hx. by apply H, list_elem_of_In. Qed.

(** The provisos of [steady] can be checked by running the script. *)
Lemma steady_by_computation (d : Doc) :
  let first := (optimizations d).2 in
  let second := (optimizations (run first d)).2 in
  forallb (λ i, negb (inlineBlockStrong d i)) (hidden d) = true →
  forallb (λ n, negb (String.eqb (tag n) "div")
                || forallb (λ kv, negb (includes LINE_HEIGHT kv.2))
                           (map_to_list (style n))) d = true →
  forallb (λ i, negb (isHosted (resolvedSrc (run first d) i)))
          (querySelectorAll (SelTag "img") d) = true →
  forallb transparent (states (first ++ second) d) = true →
  steady d.
Proof.
  intros first second H1 H2 H3 H4. unfold steady. fold first. fold second.
  split_and!.
  - intros i Hi. rewrite forallb_forall in H1.
    by apply negb_true_iff, H1, list_elem_of_In.
  - intros n Hn Ht k v Hk. rewrite forallb_forall in H2.
    apply list_elem_of_In, H2 in Hn. rewrite Ht in Hn. cbn in Hn.
    rewrite forallb_forall in Hn. apply elem_of_map_to_list, list_elem_of_In, Hn in Hk.
    by apply negb_true_iff in Hk.
  - intros i Hi. rewrite forallb_forall in H3.
    by apply negb_true_iff, H3, list_elem_of_In.
  - by apply forallb_Forall.
Qed.

Lemma steady_skillsPage : steady skillsPage.
Proof. apply steady_by_computation; vm_compute; reflexivity. Qed.




(** The proviso on the style attributes is needed as well.  Here the
    block of sub-categories is found by the first pass through a line
    height that CSS rejects: the attribute text holds it and the
    declarations do not, so the page is not transparent.  Nothing is
    hidden and no image is there, yet the first pass, writing a colour
    on the block, makes the browser write the attribute anew without
    the rejected declaration, and the second pass no longer finds the
    block and leaves its label black. *)
Remark optimizations_twice_differs_on_rejected_line_height :
  let once := (evaluate optimizations rejectedLineHeight).2 in
  let twice := (evaluate optimizations once).2 in
  hidden rejectedLineHeight = [] ∧
  styleOf rejectedLineHeight 5 = ∅ ∧
  styleAttrHas rejectedLineHeight 5 "line-height" = true ∧
  transparent rejectedLineHeight = false ∧
  styleAttrHas once 5 "line-height" = false ∧
  styleGet once 7 "color" = Some "#0066cc" ∧
  styleGet twice 7 "color" = Some "#000000".
Proof. vm_compute. done. Qed.

(* ================================================================== *)
(** * Part III.  Further properties                                     *)
(* ================================================================== *)

(** ** More on the validator *)

Lemma throwIf_Throw (bad : bool) (e e' : JsError) :
  throwIf bad e = Throw e' → bad = true ∧ e' = e.
Proof. destruct bad; cbn; intros [=]; auto. Qed.

Lemma throwIf_Ok (bad : bool) (e : JsError) :
  throwIf bad e = Ok tt → bad = false.
Proof. by destruct bad. Qed.

Lemma rbind_Throw {A B} (r : Result A) (f : A → Result B) (e : JsError) :
  rbind r f = Throw e → r = Throw e ∨ ∃ a, r = Ok a ∧ f a = Throw e.
Proof. destruct r as [a|e']; cbn; [eauto|intros [= ->]; auto]. Qed.

Lemma rbind_Ok {A B} (r : Result A) (f : A → Result B) (b : B) :
  rbind r f = Ok b → ∃ a, r = Ok a ∧ f a = Ok b.
Proof. destruct r as [a|e']; cbn; [eauto|done]. Qed.

Ltac validator_throw H :=
  repeat first
    [ discriminate H
    | apply rbind_Throw in H as [H|(? & _ & H)]
    | apply throwIf_Throw in H as [_ ->]; by eauto ].

Lemma validateMargin_throws (margin : JsValue) (e : JsError) :
  validateMargin margin = Throw e →
  ∃ message field, e = Err ValidationError message (Some field) None.
Proof.
  unfold validateMargin, marginKeys. cbn [foldl]. intros H.
  unfold newValidationError in H. validator_throw H.
Qed.

Lemma validatePDFConfig_throws (config : option JsValue) (e : JsError) :
  validatePDFConfig config = Throw e →
  ∃ message field, e = Err ValidationError message (Some field) None.
Proof.
  unfold validatePDFConfig, newValidationError. intros H. validator_throw H.
  destruct (getOpt config "margin") as [margin|]; [|done].
  destruct (truthy (Some margin)); [|done]. by apply validateMargin_throws in H.
Qed.

Lemma validateViewport_throws (viewport : option JsValue) (e : JsError) :
  validateViewport viewport = Throw e →
  ∃ message field, e = Err ValidationError message (Some field) None.
Proof. unfold validateViewport, newValidationError. intros H. validator_throw H. Qed.

Lemma validateTimeouts_throws (timeouts : option JsValue) (e : JsError) :
  validateTimeouts timeouts = Throw e →
  ∃ message field, e = Err ValidationError message (Some field) None.
Proof. unfold validateTimeouts, newValidationError. intros H. validator_throw H. Qed.

Lemma validateOutput_throws (output : option JsValue) (e : JsError) :
  validateOutput output = Throw e →
  ∃ message field, e = Err ValidationError message (Some field) None.
Proof. unfold validateOutput, newValidationError. intros H. validator_throw H. Qed.

Lemma whenPresent_Throw (config : option JsValue) (k : string)
    (validator : option JsValue → Result unit) (e : JsError) :
  whenPresent config k validator = Throw e →
  truthy (getOpt config k) = true ∧ validator (getOpt config k) = Throw e.
Proof. unfold whenPresent. by destruct (truthy _). Qed.

Lemma whenPresent_Ok (config : option JsValue) (k : string)
    (validator : option JsValue → Result unit) :
  whenPresent config k validator = Ok tt →
  truthy (getOpt config k) = true → validator (getOpt config k) = Ok tt.
Proof. unfold whenPresent. intros H Ht. by rewrite Ht in H. Qed.

(** Whatever [validateConfig] throws is a [ValidationError]: its class
    and code are those of the class, it carries no original error, and
    only the check of the whole configuration leaves [field] unset. *)
Lemma validateConfig_throws (config : option JsValue) (e : JsError) :
  validateConfig config = Throw e →
  ∃ message field, e = Err ValidationError message field None ∧
    (field = None → notObject config = true).
Proof.
  unfold validateConfig. intros H.
  apply rbind_Throw in H as [H|(? & _ & H)].
  { apply throwIf_Throw in H as [Hbad ->]. by eexists _, None. }
  apply rbind_Throw in H as [H|(? & _ & H)].
  { apply whenPresent_Throw in H as [_ H].
    apply validatePDFConfig_throws in H as (m & f & ->). by eexists m, (Some f). }
  apply rbind_Throw in H as [H|(? & _ & H)].
  { apply whenPresent_Throw in H as [_ H].
    apply validateViewport_throws in H as (m & f & ->). by eexists m, (Some f). }
  apply rbind_Throw in H as [H|(? & _ & H)].
  { apply whenPresent_Throw in H as [_ H].
    apply validateTimeouts_throws in H as (m & f & ->). by eexists m, (Some f). }
  apply whenPresent_Throw in H as [_ H].
  apply validateOutput_throws in H as (m & f & ->). by eexists m, (Some f).
Qed.

(** X1.  [validateConfig] throws nothing but [ValidationError]s: the
    class and code are those of the class and no original error is
    attached. *)
Theorem validateConfig_throws_only_ValidationError (config : option JsValue)
    (e : JsError) :
  validateConfig config = Throw e →
  instanceof e ValidationError = true ∧
  errCode e = Some "VALIDATION_ERROR" ∧
  errOriginal e = None.
Proof. intros H. by apply validateConfig_throws in H as (m & f & -> & _). Qed.

Lemma validateConfig_throws_only_ValidationError_witness :
  ∃ e, validateConfig (Some (JNum (Fin 5))) = Throw e ∧
       instanceof e ValidationError = true.
Proof.
  eexists. split; [reflexivity|].
  exact (proj1 (validateConfig_throws_only_ValidationError
                  (Some (JNum (Fin 5))) _ eq_refl)).
Defined.

(** What an accepted configuration guarantees. *)

Lemma getProp_falsy (v : JsValue) (k : string) :
  truthy (Some v) = false → k ≠ "length" → getProp v k = None.
Proof.
  intros Hv Hk. destruct v as [|b|n|s|l|m]; try done.
  cbn in Hv. apply negb_false_iff, String.eqb_eq in Hv as ->.
  cbn. by rewrite (proj2 (String.eqb_neq k "length") Hk).
Qed.

Lemma getOpt_falsy (v : option JsValue) (k : string) :
  truthy v = false → k ≠ "length" → getOpt v k = None.
Proof. destruct v as [v|]; [apply getProp_falsy|done]. Qed.

Lemma definedAndNot_false (outside : JsNumber → bool) (v : JsValue) :
  definedAndNot outside (Some v) = false → ∃ n, v = JNum n ∧ outside n = false.
Proof. destruct v; cbn; try done. eauto. Qed.

Lemma truthyNonString_false (v : option JsValue) :
  truthyNonString v = false → truthy v = true → ∃ s, v = Some (JStr s).
Proof.
  unfold truthyNonString. intros H Ht. rewrite Ht in H. cbn in H.
  destruct v as [[|b|n|s|l|m]|]; try done. eauto.
Qed.

(** The section [k] of an accepted configuration has passed its
    validator, or is falsy. *)
Lemma validateConfig_sections (config : JsValue) :
  validateConfig (Some config) = Ok tt →
  (truthy (getProp config "pdf") = true →
     validatePDFConfig (getProp config "pdf") = Ok tt) ∧
  (truthy (getProp config "viewport") = true →
     validateViewport (getProp config "viewport") = Ok tt) ∧
  (truthy (getProp config "timeouts") = true →
     validateTimeouts (getProp config "timeouts") = Ok tt) ∧
  (truthy (getProp config "output") = true →
     validateOutput (getProp config "output") = Ok tt).
Proof.
  unfold validateConfig. intros H.
  apply rbind_Ok in H as ([] & _ & H).
  apply rbind_Ok in H as ([] & Hpdf & H).
  apply rbind_Ok in H as ([] & Hview & H).
  apply rbind_Ok in H as ([] & Htime & Hout).
  split_and!; intros Ht.
  - exact (whenPresent_Ok (Some config) "pdf" _ Hpdf Ht).
  - exact (whenPresent_Ok (Some config) "viewport" _ Hview Ht).
  - exact (whenPresent_Ok (Some config) "timeouts" _ Htime Ht).
  - exact (whenPresent_Ok (Some config) "output" _ Hout Ht).
Qed.

Ltac section_field Hsec Hv :=
  match type of Hv with
  | getOpt ?sec ?k = Some _ =>
      destruct (truthy sec) eqn:Ht;
      [specialize (Hsec eq_refl)|by rewrite getOpt_falsy in Hv]
  end.

(** X2.  In a configuration that [validateConfig] accepts, each of
    the six numeric settings, when it is defined, is a number in the
    range its error message names: scale in (0, 1], width, height and
    page-load timeout above 0, device scale factor in [1, 3], image
    timeout at least 0. *)
Theorem validateConfig_numbers_in_range (config : JsValue) (v : JsValue) :
  validateConfig (Some config) = Ok tt →
  (getOpt (getProp config "pdf") "scale" = Some v →
     ∃ n, v = JNum n ∧ num_ltb zero n = true ∧ num_leb n one = true) ∧
  (getOpt (getProp config "viewport") "width" = Some v →
     ∃ n, v = JNum n ∧ num_ltb zero n = true) ∧
  (getOpt (getProp config "viewport") "height" = Some v →
     ∃ n, v = JNum n ∧ num_ltb zero n = true) ∧
  (getOpt (getProp config "viewport") "deviceScaleFactor" = Some v →
     ∃ n, v = JNum n ∧ num_leb one n = true ∧ num_leb n three = true) ∧
  (getOpt (getProp config "timeouts") "pageLoad" = Some v →
     ∃ n, v = JNum n ∧ num_ltb zero n = true) ∧
  (getOpt (getProp config "timeouts") "imageRender" = Some v →
     ∃ n, v = JNum n ∧ num_leb zero n = true).
Proof.
  intros H. apply validateConfig_sections in H as (Hpdf & Hview & Htime & _).
  unfold num_ltb. split_and!; intros Hv.
  - section_field Hpdf Hv. unfold validatePDFConfig in Hpdf.
    apply rbind_Ok in Hpdf as ([] & _ & Hpdf).
    apply rbind_Ok in Hpdf as ([] & _ & Hpdf).
    apply rbind_Ok in Hpdf as ([] & Hs & _).
    apply throwIf_Ok in Hs. rewrite Hv in Hs.
    apply definedAndNot_false in Hs as (n & -> & Hn).
    apply orb_false_elim in Hn as [H1 H2]. exists n. rewrite H1.
    unfold num_ltb in H2. apply negb_false_iff in H2. done.
  - section_field Hview Hv. unfold validateViewport in Hview.
    apply rbind_Ok in Hview as ([] & _ & Hview).
    apply rbind_Ok in Hview as ([] & Hs & _).
    apply throwIf_Ok in Hs. rewrite Hv in Hs.
    apply definedAndNot_false in Hs as (n & -> & Hn). exists n. by rewrite Hn.
  - section_field Hview Hv. unfold validateViewport in Hview.
    apply rbind_Ok in Hview as ([] & _ & Hview).
    apply rbind_Ok in Hview as ([] & _ & Hview).
    apply rbind_Ok in Hview as ([] & Hs & _).
    apply throwIf_Ok in Hs. rewrite Hv in Hs.
    apply definedAndNot_false in Hs as (n & -> & Hn). exists n. by rewrite Hn.
  - section_field Hview Hv. unfold validateViewport in Hview.
    apply rbind_Ok in Hview as ([] & _ & Hview).
    apply rbind_Ok in Hview as ([] & _ & Hview).
    apply rbind_Ok in Hview as ([] & _ & Hs).
    apply throwIf_Ok in Hs. rewrite Hv in Hs.
    apply definedAndNot_false in Hs as (n & -> & Hn).
    apply orb_false_elim in Hn as [H1 H2]. unfold num_ltb in H1, H2.
    apply negb_false_iff in H1, H2. by exists n.
  - section_field Htime Hv. unfold validateTimeouts in Htime.
    apply rbind_Ok in Htime as ([] & _ & Htime).
    apply rbind_Ok in Htime as ([] & Hs & _).
    apply throwIf_Ok in Hs. rewrite Hv in Hs.
    apply definedAndNot_false in Hs as (n & -> & Hn). exists n. by rewrite Hn.
  - section_field Htime Hv. unfold validateTimeouts in Htime.
    apply rbind_Ok in Htime as ([] & _ & Htime).
    apply rbind_Ok in Htime as ([] & _ & Hs).
    apply throwIf_Ok in Hs. rewrite Hv in Hs.
    apply definedAndNot_false in Hs as (n & -> & Hn).
    unfold num_ltb in Hn. apply negb_false_iff in Hn. by exists n.
Qed.

Lemma validateConfig_numbers_in_range_witness :
  ∃ n, int 800 = JNum n ∧ num_ltb zero n = true.
Proof.
  refine (proj1 (proj2 (validateConfig_numbers_in_range narrowViewport (int 800) _)) _).
  - vm_compute. reflexivity.
  - vm_compute. reflexivity.
Defined.

Lemma validateMargin_Ok (margin : JsValue) (key : string) :
  validateMargin margin = Ok tt → key ∈ marginKeys →
  truthyNonString (getProp margin key) = false.
Proof.
  unfold validateMargin, marginKeys. cbn [foldl]. intros H Hkey.
  apply rbind_Ok in H as ([] & H & H4%throwIf_Ok).
  apply rbind_Ok in H as ([] & H & H3%throwIf_Ok).
  apply rbind_Ok in H as ([] & H & H2%throwIf_Ok).
  apply rbind_Ok in H as ([] & _ & H1%throwIf_Ok).
  repeat (apply elem_of_cons in Hkey as [->|Hkey]; [done|]).
  by apply elem_of_nil in Hkey.
Qed.

(** X3.  In a configuration that [validateConfig] accepts, the paper
    format, the output file name and the four margin sides are strings
    whenever they are truthy. *)
Theorem validateConfig_truthy_texts_are_strings (config : JsValue) :
  validateConfig (Some config) = Ok tt →
  (truthy (getOpt (getProp config "pdf") "format") = true →
     ∃ s, getOpt (getProp config "pdf") "format" = Some (JStr s)) ∧
  (truthy (getOpt (getProp config "output") "filename") = true →
     ∃ s, getOpt (getProp config "output") "filename" = Some (JStr s)) ∧
  (∀ key, key ∈ marginKeys →
     truthy (getOpt (getOpt (getProp config "pdf") "margin") key) = true →
     ∃ s, getOpt (getOpt (getProp config "pdf") "margin") key = Some (JStr s)).
Proof.
  intros H. apply validateConfig_sections in H as (Hpdf & _ & _ & Hout).
  split_and!.
  - intros Hv. destruct (truthy (getProp config "pdf")) eqn:Ht;
      [specialize (Hpdf eq_refl)|by rewrite getOpt_falsy in Hv].
    unfold validatePDFConfig in Hpdf.
    apply rbind_Ok in Hpdf as ([] & _ & Hpdf).
    apply rbind_Ok in Hpdf as ([] & Hs%throwIf_Ok & _).
    by apply truthyNonString_false.
  - intros Hv. destruct (truthy (getProp config "output")) eqn:Ht;
      [specialize (Hout eq_refl)|by rewrite getOpt_falsy in Hv].
    unfold validateOutput in Hout.
    apply rbind_Ok in Hout as ([] & _ & Hs%throwIf_Ok).
    by apply truthyNonString_false.
  - intros key Hkey Hv.
    assert (Hlen : key ≠ "length").
    { intros ->. unfold marginKeys in Hkey.
      repeat (apply elem_of_cons in Hkey as [?|Hkey]; [done|]).
      by apply elem_of_nil in Hkey. }
    destruct (truthy (getProp config "pdf")) eqn:Ht;
      [specialize (Hpdf eq_refl)
      |by rewrite (getOpt_falsy (getProp config "pdf")), getOpt_falsy in Hv].
    destruct (getOpt (getProp config "pdf") "margin") as [margin|] eqn:Hm; [|done].
    destruct (truthy (Some margin)) eqn:Htm; [|by rewrite getOpt_falsy in Hv].
    unfold validatePDFConfig in Hpdf.
    apply rbind_Ok in Hpdf as ([] & _ & Hpdf).
    apply rbind_Ok in Hpdf as ([] & _ & Hpdf).
    apply rbind_Ok in Hpdf as ([] & _ & Hpdf).
    rewrite Hm, Htm in Hpdf.
    apply truthyNonString_false; [|done].
    by apply validateMargin_Ok.
Qed.

Lemma validateConfig_truthy_texts_are_strings_witness :
  ∃ s, getOpt (getProp narrowViewport "output") "filename" = Some (JStr s).
Proof.
  refine (proj1 (proj2 (validateConfig_truthy_texts_are_strings narrowViewport _)) _).
  - vm_compute. reflexivity.
  - vm_compute. reflexivity.
Defined.

(** ** More on the loader *)

Lemma loadConfig_catch_throws (lg : Logger) (configPath : string)
    (error e : JsError) (calls : list ConsoleCall) :
  loadConfig_catch lg configPath error = (Throw e, calls) →
  instanceof e ConfigurationError = true ∧ calls = [].
Proof.
  unfold loadConfig_catch.
  destruct (instanceof error ConfigurationError) eqn:Hc; [by intros [= <- <-]|].
  destruct (instanceof error SyntaxError); [by intros [= <- <-]|done].
Qed.

(** X4.  Whatever [loadConfig] throws is a [ConfigurationError], and
    before throwing it has written nothing to the console: failures to
    read the file never escape, they are answered with the defaults. *)
Theorem loadConfig_throws_only_ConfigurationError (h : Host) (lg : Logger)
    (configPath : string) (e : JsError) (calls : list ConsoleCall) :
  loadConfig h lg configPath = (Throw e, calls) →
  instanceof e ConfigurationError = true ∧
  errCode e = Some "CONFIGURATION_ERROR" ∧
  calls = [].
Proof.
  intros H.
  assert (instanceof e ConfigurationError = true ∧ calls = []) as [He ->].
  { unfold loadConfig in H.
    destruct (existsSync h configPath); cbn [negb] in H; [|done].
    destruct (readFileSync h configPath) as [configData|e0];
      [|by eapply loadConfig_catch_throws].
    destruct (JSON_parse h configData) as [msg|userConfig];
      [by eapply loadConfig_catch_throws|].
    destruct (validateConfig (Some userConfig));
      [|by eapply loadConfig_catch_throws].
    destruct (mergeWithDefaults userConfig DEFAULT_CONFIG);
      [done|by eapply loadConfig_catch_throws]. }
  split_and!; try done.
  unfold instanceof in He. apply bool_decide_eq_true in He.
  unfold errCode. by rewrite He.
Qed.

Lemma loadConfig_throws_only_ConfigurationError_witness :
  let h := singleFileHost "pdf-config.json" "{viewport" (inl "Unexpected token v") in
  ∃ e, (loadConfig h defaultLogger "pdf-config.json").1 = Throw e ∧
       instanceof e ConfigurationError = true.
Proof.
  eexists. split; [reflexivity|].
  refine (proj1 (loadConfig_throws_only_ConfigurationError
            (singleFileHost "pdf-config.json" "{viewport" (inl "Unexpected token v"))
            defaultLogger "pdf-config.json" _ _ _)).
  reflexivity.
Defined.

(** X5.  A settings file that parses but does not pass [validateConfig]
    makes [loadConfig] throw a [ConfigurationError] whose message is
    [Invalid configuration format:] followed by the validation message
    and whose original error is the validation error; nothing is
    logged and no default is used. *)
Theorem loadConfig_invalid_settings_raise (h : Host) (lg : Logger)
    (configPath configData : string) (userConfig : JsValue) (ve : JsError) :
  existsSync h configPath = true →
  readFileSync h configPath = Ok configData →
  JSON_parse h configData = inr userConfig →
  validateConfig (Some userConfig) = Throw ve →
  loadConfig h lg configPath
  = (Throw (Err ConfigurationError
              ("Invalid configuration format: " +:+ errMessage ve) None (Some ve)),
     []) ∧
  instanceof ve ValidationError = true.
Proof.
  intros He Hr Hp Hv. split.
  - unfold loadConfig. by rewrite He, Hr, Hp, Hv.
  - by apply validateConfig_throws in Hv as (m & f & -> & _).
Qed.

Lemma loadConfig_invalid_settings_raise_witness :
  let h := singleFileHost "pdf-config.json" "{...}" (inr negativeWidth) in
  (loadConfig h defaultLogger "pdf-config.json").1
  = Throw (Err ConfigurationError
             "Invalid configuration format: Viewport width must be a positive number"
             None
             (Some (Err ValidationError "Viewport width must be a positive number"
                        (Some "viewport.width") None))).
Proof.
  cbn zeta.
  rewrite (proj1 (loadConfig_invalid_settings_raise
            (singleFileHost "pdf-config.json" "{...}" (inr negativeWidth))
            defaultLogger "pdf-config.json" "{...}" negativeWidth
            (Err ValidationError "Viewport width must be a positive number"
                 (Some "viewport.width") None)
            eq_refl eq_refl eq_refl eq_refl)).
  reflexivity.
Defined.

(** X6.  When the settings file exists but reading it fails with an
    error that is neither a [ConfigurationError] nor a [SyntaxError],
    [loadConfig] returns a copy of the defaults and the failure is
    reported by one warning at most, and only through the logger. *)
Theorem loadConfig_read_failure_defaults (h : Host) (lg : Logger)
    (configPath : string) (e : JsError) :
  existsSync h configPath = true →
  readFileSync h configPath = Throw e →
  errClass e ≠ ConfigurationError → errClass e ≠ SyntaxError →
  loadConfig h lg configPath
  = (Ok (JObj DEFAULT_CONFIG),
     if levelAtMost lg LOG_LEVELS.WARN
     then [ {| c_method := console_warn;
               c_text := "[WARN] Warning: Could not load config from "
                           +:+ configPath +:+ ", using defaults";
               c_data := None |} ]
     else []).
Proof.
  intros He Hr Hc Hs. unfold loadConfig. rewrite He, Hr. cbn [negb].
  unfold loadConfig_catch, instanceof. rewrite !bool_decide_false by done.
  rewrite getDefaultConfig_eq. unfold logger_warn.
  destruct (levelAtMost _ _); reflexivity.
Qed.

Lemma loadConfig_read_failure_defaults_witness :
  (loadConfig unreadableHost defaultLogger "pdf-config.json").1 = Ok (JObj DEFAULT_CONFIG).
Proof.
  rewrite (loadConfig_read_failure_defaults unreadableHost defaultLogger
             "pdf-config.json"
             (Err SystemError "EACCES: permission denied" None None)
             eq_refl eq_refl); [reflexivity|discriminate|discriminate].
Defined.

(** ** More on the merge *)

Lemma mergeSection_lookup_eq (userConfig : JsValue) (k : string)
    (merged : gmap string JsValue) :
  mergeSection userConfig k merged !! k
  = if truthy (getProp userConfig k)
    then Some (JObj (spread (merged !! k) (getProp userConfig k)))
    else merged !! k.
Proof. unfold mergeSection. destruct (truthy _); [by rewrite lookup_insert_eq|done]. Qed.

(** The merge as a chain of section merges after the [pdf] step. *)
Lemma mergeWithDefaults_unfold (userConfig : JsValue)
    (defaultConfig : gmap string JsValue) :
  userConfig ≠ JNull →
  ∃ pdf,
    mergeWithDefaults userConfig defaultConfig
    = Ok (JObj (mergeSection userConfig "output"
                 (mergeSection userConfig "timeouts"
                    (mergeSection userConfig "viewport"
                       (if truthy (getProp userConfig "pdf")
                        then <["pdf" := JObj pdf]> (deepClone <$> defaultConfig)
                        else deepClone <$> defaultConfig))))) ∧
    ∀ f, f ≠ "margin" →
      pdf !! f = spread ((deepClone <$> defaultConfig) !! "pdf")
                        (getProp userConfig "pdf") !! f.
Proof.
  intros Hnull.
  exists (let pdf := spread ((deepClone <$> defaultConfig) !! "pdf")
                            (getProp userConfig "pdf") in
          if truthy (getOpt (getProp userConfig "pdf") "margin")
          then <["margin" := JObj (spread (pdf !! "margin")
                                     (getOpt (getProp userConfig "pdf") "margin"))]> pdf
          else pdf).
  split.
  - by destruct userConfig.
  - intros f Hf. cbn zeta. destruct (truthy (getOpt _ "margin")); [|done].
    by rewrite lookup_insert_ne.
Qed.

Lemma lookup_spread (a b : option JsValue) (f : string) :
  spread a b !! f
  = match ownProps b !! f with
    | Some v => Some v
    | None => ownProps a !! f
    end.
Proof.
  unfold spread. rewrite lookup_union.
  by destruct (ownProps b !! f), (ownProps a !! f).
Qed.

Lemma mergeWithDefaults_keeps_default (userConfig : JsValue)
    (defaultConfig : gmap string JsValue) (k : string) :
  userConfig ≠ JNull →
  k ∉ SECTIONS ∨ truthy (getProp userConfig k) = false →
  ∃ merged,
    mergeWithDefaults userConfig defaultConfig = Ok (JObj merged) ∧
    merged !! k = deepClone <$> defaultConfig !! k.
Proof.
  intros Hnull Hk.
  destruct (mergeWithDefaults_unfold userConfig defaultConfig Hnull) as (pdf & -> & _).
  eexists. split; [reflexivity|].
  assert (Hstep : ∀ s m, mergeSection userConfig s m !! k = m !! k
                         ∨ (k = s ∧ truthy (getProp userConfig k) = true)).
  { intros s m. destruct (decide (k = s)) as [->|Hne].
    - rewrite mergeSection_lookup_eq. destruct (truthy _); auto.
    - left. by apply mergeSection_lookup_ne. }
  assert (Hfree : ∀ s, s ∈ SECTIONS → ¬ (k = s ∧ truthy (getProp userConfig k) = true)).
  { intros s Hs [-> Ht]. destruct Hk as [Hk|Hk]; [done|congruence]. }
  destruct (Hstep "output" (mergeSection userConfig "timeouts"
              (mergeSection userConfig "viewport"
                 (if truthy (getProp userConfig "pdf")
                  then <["pdf" := JObj pdf]> (deepClone <$> defaultConfig)
                  else deepClone <$> defaultConfig)))) as [->|H];
    [|destruct (Hfree "output"); [unfold SECTIONS; by repeat constructor|done]].
  destruct (Hstep "timeouts" (mergeSection userConfig "viewport"
                 (if truthy (getProp userConfig "pdf")
                  then <["pdf" := JObj pdf]> (deepClone <$> defaultConfig)
                  else deepClone <$> defaultConfig))) as [->|H];
    [|destruct (Hfree "timeouts"); [unfold SECTIONS; by repeat constructor|done]].
  destruct (Hstep "viewport"
                 (if truthy (getProp userConfig "pdf")
                  then <["pdf" := JObj pdf]> (deepClone <$> defaultConfig)
                  else deepClone <$> defaultConfig)) as [->|H];
    [|destruct (Hfree "viewport"); [unfold SECTIONS; by repeat constructor|done]].
  destruct (truthy (getProp userConfig "pdf")) eqn:Hp; [|by rewrite lookup_fmap].
  rewrite lookup_insert_ne; [by rewrite lookup_fmap|].
  intros <-. destruct (Hfree "pdf"); [unfold SECTIONS; by repeat constructor|done].
Qed.

(** X7.  [mergeWithDefaults] only ever merges the four sections: under
    any other key, and under a section the user left falsy, the result
    holds the copy of the default entry, so that a top-level entry of
    the user that is not one of the four sections is dropped. *)
Theorem mergeWithDefaults_other_keys_are_defaults (userConfig : JsValue)
    (defaultConfig : gmap string JsValue) (k : string) :
  userConfig ≠ JNull →
  k ∉ SECTIONS ∨ truthy (getProp userConfig k) = false →
  ∃ merged,
    mergeWithDefaults userConfig defaultConfig = Ok (JObj merged) ∧
    merged !! k = deepClone <$> defaultConfig !! k.
Proof. apply mergeWithDefaults_keeps_default. Qed.

Lemma mergeWithDefaults_other_keys_are_defaults_witness :
  ∃ merged,
    mergeWithDefaults (JObj (obj [("debug", JBool true)])) DEFAULT_CONFIG
    = Ok (JObj merged) ∧
    merged !! "debug" = deepClone <$> DEFAULT_CONFIG !! "debug".
Proof.
  apply mergeWithDefaults_other_keys_are_defaults; [discriminate|].
  left. unfold SECTIONS. intros H.
  repeat (apply elem_of_cons in H as [H|H]; [discriminate H|]).
  by apply elem_of_nil in H.
Defined.

(** The entry of section [s] after the merge. *)
Lemma mergeWithDefaults_section (userConfig : JsValue)
    (defaultConfig : gmap string JsValue) (s : string) :
  userConfig ≠ JNull →
  s ∈ ["viewport"; "timeouts"; "output"] →
  truthy (getProp userConfig s) = true →
  ∃ merged,
    mergeWithDefaults userConfig defaultConfig = Ok (JObj merged) ∧
    merged !! s = Some (JObj (spread (deepClone <$> defaultConfig !! s)
                                     (getProp userConfig s))).
Proof.
  intros Hnull Hs Ht.
  destruct (mergeWithDefaults_unfold userConfig defaultConfig Hnull) as (pdf & -> & _).
  eexists. split; [reflexivity|].
  assert (Hbase : (if truthy (getProp userConfig "pdf")
                   then <["pdf" := JObj pdf]> (deepClone <$> defaultConfig)
                   else deepClone <$> defaultConfig) !! s
                  = deepClone <$> defaultConfig !! s).
  { destruct (truthy (getProp userConfig "pdf")); [|by rewrite lookup_fmap].
    rewrite lookup_insert_ne; [by rewrite lookup_fmap|].
    intros <-. repeat (apply elem_of_cons in Hs as [Hs|Hs]; [discriminate Hs|]).
    by apply elem_of_nil in Hs. }
  apply elem_of_cons in Hs as [->|Hs].
  { rewrite !mergeSection_lookup_ne by done.
    by rewrite mergeSection_lookup_eq, Ht, Hbase. }
  apply elem_of_cons in Hs as [->|Hs].
  { rewrite !mergeSection_lookup_ne by done.
    rewrite mergeSection_lookup_eq, Ht.
    by rewrite mergeSection_lookup_ne, Hbase by done. }
  apply elem_of_cons in Hs as [->|Hs]; [|by apply elem_of_nil in Hs].
  rewrite mergeSection_lookup_eq, Ht.
  by rewrite !mergeSection_lookup_ne, Hbase by done.
Qed.

(** X8.  Inside a section the user has set, the user's entries win
    and the defaults fill the rest: a setting of [viewport],
    [timeouts] or [output], and a setting of [pdf] other than the
    margin, is the user's own when the user's section has it, and the
    copy of the default's otherwise. *)
Theorem mergeWithDefaults_user_entries_win (userConfig : JsValue)
    (defaultConfig : gmap string JsValue) (s f : string) :
  userConfig ≠ JNull →
  s ∈ SECTIONS → (s = "pdf" → f ≠ "margin") →
  truthy (getProp userConfig s) = true →
  ∃ merged,
    mergeWithDefaults userConfig defaultConfig = Ok (JObj merged) ∧
    getOpt (merged !! s) f
    = match ownProps (getProp userConfig s) !! f with
      | Some v => Some v
      | None => ownProps (deepClone <$> defaultConfig !! s) !! f
      end.
Proof.
  intros Hnull Hs Hf Ht. apply elem_of_cons in Hs as [->|Hs].
  - destruct (mergeWithDefaults_unfold userConfig defaultConfig Hnull)
      as (pdf & -> & Hpdf).
    eexists. split; [reflexivity|].
    rewrite !mergeSection_lookup_ne, Ht, lookup_insert_eq by done.
    cbn [getOpt mbind option_bind getProp].
    by rewrite Hpdf, lookup_spread, lookup_fmap by auto.
  - destruct (mergeWithDefaults_section userConfig defaultConfig s Hnull Hs Ht)
      as (merged & -> & Hm).
    eexists. split; [reflexivity|]. rewrite Hm.
    cbn [getOpt mbind option_bind getProp]. apply lookup_spread.
Qed.

Lemma mergeWithDefaults_user_entries_win_witness :
  ∃ merged,
    mergeWithDefaults narrowViewport (ownProps (Some Legacy.getDefaultConfig))
    = Ok (JObj merged) ∧
    getOpt (merged !! "viewport") "height" = Some (int 1600).
Proof.
  destruct (mergeWithDefaults_user_entries_win narrowViewport
              (ownProps (Some Legacy.getDefaultConfig)) "viewport" "height")
    as (merged & Hm & Hv).
  - discriminate.
  - unfold SECTIONS. by repeat constructor.
  - discriminate.
  - vm_compute. reflexivity.
  - exists merged. split; [exact Hm|]. rewrite Hv. vm_compute. reflexivity.
Defined.

Lemma validateConfig_not_null (userConfig : JsValue) :
  validateConfig (Some userConfig) = Ok tt → userConfig ≠ JNull.
Proof. by intros H ->. Qed.

(** X9.  With the defaults as shipped, whose sections are named in
    upper case, a settings file that loads gets no default at all in
    [viewport], [timeouts] and [output]: each is exactly what the file
    says, and is undefined when the file leaves it out, while the
    default values stay under their upper-case names. *)
Theorem loadConfig_sections_are_the_files (h : Host) (lg : Logger)
    (configPath configData : string) (userConfig : JsValue) (s : string) :
  existsSync h configPath = true →
  readFileSync h configPath = Ok configData →
  JSON_parse h configData = inr userConfig →
  validateConfig (Some userConfig) = Ok tt →
  s ∈ ["viewport"; "timeouts"; "output"] →
  ∃ merged,
    (loadConfig h lg configPath).1 = Ok (JObj merged) ∧
    merged !! s = (if truthy (getProp userConfig s)
                   then Some (JObj (ownProps (getProp userConfig s)))
                   else None) ∧
    merged !! "VIEWPORT" = DEFAULT_CONFIG !! "VIEWPORT" ∧
    merged !! "TIMEOUTS" = DEFAULT_CONFIG !! "TIMEOUTS" ∧
    merged !! "OUTPUT" = DEFAULT_CONFIG !! "OUTPUT".
Proof.
  intros He Hr Hp Hv Hs. pose proof (validateConfig_not_null _ Hv) as Hnull.
  assert (Hnone : DEFAULT_CONFIG !! s = None).
  { repeat (apply elem_of_cons in Hs as [->|Hs]; [reflexivity|]).
    by apply elem_of_nil in Hs. }
  assert (Hupper : ∀ k merged,
            k ∈ ["VIEWPORT"; "TIMEOUTS"; "OUTPUT"] →
            mergeWithDefaults userConfig DEFAULT_CONFIG = Ok (JObj merged) →
            merged !! k = DEFAULT_CONFIG !! k).
  { intros k merged Hk Hm.
    destruct (mergeWithDefaults_keeps_default userConfig DEFAULT_CONFIG k Hnull)
      as (merged' & Hm' & Hk').
    - left. unfold SECTIONS. intros Hin.
      repeat (apply elem_of_cons in Hk as [->|Hk];
              [repeat (apply elem_of_cons in Hin as [Hin|Hin]; [discriminate Hin|]);
               by apply elem_of_nil in Hin|]).
      by apply elem_of_nil in Hk.
    - rewrite Hm in Hm'. injection Hm' as <-. rewrite Hk'.
      repeat (apply elem_of_cons in Hk as [->|Hk]; [vm_compute; reflexivity|]).
      by apply elem_of_nil in Hk. }
  unfold loadConfig. rewrite He, Hr, Hp, Hv. cbn [negb].
  destruct (truthy (getProp userConfig s)) eqn:Ht.
  - destruct (mergeWithDefaults_section userConfig DEFAULT_CONFIG s Hnull Hs Ht)
      as (merged & Hm & Hsec).
    rewrite Hm. exists merged. split; [done|]. split.
    + rewrite Hsec, Hnone. unfold spread. cbn [fmap option_fmap option_map ownProps].
      by rewrite (right_id_L ∅ (∪)).
    + split_and!; apply Hupper; try done; by repeat constructor.
  - destruct (mergeWithDefaults_keeps_default userConfig DEFAULT_CONFIG s Hnull)
      as (merged & Hm & Hsec); [by right|].
    rewrite Hm. exists merged. split; [done|]. split.
    + by rewrite Hsec, Hnone.
    + split_and!; apply Hupper; try done; by repeat constructor.
Qed.

Lemma loadConfig_sections_are_the_files_witness :
  let h := singleFileHost "pdf-config.json" "{...}" (inr narrowViewport) in
  ∃ merged,
    (loadConfig h defaultLogger "pdf-config.json").1 = Ok (JObj merged) ∧
    getOpt (merged !! "viewport") "height" = None ∧
    merged !! "timeouts" = None.
Proof.
  cbn zeta.
  destruct (loadConfig_sections_are_the_files
              (singleFileHost "pdf-config.json" "{...}" (inr narrowViewport))
              defaultLogger "pdf-config.json" "{...}" narrowViewport "viewport"
              eq_refl eq_refl eq_refl) as (merged & Hm & Hv & _).
  { vm_compute. reflexivity. }
  { by repeat constructor. }
  destruct (loadConfig_sections_are_the_files
              (singleFileHost "pdf-config.json" "{...}" (inr narrowViewport))
              defaultLogger "pdf-config.json" "{...}" narrowViewport "timeouts"
              eq_refl eq_refl eq_refl) as (merged' & Hm' & Ht & _).
  { vm_compute. reflexivity. }
  { by repeat constructor. }
  rewrite Hm in Hm'. injection Hm' as <-.
  exists merged. split; [exact Hm|]. split.
  - rewrite Hv. vm_compute. reflexivity.
  - rewrite Ht. vm_compute. reflexivity.
Defined.

(** ** The logger *)

Lemma levelAtMost_mono (lg : Logger) (a b : Z) :
  (a ≤ b)%Z → levelAtMost lg a = true → levelAtMost lg b = true.
Proof.
  unfold levelAtMost. destruct (level lg) as [n|]; [|done].
  intros Hab Ha%bool_decide_eq_true. apply bool_decide_eq_true. lia.
Qed.

(** X10.  The four methods are ordered by severity: at any level at
    which a method prints, every more severe method prints as well;
    each prints one line at most.  A logger whose level is not a
    number, as when [LOG_LEVEL] does not parse, prints nothing at all,
    errors included, and so does one whose level is above [ERROR]. *)
Theorem logger_methods_ordered_by_severity (lg : Logger) (message : string)
    (data : option JsValue) (error : option JsError) :
  (logger_debug lg message data ≠ [] → logger_info lg message data ≠ []) ∧
  (logger_info lg message data ≠ [] → logger_warn lg message data ≠ []) ∧
  (logger_warn lg message data ≠ [] → logger_error lg message error ≠ []) ∧
  (length (logger_debug lg message data) ≤ 1 ∧
   length (logger_info lg message data) ≤ 1 ∧
   length (logger_warn lg message data) ≤ 1 ∧
   length (logger_error lg message error) ≤ 1)%nat ∧
  ((level lg = None ∨ ∃ n, level lg = Some n ∧ (LOG_LEVELS.ERROR < n)%Z) →
   logger_debug lg message data = [] ∧ logger_info lg message data = [] ∧
   logger_warn lg message data = [] ∧ logger_error lg message error = []).
Proof.
  unfold logger_debug, logger_info, logger_warn, logger_error.
  split_and!.
  - destruct (levelAtMost lg LOG_LEVELS.DEBUG) eqn:H; [|done]. intros _.
    by rewrite (levelAtMost_mono lg LOG_LEVELS.DEBUG LOG_LEVELS.INFO).
  - destruct (levelAtMost lg LOG_LEVELS.INFO) eqn:H; [|done]. intros _.
    by rewrite (levelAtMost_mono lg LOG_LEVELS.INFO LOG_LEVELS.WARN).
  - destruct (levelAtMost lg LOG_LEVELS.WARN) eqn:H; [|done]. intros _.
    by rewrite (levelAtMost_mono lg LOG_LEVELS.WARN LOG_LEVELS.ERROR).
  - destruct (levelAtMost lg LOG_LEVELS.DEBUG); cbn; lia.
  - destruct (levelAtMost lg LOG_LEVELS.INFO); cbn; lia.
  - destruct (levelAtMost lg LOG_LEVELS.WARN); cbn; lia.
  - destruct (levelAtMost lg LOG_LEVELS.ERROR); cbn; lia.
  - intros H. assert (He : levelAtMost lg LOG_LEVELS.ERROR = false).
    { unfold levelAtMost. destruct H as [->|(n & -> & Hn)]; [done|].
      apply bool_decide_eq_false. lia. }
    assert (Hle : ∀ a, (a ≤ LOG_LEVELS.ERROR)%Z → levelAtMost lg a = false).
    { intros a Ha. destruct (levelAtMost lg a) eqn:Hl; [|done].
      by rewrite (levelAtMost_mono lg a LOG_LEVELS.ERROR) in He. }
    rewrite He, !Hle; done.
Qed.

(** ** Scripts that read the frame only *)

Section frameSound.
Context {A B : Type} (d0 : Doc) (Φ : Write → bool).

Lemma frameSound_ret (a : A) : frameSound d0 Φ (ret a).
Proof. intros d1 _. split; [constructor|done]. Qed.

Lemma frameSound_throw (e : JsError) : frameSound d0 Φ (@throw A e).
Proof. intros d1 _. split; [constructor|done]. Qed.

Lemma frameSound_write (w : Write) : Φ w = true → frameSound d0 Φ (write w).
Proof. intros Hw d1 _. split; [by repeat constructor|done]. Qed.

Lemma frameSound_bind (m : Script A) (k : A → Script B) :
  refines Φ → frameSound d0 Φ m → (∀ a, frameSound d0 Φ (k a)) →
  frameSound d0 Φ (bind m k).
Proof.
  intros Hok Hm Hk d1 Hf. destruct (Hm d1 Hf) as [Hl1 Hm2]. unfold bind.
  destruct (m d1) as [[a|e] l1] eqn:Hm1; cbn in Hl1.
  - assert (Hok1 : Forall (λ w, okW w = true) l1) by (by apply (Forall_refines Φ)).
    assert (frameEq d0 (run l1 d1)) as Hf1.
    { eapply frameEq_trans; [done|]. by apply frameEq_run. }
    destruct (Hk a _ Hf1) as [Hl2 Hk2].
    destruct (k a (run l1 d1)) as [r l2] eqn:Hk1; cbn in Hl2. split.
    + by apply Forall_app.
    + intros d2 Hf2. rewrite (Hm2 d2 Hf2).
      rewrite (Hk2 (run l1 d2)); [done|].
      eapply frameEq_trans; [apply frameEq_sym, frameEq_run, Hok1|].
      eapply frameEq_trans; [exact Hf2|]. by apply frameEq_run.
  - split; [done|]. intros d2 Hf2. by rewrite (Hm2 d2 Hf2).
Qed.

Lemma frameSound_query_bind (q : Doc → A) (k : A → Script B) :
  (∀ d1 d2, frameEq d1 d2 → q d2 = q d1) →
  (∀ d1, frameEq d0 d1 → frameSound d0 Φ (k (q d1))) →
  frameSound d0 Φ (bind (query q) k).
Proof.
  intros Hq Hk d1 Hf. unfold bind, query. cbn.
  destruct (Hk d1 Hf d1 Hf) as [Hl Hk2].
  destruct (k (q d1) d1) as [r l] eqn:Hk1. split; [done|].
  intros d2 Hf2. rewrite (Hq d1 d2 Hf2), (Hk2 d2 Hf2). done.
Qed.

End frameSound.

Lemma frameSound_forEach {A} (d0 : Doc) (Φ : Write → bool) (l : list A)
      (body : A → Script unit) :
  refines Φ → (∀ x, x ∈ l → frameSound d0 Φ (body x)) →
  frameSound d0 Φ (forEach l body).
Proof.
  intros Hok. induction l as [|x l IH]; intros Hbody; cbn [forEach].
  - apply frameSound_ret.
  - apply frameSound_bind; [done|apply Hbody; by left|intros _].
    apply IH. intros y Hy. apply Hbody. by right.
Qed.

Lemma frameSound_setStyles (d0 : Doc) (Φ : Write → bool) (i : nat)
      (decls : list (string * string)) :
  refines Φ →
  Forall (λ kv, Φ (SetStyle i kv.1 kv.2) = true) decls →
  frameSound d0 Φ (setStyles i decls).
Proof.
  intros Hok Hd. apply frameSound_forEach; [done|]. intros kv Hkv.
  apply frameSound_write. by eapply Forall_forall in Hd.
Qed.

(** What a frame-reading script does twice is what it does once. *)
Lemma frameSound_idempotent {A} (d : Doc) (Φ : Write → bool) (m : Script A) :
  refines Φ → frameSound d Φ m →
  evaluate m (evaluate m d).2 = evaluate m d.
Proof.
  intros Hok Hm. destruct (Hm d (frameEq_refl d)) as [Hl Hsame].
  unfold evaluate. destruct (m d) as [r ws] eqn:Hmd. cbn [snd] in *.
  assert (Hokws : Forall (λ w, okW w = true) ws) by (by apply (Forall_refines Φ)).
  rewrite (Hsame (run ws d)) by (by apply frameEq_run).
  by rewrite run_idempotent.
Qed.

Lemma reachW_refines (sels : list Selector) (d0 : Doc) : refines (reachW sels d0).
Proof. intros w H. unfold reachW in H. by apply andb_prop in H as [? _]. Qed.

Lemma reachW_intro (sels : list Selector) (d0 d1 : Doc) (sel : Selector)
    (x : nat) (w : Write) :
  frameEq d0 d1 → frameSel sel = true → sel ∈ sels →
  matches d1 sel x = true → target w = x → okW w = true →
  reachW sels d0 w = true.
Proof.
  intros Hf Hsel Hin Hm <- Hok. unfold reachW, targeted. rewrite Hok. cbn.
  apply existsb_exists. exists sel. split; [by apply list_elem_of_In|].
  by rewrite (frame_matches _ _ _ _ Hf Hsel).
Qed.

Ltac frame_read :=
  let d1 := fresh "d1" in let d2 := fresh "d2" in let Hf := fresh "Hf12" in
  intros d1 d2 Hf; frame_rewrite Hf; reflexivity.

Ltac reach sels :=
  lazymatch goal with
  | Hf : frameEq ?d0 ?d1, Hx : ?x ∈ querySelectorAll ?sel ?d1
    |- reachW _ ?d0 ?w = true =>
      apply (reachW_intro sels d0 d1 sel x w Hf);
      [reflexivity|by repeat constructor|by apply elem_of_querySelectorAll
      |reflexivity|reflexivity]
  | Hf : frameEq ?d0 ?d1, Hx : querySelector ?sel ?d1 = Some ?x
    |- reachW _ ?d0 ?w = true =>
      apply (reachW_intro sels d0 d1 sel x w Hf);
      [reflexivity|by repeat constructor|by apply querySelector_Some
      |reflexivity|reflexivity]
  end.

Ltac frameSound_step Hok :=
  lazymatch goal with
  | |- frameSound _ _ (bind (query _) _) =>
      apply frameSound_query_bind; [frame_read|intros ? ?]
  | |- frameSound _ _ (bind _ _) => apply frameSound_bind; [exact Hok| |intros ?]
  | |- frameSound _ _ (forEach _ _) => apply frameSound_forEach; [exact Hok|intros ? ?]
  | |- frameSound _ _ (styleAll _ _) => unfold styleAll
  | |- frameSound _ _ (setStyles _ _) =>
      apply frameSound_setStyles; [exact Hok|repeat constructor]
  | |- frameSound _ _ (setStyle _ _ _) => apply frameSound_write
  | |- frameSound _ _ (write _) => apply frameSound_write
  | |- frameSound _ _ (ret _) => apply frameSound_ret
  | |- frameSound _ _ (throw _) => apply frameSound_throw
  | |- frameSound _ _ (whenSome ?o _) => destruct o eqn:?; cbn [whenSome]
  | |- frameSound _ _ (match ?x with _ => _ end) => destruct x eqn:?
  end.

(** ** [DOMManipulator] *)

Lemma frameSound_applyPDFOptimizations (d0 : Doc) :
  frameSound d0 (reachW DOMManipulator.TARGETS d0) DOMManipulator.applyPDFOptimizations.
Proof.
  pose proof (reachW_refines DOMManipulator.TARGETS d0) as Hok.
  unfold DOMManipulator.applyPDFOptimizations, DOMManipulator.styleSectionTitles,
    DOMManipulator.styleProfileImage, DOMManipulator.applyPageBreakRules,
    DOMManipulator.expandCollapsibleContent, DOMManipulator.hideFooter,
    DOMManipulator.optimizeLinks, DOMManipulator.optimizeImages.
  repeat (frameSound_step Hok); cbn [fst snd];
    reach DOMManipulator.TARGETS.
Qed.

(** ** Scripts that never throw *)

Lemma neverThrows_ret {A} (a : A) : neverThrows (ret a).
Proof. by intros d. Qed.

Lemma neverThrows_write (w : Write) : neverThrows (write w).
Proof. by intros d. Qed.

Lemma neverThrows_query {A} (q : Doc → A) : neverThrows (query q).
Proof. by intros d. Qed.

Lemma neverThrows_bind {A B} (m : Script A) (k : A → Script B) :
  neverThrows m → (∀ a, neverThrows (k a)) → neverThrows (bind m k).
Proof.
  intros Hm Hk d. unfold bind. specialize (Hm d).
  destruct (m d) as [[a|e] l1]; [|done].
  specialize (Hk a (run l1 d)). by destruct (k a (run l1 d)) as [r l2].
Qed.

Lemma neverThrows_forEach {A} (l : list A) (body : A → Script unit) :
  (∀ x, neverThrows (body x)) → neverThrows (forEach l body).
Proof.
  intros Hb. induction l as [|x l IH]; [apply neverThrows_ret|].
  apply neverThrows_bind; [apply Hb|by intros _].
Qed.

Ltac neverThrows_step :=
  lazymatch goal with
  | |- neverThrows (bind _ _) => apply neverThrows_bind; [|intros ?]
  | |- neverThrows (forEach _ _) => apply neverThrows_forEach; intros ?
  | |- neverThrows (styleAll _ _) => unfold styleAll
  | |- neverThrows (setStyles _ _) => unfold setStyles
  | |- neverThrows (setStyle _ _ _) => apply neverThrows_write
  | |- neverThrows (write _) => apply neverThrows_write
  | |- neverThrows (query _) => apply neverThrows_query
  | |- neverThrows (ret _) => apply neverThrows_ret
  | |- neverThrows (whenSome ?o _) => destruct o; cbn [whenSome]
  end.

Lemma neverThrows_applyPDFOptimizations :
  neverThrows DOMManipulator.applyPDFOptimizations.
Proof.
  unfold DOMManipulator.applyPDFOptimizations, DOMManipulator.styleSectionTitles,
    DOMManipulator.styleProfileImage, DOMManipulator.applyPageBreakRules,
    DOMManipulator.expandCollapsibleContent, DOMManipulator.hideFooter,
    DOMManipulator.optimizeLinks, DOMManipulator.optimizeImages.
  repeat neverThrows_step.
Qed.

Lemma isOk_unit (r : Result unit) : isOk r = true → r = Ok tt.
Proof. by destruct r as [[]|]. Qed.

(** Writes on other nodes leave a node as it is. *)
Lemma lookup_run_other (ws : list Write) (d : Doc) (i : nat) :
  Forall (λ w, target w ≠ i) ws → run ws d !! i = d !! i.
Proof.
  intros H. revert d. induction H as [|w ws Hw _ IH]; intros d; [done|].
  rewrite run_cons, IH, lookup_applyWrite. by rewrite decide_False.
Qed.

(** X14.  [DOMManipulator.applyPDFOptimizations] never throws, whatever
    the page, and is idempotent on every page: run on the page it has
    produced it leaves that page as it is. *)
Theorem applyPDFOptimizations_idempotent (d : Doc) :
  (evaluate DOMManipulator.applyPDFOptimizations d).1 = Ok tt ∧
  evaluate DOMManipulator.applyPDFOptimizations
    (evaluate DOMManipulator.applyPDFOptimizations d).2
  = evaluate DOMManipulator.applyPDFOptimizations d.
Proof.
  split.
  - pose proof (neverThrows_applyPDFOptimizations d) as H. unfold evaluate.
    destruct (DOMManipulator.applyPDFOptimizations d) as [r ws]. by apply isOk_unit.
  - eapply frameSound_idempotent; [apply reachW_refines|].
    apply frameSound_applyPDFOptimizations.
Qed.

(** X15.  [DOMManipulator.applyPDFOptimizations] changes no node that
    none of its selectors reaches, and on the others it changes styles
    and the class [expanded] only: every node keeps its tag, parent,
    text and image source, and the page keeps its length. *)
Theorem applyPDFOptimizations_touches_targets_only (d : Doc) (i : nat) :
  let d' := (evaluate DOMManipulator.applyPDFOptimizations d).2 in
  (targeted DOMManipulator.TARGETS d i = false → d' !! i = d !! i) ∧
  length d' = length d ∧
  tagOf d' i = tagOf d i ∧ parentOf d' i = parentOf d i ∧
  textOf d' i = textOf d i ∧ srcOf d' i = srcOf d i.
Proof.
  cbn zeta.
  destruct (frameSound_applyPDFOptimizations d d (frameEq_refl d)) as [Hl _].
  unfold evaluate.
  destruct (DOMManipulator.applyPDFOptimizations d) as [r ws]. cbn [snd] in *.
  assert (Hok : Forall (λ w, okW w = true) ws).
  { eapply Forall_refines; [apply reachW_refines|exact Hl]. }
  pose proof (frameEq_run ws d Hok) as Hf.
  split_and!.
  - intros Hi. apply lookup_run_other.
    eapply Forall_impl; [exact Hl|]. intros w Hw Ht. unfold reachW in Hw.
    apply andb_prop in Hw as [_ Hw]. congruence.
  - by rewrite <- (frame_length _ _ Hf).
  - by rewrite <- (frame_tagOf _ _ Hf).
  - by rewrite <- (frame_parentOf _ _ Hf).
  - by rewrite <- (frame_textOf _ _ Hf).
  - by apply srcOf_run_okW.
Qed.

(** ** The first converter *)

Lemma forEach_writes {A} (l : list A) (body : A → Script unit)
    (f : A → list Write) (d : Doc) :
  (∀ x d, body x d = (Ok tt, f x)) → forEach l body d = (Ok tt, l ≫= f).
Proof.
  intros Hb. revert d. induction l as [|x l IH]; intros d; [done|].
  rewrite forEach_cons. unfold bind. rewrite Hb, IH. done.
Qed.

Lemma bind_Ok {A B} (m : Script A) (k : A → Script B) (d : Doc) (a : A)
    (l : list Write) :
  m d = (Ok a, l) →
  bind m k d = ((k a (run l d)).1, (l ++ (k a (run l d)).2)%list).
Proof. intros H. unfold bind. rewrite H. by destruct (k a (run l d)). Qed.

Lemma okW_titleWrites (d : Doc) : Forall (λ w, okW w = true) (titleWrites d).
Proof.
  unfold titleWrites. apply Forall_bind, Forall_forall. intros x _.
  by repeat constructor.
Qed.

Lemma firstConverterScript_titles (d : Doc) :
  forEach (querySelectorAll (SelClass "section-title") d)
    (λ title,
       setStyle title "borderBottom" "3px solid #007bff";;
       setStyle title "paddingBottom" "10px";;
       setStyle title "marginBottom" "20px")%script d
  = (Ok tt, titleWrites d).
Proof. by apply forEach_writes. Qed.

Lemma firstConverterScript_cases (d : Doc) :
  (querySelector (SelClass "profile-image") d = None →
   evaluate firstConverterScript d
   = (Throw (Err TypeError "Cannot read properties of null (reading 'style')"
                 None None),
      run (titleWrites d) d)) ∧
  (is_Some (querySelector (SelClass "profile-image") d) →
   (evaluate firstConverterScript d).1 = Ok tt).
Proof.
  pose proof (frameEq_run _ d (okW_titleWrites d)) as Hf.
  assert (Himg : querySelector (SelClass "profile-image") (run (titleWrites d) d)
                 = querySelector (SelClass "profile-image") d).
  { by rewrite <- (frame_querySelector _ _ Hf). }
  unfold evaluate, firstConverterScript.
  rewrite bind_query.
  rewrite (bind_Ok _ _ d tt (titleWrites d) (firstConverterScript_titles d)).
  rewrite bind_query, Himg. split.
  - intros ->. unfold bind, throw. cbn [fst snd]. by rewrite app_nil_r.
  - intros [img ->]. cbn [fst snd]. apply isOk_unit.
    match goal with |- isOk (?m ?d').1 = true =>
      assert (Hn : neverThrows m); [|exact (Hn d')] end.
    repeat neverThrows_step.
Qed.

(** X16.  The script of the first converter uses the profile image
    without a null check: on a page without an element of class
    [profile-image] it throws a TypeError after it has styled the
    section titles and before it reaches the page-break rule and the
    footer; on a page with one it does not throw. *)
Theorem firstConverterScript_needs_profile_image (d : Doc) :
  (querySelector (SelClass "profile-image") d = None →
   evaluate firstConverterScript d
   = (Throw (Err TypeError "Cannot read properties of null (reading 'style')"
                 None None),
      run (titleWrites d) d)) ∧
  (is_Some (querySelector (SelClass "profile-image") d) →
   (evaluate firstConverterScript d).1 = Ok tt).
Proof. apply firstConverterScript_cases. Qed.

(** X17.  The first converter has no [try]: the browser is closed
    exactly when every step before has succeeded, the call of
    [page.evaluate] and the script it runs included, so that on a page
    without a profile image no PDF is written and the browser, once
    launched, is never closed. *)
Theorem firstConverter_closes_only_on_success (w : FirstWorld) :
  ((StepClose ∈ (firstConverter w).2) ↔
     (fw_launch w = Ok tt ∧ fw_newPage w = Ok tt ∧ fw_readFile w = Ok tt ∧
      fw_setContent w = Ok tt ∧ fw_evaluate w = Ok tt ∧
      is_Some (querySelector (SelClass "profile-image") (fw_document w)) ∧
      fw_pdf w = Ok tt)) ∧
  (querySelector (SelClass "profile-image") (fw_document w) = None →
   (StepPdf ∉ (firstConverter w).2) ∧ (StepClose ∉ (firstConverter w).2) ∧
   StepLaunch ∈ (firstConverter w).2).
Proof.
  destruct (firstConverterScript_cases (fw_document w)) as [Hnone Hsome].
  assert (Hr : ((evaluate firstConverterScript (fw_document w)).1 = Ok tt)
               ↔ (is_Some (querySelector (SelClass "profile-image") (fw_document w)))).
  { split; [|exact Hsome].
    destruct (querySelector _ (fw_document w)) as [i|]; [by eexists|].
    rewrite Hnone by done. done. }
  unfold firstConverter, andThen, step.
  destruct (evaluate firstConverterScript (fw_document w)).1 as [[]|e] eqn:Hs.
  - assert (Himg : is_Some (querySelector (SelClass "profile-image") (fw_document w)))
      by (by apply Hr).
    split.
    + destruct (fw_launch w) as [[]|], (fw_newPage w) as [[]|],
        (fw_readFile w) as [[]|], (fw_setContent w) as [[]|],
        (fw_evaluate w) as [[]|],
        (fw_pdf w) as [[]|], (fw_close w) as [[]|]; cbn;
        rewrite ?elem_of_cons, ?elem_of_nil; intuition congruence.
    + intros Hn. rewrite Hn in Himg. by destruct Himg.
  - assert (Himg : ¬ is_Some (querySelector (SelClass "profile-image") (fw_document w))).
    { intros H. apply Hr in H. congruence. }
    split.
    + destruct (fw_launch w) as [[]|], (fw_newPage w) as [[]|],
        (fw_readFile w) as [[]|], (fw_setContent w) as [[]|],
        (fw_evaluate w) as [[]|]; cbn;
        rewrite ?elem_of_cons, ?elem_of_nil; intuition congruence.
    + intros _.
      destruct (fw_launch w) as [[]|], (fw_newPage w) as [[]|],
        (fw_readFile w) as [[]|], (fw_setContent w) as [[]|],
        (fw_evaluate w) as [[]|]; cbn;
        rewrite ?elem_of_cons, ?elem_of_nil; intuition congruence.
Qed.

(** ** What the transformation leaves behind *)

Lemma endsWith_refl {A} (m : Script A) : endsWith m m.
Proof. intros d a ws H. exists []. cbn. by rewrite H. Qed.

Lemma endsWith_bind {A B} (m : Script A) (k : A → Script B) (last : Script B) :
  (∀ a, endsWith (k a) last) → endsWith (bind m k) last.
Proof.
  intros Hk d b ws H. unfold bind in H.
  destruct (m d) as [[a|e] l1]; [|done].
  destruct (k a (run l1 d)) as [r l2] eqn:Hk1. injection H as -> <-.
  destruct (Hk a _ _ _ Hk1) as (pre & -> & Hlast).
  exists (l1 ++ pre)%list. rewrite run_app, app_assoc. done.
Qed.

Lemma endsWith_optimizations : endsWith optimizations optimizeImages.
Proof.
  unfold optimizations, printStyling, printLayout.
  repeat (apply endsWith_bind; intros _). apply endsWith_refl.
Qed.

Lemma optimizeImages_eq (d : Doc) : optimizeImages d = (Ok tt, imageWrites d).
Proof.
  unfold optimizeImages, styleAll. rewrite bind_query. by apply forEach_writes.
Qed.

Lemma optimizations_log (d : Doc) :
  Forall (λ w, okW w = true ∨ isSetSrc w = true) (optimizations d).2.
Proof.
  destruct (optimizations_eq d) as (wsI & r & wsS & HI & HS & HsI & HokS & _).
  unfold optimizations, bind. rewrite rewriteImageSources_eq, HI, HS. cbn [snd].
  apply Forall_app. split.
  - eapply Forall_impl; [exact HsI|]. intros w [? _]. by right.
  - eapply Forall_impl; [exact HokS|]. intros w ?. by left.
Qed.

Lemma frameEq_applyWrite_any (d : Doc) (w : Write) :
  okW w = true ∨ isSetSrc w = true → frameEq d (applyWrite d w).
Proof.
  intros [Hw|Hw]; [by apply frameEq_applyWrite|].
  by apply sameButSrc_frameEq, sameButSrc_applyWrite.
Qed.

Lemma frameEq_run_any (ws : list Write) (d : Doc) :
  Forall (λ w, okW w = true ∨ isSetSrc w = true) ws → frameEq d (run ws d).
Proof.
  intros Hws. revert d. induction Hws as [|w ws Hw _ IH]; intros d; [apply frameEq_refl|].
  rewrite run_cons. eapply frameEq_trans; [by apply frameEq_applyWrite_any|apply IH].
Qed.

(** The last value written under a key is one of those written. *)
Lemma overlay_lookup_written (ws : list Write) (i : nat) (st : gmap string string)
    (k v : string) :
  SetStyle i k v ∈ ws →
  ∃ v', overlay ws i st !! k = Some v' ∧ SetStyle i k v' ∈ ws.
Proof.
  revert st. induction ws as [|w ws IH]; intros st H; [by apply elem_of_nil in H|].
  rewrite overlay_cons. apply elem_of_cons in H as [<-|H].
  - destruct (overlay_is_Some ws i (overlay [SetStyle i k v] i st) k) as [v' Hv'].
    { cbn. rewrite bool_decide_true by done. rewrite lookup_insert_eq. by eexists. }
    exists v'. split; [done|].
    apply overlay_lookup_Some in Hv' as [Hv'|Hv']; [|by right].
    cbn in Hv'. rewrite bool_decide_true, lookup_insert_eq in Hv' by done.
    injection Hv' as <-. by left.
  - destruct (IH (overlay [w] i st) H) as (v' & Hv' & Hin).
    exists v'. split; [done|by right].
Qed.

Lemma elem_of_imageWrites (d : Doc) (w : Write) :
  w ∈ imageWrites d ↔
  ∃ img, img ∈ querySelectorAll (SelTag "img") d ∧
         (w = SetStyle img "maxWidth" "100%" ∨ w = SetStyle img "height" "auto").
Proof.
  unfold imageWrites. rewrite list_elem_of_bind. split.
  - intros (img & Hw & Himg). exists img. split; [done|].
    repeat (apply elem_of_cons in Hw as [Hw|Hw]; [by auto|]).
    by apply elem_of_nil in Hw.
  - intros (img & Himg & [Hw|Hw]); subst w; exists img; (split; [|done]);
      by repeat constructor.
Qed.

(** X12.  When the script ends without error, every [img] element of
    the page has the inline [max-width: 100%] and [height: auto]: the
    last step overrides any height set before it, the 15% of the
    profile image included. *)
Theorem optimizations_images_fit_the_page (d : Doc) (i : nat) :
  (evaluate optimizations d).1 = Ok tt →
  matches d (SelTag "img") i = true →
  styleGet (evaluate optimizations d).2 i "maxWidth" = Some "100%" ∧
  styleGet (evaluate optimizations d).2 i "height" = Some "auto".
Proof.
  unfold evaluate. pose proof (optimizations_log d) as Hlog.
  destruct (optimizations d) as [r ws] eqn:Hrun. cbn [fst snd] in *.
  intros -> Himg.
  destruct (endsWith_optimizations d tt ws Hrun) as (pre & -> & _).
  rewrite optimizeImages_eq in *. cbn [snd] in *.
  apply Forall_app in Hlog as [Hpre _].
  pose proof (frameEq_run_any pre d Hpre) as Hf.
  rewrite run_app. set (dB := run pre d) in *.
  assert (HimgB : i ∈ querySelectorAll (SelTag "img") dB).
  { apply elem_of_querySelectorAll_2. by rewrite <- (frame_matches _ _ _ _ Hf). }
  assert (Hlt : (i < length dB)%nat).
  { apply elem_of_querySelectorAll, matches_lt in HimgB. done. }
  unfold styleGet. rewrite styleOf_run by done.
  split.
  - destruct (overlay_lookup_written (imageWrites dB) i (styleOf dB i)
                "maxWidth" "100%") as (v' & -> & Hv').
    { apply elem_of_imageWrites. eauto. }
    apply elem_of_imageWrites in Hv' as (img & _ & [[=]|[=]]). by subst.
  - destruct (overlay_lookup_written (imageWrites dB) i (styleOf dB i)
                "height" "auto") as (v' & -> & Hv').
    { apply elem_of_imageWrites. eauto. }
    apply elem_of_imageWrites in Hv' as (img & _ & [[=]|[=]]). by subst.
Qed.

Lemma optimizations_images_fit_the_page_witness :
  styleGet (evaluate optimizations minimalDocument).2 7 "height" = Some "auto" ∧
  styleGet (evaluate optimizations minimalDocument).2 7 "width" = Some "15%".
Proof.
  split.
  - refine (proj2 (optimizations_images_fit_the_page minimalDocument 7 _ _)).
    + vm_compute. reflexivity.
    + vm_compute. reflexivity.
  - vm_compute. reflexivity.
Defined.

Lemma classesOf_applyWrite (d : Doc) (w : Write) (i : nat) (c : string) :
  c ∈ classesOf d i → c ∈ classesOf (applyWrite d w) i.
Proof.
  unfold classesOf. rewrite lookup_applyWrite. case_decide; [|done].
  unfold Doc in *. destruct (d !! i) as [n|]; [|done]. cbn.
  destruct w; cbn; try done. rewrite elem_of_addToken. auto.
Qed.

Lemma classesOf_run (ws : list Write) (d : Doc) (i : nat) (c : string) :
  c ∈ classesOf d i → c ∈ classesOf (run ws d) i.
Proof.
  revert d. induction ws as [|w ws IH]; intros d H; [done|].
  rewrite run_cons. by apply IH, classesOf_applyWrite.
Qed.

(** X11.  The transformation never adds, removes, moves or renames a
    node and never edits text: the page keeps its length and every
    node its tag, parent and text.  Classes are only ever added, and
    the only class that can appear is [expanded]. *)
Theorem optimizations_keep_structure (d : Doc) (i : nat) (c : string) :
  let d' := (evaluate optimizations d).2 in
  length d' = length d ∧
  tagOf d' i = tagOf d i ∧ parentOf d' i = parentOf d i ∧
  textOf d' i = textOf d i ∧
  (hasClass d i c = true → hasClass d' i c = true) ∧
  (c ≠ "expanded" → hasClass d' i c = hasClass d i c).
Proof.
  cbn zeta. pose proof (optimizations_frame d) as Hf. split_and!.
  - by rewrite <- (frame_length _ _ Hf).
  - by rewrite <- (frame_tagOf _ _ Hf).
  - by rewrite <- (frame_parentOf _ _ Hf).
  - by rewrite <- (frame_textOf _ _ Hf).
  - unfold hasClass, evaluate. destruct (optimizations d) as [r ws]. cbn [snd].
    intros H%bool_decide_eq_true. apply bool_decide_eq_true. by apply classesOf_run.
  - intros Hc. by rewrite <- (frame_hasClass _ _ Hf).
Qed.

(** ** The address of the site's assets *)

Lemma includes_false_cut (sep s : string) :
  includes sep s = false → cut sep s = None.
Proof.
  induction s as [|c s IH]; cbn [cut].
  - rewrite includes_nil. by intros ->.
  - rewrite includes_cons. intros [-> Hs]%orb_false_elim. by rewrite IH.
Qed.

Lemma cut_ASSETS_URL (rest : string) :
  cut "/assets/" (ASSETS_URL +:+ rest) = Some ("https://arnauudg.github.io", rest).
Proof. reflexivity. Qed.

Lemma splitN_first (fuel : nat) (sep s : string) :
  head (splitN fuel sep s)
  = Some match fuel, cut sep s with
         | S _, Some (a, _) => a
         | _, _ => s
         end.
Proof. destruct fuel; [done|]. cbn [splitN]. by destruct (cut sep s) as [[a r]|]. Qed.

Lemma cut_rest_shorter (sep s a r : string) :
  sep ≠ "" → cut sep s = Some (a, r) → (String.length r < String.length s)%nat.
Proof.
  intros Hsep H%cut_length. destruct sep; [done|]. cbn in H. lia.
Qed.

(** What the rewrite makes of an address of the site's assets. *)
Lemma relativeSource_ASSETS_URL (rest : string) :
  relativeSource (ASSETS_URL +:+ rest)
  = "assets/" +:+ match cut "/assets/" rest with
                  | Some (a, _) => a
                  | None => rest
                  end.
Proof.
  unfold relativeSource, split. f_equal.
  assert (Hlen : String.length (ASSETS_URL +:+ rest)
                 = S (33 + String.length rest)).
  { rewrite length_app. reflexivity. }
  rewrite Hlen. cbn [splitN]. rewrite cut_ASSETS_URL.
  change ((?a :: ?l) !! 1%nat) with (l !! 0%nat).
  rewrite <- head_lookup, splitN_first. cbn [Nat.add interpolate default].
  reflexivity.
Qed.

Lemma includes_ASSETS_URL (rest : string) :
  includes HOSTED_ASSETS (ASSETS_URL +:+ rest) = true.
Proof. reflexivity. Qed.

Lemma optimizations_rewrites_hosted (d : Doc) (i : nat) :
  matches d (SelTag "img") i = true →
  isHosted (resolvedSrc d i) = true →
  srcOf (evaluate optimizations d).2 i = relativeSource (resolvedSrc d i).
Proof.
  intros Himg Hi.
  destruct (optimizations_eq d) as (wsI & r & wsS & HI & _ & HsI & HS & ->).
  cbn [snd]. rewrite srcOf_run_okW by done.
  destruct (forEach_rewriteImage (querySelectorAll (SelTag "img") d) d
              (NoDup_querySelectorAll _ d))
    as (ws & HI' & _ & _ & Hnew).
  rewrite HI in HI'. injection HI' as <-.
  apply Hnew; [by apply elem_of_querySelectorAll_2|done].
Qed.

(** X13.  An image whose [src] property, the address as the browser
    has parsed it, is the site's asset address followed by [rest] ends
    with the [src] attribute [assets/] followed by [rest] when [rest]
    holds no further [/assets/]: sub-directories and query string are
    kept as the parsed address writes them.  When [rest] holds one,
    only what comes before it is kept. *)
Theorem optimizations_asset_address (d : Doc) (i : nat) (rest : string) :
  matches d (SelTag "img") i = true →
  resolvedSrc d i = ASSETS_URL +:+ rest →
  srcOf (evaluate optimizations d).2 i
  = "assets/" +:+ match cut "/assets/" rest with
                  | Some (before, _) => before
                  | None => rest
                  end ∧
  (includes "/assets/" rest = false →
   srcOf (evaluate optimizations d).2 i = "assets/" +:+ rest).
Proof.
  intros Himg Hsrc.
  assert (H : srcOf (evaluate optimizations d).2 i
              = "assets/" +:+ match cut "/assets/" rest with
                              | Some (before, _) => before
                              | None => rest
                              end).
  { rewrite optimizations_rewrites_hosted; [|done|].
    - rewrite Hsrc. apply relativeSource_ASSETS_URL.
    - rewrite isHosted_includes, Hsrc. apply includes_ASSETS_URL. }
  split; [exact H|]. intros Hfree. rewrite H. by rewrite includes_false_cut.
Qed.

Lemma optimizations_asset_address_witness :
  srcOf (evaluate optimizations minimalDocument).2 7 = "assets/profile-picture.jpeg".
Proof.
  refine (proj2 (optimizations_asset_address minimalDocument 7
                   "profile-picture.jpeg" _ _) _).
  - vm_compute. reflexivity.
  - vm_compute. reflexivity.
  - vm_compute. reflexivity.
Defined.

(** ** More on the render session *)

Section browserTo.
Context {A B : Type}.

Lemma browserTo_tret (a : A) : browserTo id (tret a).
Proof. intros g. cbn. split; [apply not_elem_of_nil|done]. Qed.

Lemma browserTo_tthrow (e : JsError) : browserTo id (@tthrow A e).
Proof. intros g. cbn. split; [apply not_elem_of_nil|done]. Qed.

Lemma browserTo_liftResult (r : Result A) : browserTo id (liftResult r).
Proof. intros g. cbn. split; [apply not_elem_of_nil|done]. Qed.

Lemma browserTo_getField (f : Generator → A) : browserTo id (getField f).
Proof. intros g. cbn. split; [apply not_elem_of_nil|done]. Qed.

Lemma browserTo_tbind (f : bool → bool) (m : Task A) (k : A → Task B) :
  browserTo f m → (∀ a, browserTo id (k a)) → browserTo f (tbind m k).
Proof.
  intros Hm Hk g. unfold tbind. specialize (Hm g).
  destruct (m g) as [[[a|e] g1] t1]; cbn in *; [|done].
  specialize (Hk a g1). destruct (k a g1) as [[r g2] t2]; cbn in *.
  destruct Hm as [Hm1 Hm2], Hk as [Hk1 Hk2]. split; [|congruence].
  rewrite elem_of_app. tauto.
Qed.

Lemma browserTo_tryCatch (f : bool → bool) (m : Task A) (h : JsError → Task A) :
  browserTo f m → (∀ e, browserTo id (h e)) → browserTo f (tryCatch m h).
Proof.
  intros Hm Hh g. unfold tryCatch. specialize (Hm g).
  destruct (m g) as [[[a|e] g1] t1]; cbn in *; [done|].
  specialize (Hh e g1). destruct (h e g1) as [[r g2] t2]; cbn in *.
  destruct Hm as [Hm1 Hm2], Hh as [Hh1 Hh2]. split; [|congruence].
  rewrite elem_of_app. tauto.
Qed.

End browserTo.

Lemma browserTo_emit (e : Event) : e ≠ ECall CClose → browserTo id (emit e).
Proof.
  intros He g. cbn. split; [|done]. rewrite elem_of_cons, elem_of_nil.
  intros [?|[]]. congruence.
Qed.

Lemma browserTo_call (c : Call) (r : Result unit) :
  c ≠ CClose → browserTo id (call c r).
Proof.
  intros Hc g. cbn. split; [|done]. rewrite elem_of_cons, elem_of_nil.
  intros [?|[]]. congruence.
Qed.

Lemma browserTo_setFields (f : Generator → Generator) :
  (∀ g, browser (f g) = browser g) → browserTo id (setFields f).
Proof. intros H g. cbn. split; [apply not_elem_of_nil|apply H]. Qed.

Ltac browserTo_step :=
  lazymatch goal with
  | |- browserTo _ (tbind _ _) => apply browserTo_tbind; [|intros ?]
  | |- browserTo _ (tryCatch _ _) => apply browserTo_tryCatch; [|intros ?]
  | |- browserTo _ (tret _) => apply browserTo_tret
  | |- browserTo _ (tthrow _) => apply browserTo_tthrow
  | |- browserTo _ (liftResult _) => apply browserTo_liftResult
  | |- browserTo _ (getField _) => apply browserTo_getField
  | |- browserTo _ (emit _) => apply browserTo_emit; discriminate
  | |- browserTo _ (console _ _) => apply browserTo_emit; discriminate
  | |- browserTo _ (call _ _) => apply browserTo_call; discriminate
  | |- browserTo _ (setFields _) => apply browserTo_setFields; done
  | |- browserTo _ (match ?x with _ => _ end) => destruct x
  | |- browserTo _ (if ?x then _ else _) => destruct x
  | |- browserTo _ (let '(_, _) := ?x in _) => destruct x
  end.

Ltac browserTo_solve :=
  unfold thePage, nullPage, member, await; repeat browserTo_step.

Lemma browserTo_loadContent (config : ConfigView) (world : World) :
  browserTo id (loadContent config world).
Proof. unfold loadContent, navigate, waitForImages, showDocument. browserTo_solve. Qed.

Lemma browserTo_applyOptimizations (world : World) :
  browserTo id (applyOptimizations world).
Proof. unfold applyOptimizations. browserTo_solve. Qed.

Lemma browserTo_generatePDF (config : ConfigView) (world : World) :
  browserTo id (generatePDF config world).
Proof. unfold generatePDF. browserTo_solve. Qed.

(** [initialize] sets the browser as soon as the launch has succeeded,
    whatever fails after. *)
Lemma browserTo_initialize (world : World) :
  browserTo (λ b, if isOk (launch world) then true else b) (initialize world).
Proof.
  intros g. unfold initialize, tryCatch, tbind, call, setFields, tthrow. cbn.
  destruct (launch world) as [[]|], (newPage world) as [[]|],
    (setViewport world) as [[]|]; cbn;
    (split; [|done]); intros H;
    repeat (apply elem_of_cons in H as [H|H]; [discriminate H|]);
    by apply elem_of_nil in H.
Qed.

Lemma browserTo_emit_bind {A} (f : bool → bool) (e : Event) (k : Task A) :
  e ≠ ECall CClose → browserTo f k → browserTo f (tbind (emit e) (λ _, k)).
Proof.
  intros He Hk g. unfold tbind, emit. specialize (Hk g).
  destruct (k g) as [[r g2] t2]. cbn in *. destruct Hk as [Hk1 Hk2].
  split; [|done]. rewrite elem_of_cons. intros [?|?]; [congruence|done].
Qed.

Lemma browserTo_stages (config : ConfigView) (world : World) :
  browserTo (λ b, if isOk (launch world) then true else b) (stages config world).
Proof.
  unfold stages, console. apply browserTo_emit_bind; [discriminate|].
  apply browserTo_tbind; [apply browserTo_initialize|intros _].
  repeat first [ apply browserTo_loadContent | apply browserTo_applyOptimizations
               | apply browserTo_generatePDF | browserTo_step ].
Qed.

Lemma isStageEvent_no_exit (t : list Event) (c : nat) :
  Forall (λ e, isStageEvent e = true) t → EExit c ∉ t.
Proof. intros H Hin. rewrite Forall_forall in H. by apply H in Hin. Qed.

(** The run of [convertToPDF], spelled out after the stages. *)
Lemma convertToPDF_unfold (config : ConfigView) (world : World) :
  let '(r, g1, t1) := stages config world newGenerator in
  convertToPDF config world
  = (ending world r,
     (t1 ++
      match r with
      | Ok p =>
          [EConsole console_log (MsgPdfGenerated p); ECleanup]
          ++ (if isOk (launch world) then [ECall CClose] else [])
          ++ match (if isOk (launch world) then close world 0 else Ok tt) with
             | Ok _ => [EConsole console_log MsgCompleted]
             | Throw e =>
                 [EConsole console_error (MsgError (errMessage e)); ECleanup;
                  ECall CClose]
                 ++ match close world 1 with
                    | Ok _ => [EExit 1]
                    | Throw _ => []
                    end
             end
      | Throw e =>
          [EConsole console_error (MsgError (errMessage e)); ECleanup]
          ++ (if isOk (launch world)
              then ECall CClose :: match close world 0 with
                                   | Ok _ => [EExit 1]
                                   | Throw _ => []
                                   end
              else [EExit 1])
      end)%list).
Proof.
  pose proof (quiet_stages config world newGenerator) as (_ & Hcc & _).
  pose proof (browserTo_stages config world newGenerator) as (_ & Hb).
  pose proof (browserAfter_stages config world newGenerator) as Hafter.
  unfold convertToPDF, pipeline, recover, ending.
  unfold tryCatch, tbind, console, emit, tret.
  destruct (stages config world newGenerator) as [[[p|e] g1] t1];
    cbn [fst snd browser closeCalls newGenerator] in Hcc, Hb, Hafter.
  - specialize (Hafter eq_refl). rewrite Hafter in Hb.
    destruct (isOk (launch world)) eqn:Hl; [|cbn in Hb; discriminate Hb].
    rewrite cleanup_unfold, Hafter, Hcc. cbn [closeCalls newGenerator].
    destruct (close world 0) as [[]|e0]; cbn [ending].
    + cbn. by rewrite ?app_nil_r, <- ?app_assoc.
    + rewrite cleanup_unfold. cbn [browser closeCalls].
      destruct (close world 1) as [[]|e1]; cbn; by rewrite ?app_nil_r, <- ?app_assoc.
  - rewrite cleanup_unfold, Hb, Hcc. cbn [closeCalls newGenerator browser ending].
    destruct (isOk (launch world)) eqn:Hl.
    + destruct (close world 0) as [[]|e0]; cbn; by rewrite ?app_nil_r, <- ?app_assoc.
    + cbn. by rewrite ?app_nil_r, <- ?app_assoc.
Qed.

Ltac in_list H :=
  repeat (first [ apply elem_of_cons in H as [H|H]; [try discriminate H|]
                | apply elem_of_app in H as [H|H] ]);
  try (by apply elem_of_nil in H).

(** X18.  [convertToPDF] calls [browser.close()] exactly in the runs in
    which [puppeteer.launch()] has succeeded: a browser that was
    launched is never left without a call to close it, whichever stage
    fails, and no call is made when there is no browser. *)
Theorem convertToPDF_closes_what_it_launched (config : ConfigView) (world : World) :
  ECall CClose ∈ (convertToPDF config world).2 ↔ launch world = Ok tt.
Proof.
  pose proof (convertToPDF_unfold config world) as H.
  pose proof (browserTo_stages config world newGenerator) as [Hno _].
  destruct (stages config world newGenerator) as [[r g1] t1]. cbn [snd] in Hno.
  rewrite H. cbn [snd]. clear H.
  assert (Hl : isOk (launch world) = true ↔ launch world = Ok tt).
  { destruct (launch world) as [[]|]; by split. }
  rewrite <- Hl. rewrite elem_of_app. split.
  - intros [Hin|Hin]; [done|].
    destruct (isOk (launch world)); [done|]. exfalso.
    destruct r as [p|e]; cbn in Hin; in_list Hin.
  - intros Hok. right. rewrite Hok.
    destruct r as [p|e]; cbn; by repeat constructor.
Qed.

Lemma stages_Ok_launched (config : ConfigView) (world : World) :
  isOk (stages config world newGenerator).1.1 = true → isOk (launch world) = true.
Proof.
  intros Hok.
  pose proof (browserTo_stages config world newGenerator) as [_ Hb].
  pose proof (browserAfter_stages config world newGenerator Hok) as Hafter.
  rewrite Hafter in Hb. cbn in Hb. by destruct (isOk (launch world)).
Qed.

(** X19.  How a run of [convertToPDF] ends.  It returns the output path
    exactly when the four stages succeed and the browser closes.  When
    a stage fails, or the browser does not close after the stages, the
    catch block runs: the process exits with code 1 if its own cleanup
    succeeds, and if that cleanup's [browser.close()] rejects, the
    rejection escapes and [process.exit] is never reached. *)
Theorem convertToPDF_ending (config : ConfigView) (world : World) (c : nat) :
  (convertToPDF config world).1
  = ending world (stages config world newGenerator).1.1 ∧
  ((EExit c ∈ (convertToPDF config world).2) ↔
   (convertToPDF config world).1 = Exited c).
Proof.
  pose proof (convertToPDF_unfold config world) as H.
  pose proof (quiet_stages config world newGenerator) as (Hq & _ & _).
  pose proof (stages_Ok_launched config world) as Hlaunched.
  destruct (stages config world newGenerator) as [[r g1] t1]. cbn [fst snd] in *.
  rewrite H. cbn [fst snd]. clear H. split; [done|].
  pose proof (isStageEvent_no_exit t1 c Hq) as Hno.
  rewrite elem_of_app. unfold ending.
  destruct r as [p|e].
  - rewrite (Hlaunched eq_refl).
    destruct (close world 0) as [[]|e0].
    + split; [|done]. intros [Hin|Hin]; [done|]. in_list Hin.
    + destruct (close world 1) as [[]|e1].
      * split.
        -- intros [Hin|Hin]; [done|]. in_list Hin. by injection Hin as <-.
        -- intros [= <-]. right. cbn. by repeat constructor.
      * split; [|done]. intros [Hin|Hin]; [done|]. in_list Hin.
  - destruct (isOk (launch world)).
    + destruct (close world 0) as [[]|e0].
      * split.
        -- intros [Hin|Hin]; [done|]. in_list Hin. by injection Hin as <-.
        -- intros [= <-]. right. cbn. by repeat constructor.
      * split; [|done]. intros [Hin|Hin]; [done|]. in_list Hin.
    + split.
      * intros [Hin|Hin]; [done|]. in_list Hin. by injection Hin as <-.
      * intros [= <-]. right. cbn. by repeat constructor.
Qed.

(** X20.  [loadContent] calls [page.setContent] only as the fallback:
    whenever it is called, [page.goto] has been called before it and
    has rejected, the warning has been printed and the file has been
    read, and it is given the same [pageLoad] timeout as the [goto]. *)
Theorem loadContent_setContent_is_fallback (config : ConfigView) (world : World)
    (g : Generator) (ms : N) :
  ECall (CSetContent ms) ∈ (loadContent config world g).2 →
  isOk (goto world) = false ∧
  (∃ timeouts, getTimeouts config = Some timeouts ∧ ms = pageLoad timeouts) ∧
  ∃ post, (loadContent config world g).2
          = ([ECall (CGoto ms); EConsole console_warn MsgFileUrlFailed;
              ECall CReadHtml; ECall (CSetContent ms)] ++ post)%list.
Proof.
  rewrite loadContent_unfold.
  destruct (htmlExists world); [|by intros H%elem_of_nil].
  assert (Hwait : ∀ g1, ECall (CSetContent ms)
                        ∉ (waitForImages world (getTimeouts config) g1).2).
  { intros g1 Hin. revert Hin. task_unfold. cbn.
    destruct (pageDoc g1) as [d|], (getTimeouts config) as [t|],
      (evaluateImages world) as [[]|]; cbn;
      repeat (match goal with
              | |- context [bool_decide ?P] => destruct (bool_decide P)
              | |- context [match waitForTimeout world with _ => _ end] =>
                  destruct (waitForTimeout world) as [[]|]
              | |- context [match waitForTimeoutAgain world with _ => _ end] =>
                  destruct (waitForTimeoutAgain world) as [[]|]
              | |- context [race ?a ?b] => destruct (race a b)
              end; cbn);
      intros Hin; in_list Hin. }
  assert (Hnav : ECall (CSetContent ms) ∈ (navigate world (getTimeouts config) g).2 →
                 isOk (goto world) = false ∧
                 (∃ timeouts, getTimeouts config = Some timeouts
                              ∧ ms = pageLoad timeouts) ∧
                 ∃ post, (navigate world (getTimeouts config) g).2
                         = ([ECall (CGoto ms); EConsole console_warn MsgFileUrlFailed;
                             ECall CReadHtml; ECall (CSetContent ms)] ++ post)%list).
  { task_unfold. cbn.
    destruct (pageDoc g) as [d|] eqn:Hp, (getTimeouts config) as [t|]; cbn;
      rewrite ?Hp; cbn; try (intros Hin; in_list Hin; fail);
      destruct (goto world) as [[]|]; cbn; try (intros Hin; in_list Hin; fail);
      destruct (readHtml world) as [[]|]; cbn; rewrite ?Hp; cbn;
      try (intros Hin; in_list Hin; fail);
      destruct (setContent world) as [[]|]; cbn;
      intros Hin; in_list Hin; injection Hin as ->;
      (split; [done|]); (split; [by eexists|]); by eexists. }
  destruct (navigate world (getTimeouts config) g) as [[[[]|e] g1] t1] eqn:Hn;
    cbn [snd] in Hnav.
  - specialize (Hwait g1).
    destruct (waitForImages world (getTimeouts config) g1) as [[[[]|e] g2] t2];
      cbn [snd] in *; intros Hin; apply elem_of_app in Hin as [Hin|Hin]; try done;
      destruct (Hnav Hin) as (Hg & Ht & post & ->);
      (split; [done|]); (split; [done|]);
      exists (post ++ t2)%list; by rewrite <- app_assoc.
  - cbn [snd]. intros Hin. destruct (Hnav Hin) as (Hg & Ht & post & ->). eauto.
Qed.

Lemma loadContent_setContent_is_fallback_witness :
  ∃ post, (loadContent sampleConfig (gotoRejectsWorld minimalDocument) initialized).2
          = ([ECall (CGoto 30000); EConsole console_warn MsgFileUrlFailed;
              ECall CReadHtml; ECall (CSetContent 30000)] ++ post)%list.
Proof.
  refine (proj2 (proj2 (loadContent_setContent_is_fallback sampleConfig
                          (gotoRejectsWorld minimalDocument) initialized 30000 _))).
  vm_compute. by repeat constructor.
Defined.

(** X21.  A rejection of the probe that looks for images does not make
    [loadContent] fail: once the document is in the page, the rejection
    is answered with the warning and a wait of [timeouts.imageRender],
    and [loadContent] succeeds if that wait does; no poll for images is
    started. *)
Theorem loadContent_survives_probe_failure (config : ConfigView) (world : World)
    (g : Generator) (t : Timeouts) (d0 : Doc) (e : JsError) :
  pageDoc g = Some d0 →
  htmlExists world = true →
  getTimeouts config = Some t →
  goto world = Ok tt →
  evaluateImages world = Throw e →
  waitForTimeoutAgain world = Ok tt →
  loadContent config world g
  = (Ok tt, showing (document world) g,
     [ECall (CGoto (pageLoad t)); ECall CEvaluate;
      EConsole console_warn MsgImagesMayNotHaveLoaded;
      ECall (CWaitForTimeout (imageRender t)); EAwaited (imageRender t)]).
Proof.
  intros Hp Hex Ht Hg He Hw. task_unfold. cbn.
  rewrite Hex. cbn. rewrite Hp, Ht. cbn. rewrite Hg. cbn. rewrite He. cbn.
  rewrite Hw. cbn. reflexivity.
Qed.

Lemma loadContent_survives_probe_failure_witness :
  (loadContent sampleConfig (probeRejectsWorld minimalDocument) initialized).1.1 = Ok tt.
Proof.
  rewrite (loadContent_survives_probe_failure sampleConfig
             (probeRejectsWorld minimalDocument) initialized
             {| pageLoad := 30000; imageRender := 1000 |} []
             (Err PlainError "Execution context was destroyed" None None)
             eq_refl eq_refl eq_refl eq_refl eq_refl eq_refl).
  reflexivity.
Defined.
